(** * nvidia-license-server-exporter: the snapshot fetcher and its cache

    A shallow embedding of the packages of the exporter:

    - [cls]: the hierarchical fetch-and-aggregate pipeline of
      [Client.FetchSnapshot] and [Client.fetchActiveLeaseUsage], and the
      client with the requests it sends;
    - [snapshot]: the TTL cache with stale fallback of [Service];
    - [exporter] and [otel]: the collector of the pull protocol and the
      observations of the push protocol, both fed from the cache;
    - [main]: the defaults read from the environment and the start of the
      command.

    Conventions of the embedding.

    - Go's [float64] quantities (lease counts, allotments, durations in
      seconds) are exact rationals [Qc]; rounding, infinities and NaN are not
      represented.  Where a property depends on them, the accumulation of
      lease counts is embedded once more in [binary64], on IEEE binary64
      numbers.
    - Go's [int] identifiers are [Z]; no arithmetic is done on them.
    - [time.Time] is the number of nanoseconds elapsed since Go's zero
      [time.Time], so that the zero value is [0]; [time.Duration] is a number
      of nanoseconds.
    - Go maps are [gmap]s, Go sets ([map[K]struct{}]) are [gset]s; a missing key
      reads as the zero value of the element type, as in Go.
    - The licensing API behind [doJSON] is an oracle, [Upstream], giving for
      each endpoint either the decoded payload or an error.
    - An [errgroup] fan-out is executed one task after the other, in the order
      of submission, and stops at the first error.  The parts of the
      aggregation that do not depend on the schedule are stated over arbitrary
      sequences of leases. *)

From Stdlib Require Import QArith Qcanon Ascii.
From Stdlib Require PrimFloat SpecFloat FloatOps.
From stdpp Require Import base numbers option strings list gmap fin_maps.
From stdpp Require Import pretty.

Open Scope Z_scope.
Open Scope Qc_scope.

Abbreviation float64 := Qc.
Abbreviation Time := Z (only parsing).
Abbreviation Duration := Z (only parsing).

(** ** Strings *)

(** A string is a Go string: a sequence of bytes, UTF-8 for text, as the
    strings decoded from JSON are.  [strings.TrimSpace] removes the leading
    and the trailing runes that [unicode.IsSpace] accepts: the six of ASCII
    (tab, line feed, vertical tab, form feed, carriage return, space), and
    U+0085, U+00A0, U+1680, U+2000 to U+200A, U+2028, U+2029, U+202F, U+205F
    and U+3000, which take two or three bytes. *)
Definition asciiSpace (c : ascii) : bool :=
  let n := Ascii.nat_of_ascii c in
  ((9 <=? n)%nat && (n <=? 13)%nat) || (n =? 32)%nat.

Definition space2 (c1 c2 : ascii) : bool :=
  let n1 := Ascii.nat_of_ascii c1 in
  let n2 := Ascii.nat_of_ascii c2 in
  (n1 =? 194)%nat && ((n2 =? 133)%nat || (n2 =? 160)%nat).

Definition space3 (c1 c2 c3 : ascii) : bool :=
  let n1 := Ascii.nat_of_ascii c1 in
  let n2 := Ascii.nat_of_ascii c2 in
  let n3 := Ascii.nat_of_ascii c3 in
  ((n1 =? 225)%nat && (n2 =? 154)%nat && (n3 =? 128)%nat)
  || ((n1 =? 226)%nat && (n2 =? 128)%nat
      && (((128 <=? n3)%nat && (n3 <=? 138)%nat)
          || (n3 =? 168)%nat || (n3 =? 169)%nat || (n3 =? 175)%nat))
  || ((n1 =? 226)%nat && (n2 =? 129)%nat && (n3 =? 159)%nat)
  || ((n1 =? 227)%nat && (n2 =? 128)%nat && (n3 =? 128)%nat).

(** The string without its leading white space; with [back], the bytes of
    [s] and of the result are in reverse order, so that a rune is met last
    byte first. *)
Fixpoint trimLeading (back : bool) (s : string) : string :=
  match s with
  | EmptyString => EmptyString
  | String c1 rest1 =>
      if asciiSpace c1 then trimLeading back rest1
      else
        match rest1 with
        | EmptyString => s
        | String c2 rest2 =>
            if (if back then space2 c2 c1 else space2 c1 c2)
            then trimLeading back rest2
            else
              match rest2 with
              | EmptyString => s
              | String c3 rest3 =>
                  if (if back then space3 c3 c2 c1 else space3 c1 c2 c3)
                  then trimLeading back rest3
                  else s
              end
        end
  end.

Definition TrimSpace (s : string) : string :=
  String.rev (trimLeading true (String.rev (trimLeading false s))).

(** ** Errors and fallible calls *)

(** An error is what [doJSON] reports, possibly wrapped by the [fmt.Errorf]
    calls of the three fan-out phases, which add the identifiers of the failing
    sub-call. *)
Inductive error : Type :=
  | UpstreamError (msg : string)
  | ListLicenseServersError (virtualGroupID : Z) (cause : error)
  | ListActiveLeasesError (virtualGroupID : Z) (serviceInstanceID : string)
      (cause : error)
  | ListLicensePoolsError (serverID : string) (virtualGroupID : Z)
      (cause : error).

Inductive result (A : Type) : Type :=
  | Ok (a : A)
  | Err (e : error).
Arguments Ok {A} a.
Arguments Err {A} e.

#[global] Instance result_ret : MRet result := λ A a, Ok a.
#[global] Instance result_bind : MBind result := λ A B k r,
  match r with
  | Ok a => k a
  | Err e => Err e
  end.

(** [fmt.Errorf("...: %w", err)] around a failing call. *)
Definition wrapErr {A : Type} (w : error → error) (r : result A) : result A :=
  match r with
  | Ok a => Ok a
  | Err e => Err (w e)
  end.

(** [g.Go(task)] for every element of [l], then [g.Wait()]: the tasks update
    the shared accumulator [s] in turn; the first error is returned. *)
Fixpoint errgroupRun {A S : Type} (task : A → S → result S) (l : list A) (s : S)
  : result S :=
  match l with
  | [] => Ok s
  | x :: rest =>
      match task x s with
      | Ok s' => errgroupRun task rest s'
      | Err e => Err e
      end
  end.

Definition isOk {A : Type} (r : result A) : bool :=
  match r with Ok _ => true | Err _ => false end.

(** [m[k] += v] on a Go map of numbers. *)
Definition addTo `{Countable K} (k : K) (v : float64) (m : gmap K float64)
  : gmap K float64 :=
  <[k := default 0 (m !! k) + v]> m.

Definition maxFloat64 (a b : float64) : float64 :=
  if decide (b < a) then a else b.

(** ** Package [cls]: payloads of the licensing API *)

Module cls.

Module entitlementFeature.
Record entitlementFeature : Type := mk {
  FeatureName : string;
  FeatureVersion : string;
  ProductName : string;
  LicenseType : string;
  TotalQuantity : float64;
  InUseQuantity : float64;
  UnassignedQuantity : float64 }.
End entitlementFeature.
Abbreviation entitlementFeature := entitlementFeature.entitlementFeature.

Module entitlementProductKey.
Record entitlementProductKey : Type := mk {
  EntitlementFeatures : list entitlementFeature }.
End entitlementProductKey.
Abbreviation entitlementProductKey :=
  entitlementProductKey.entitlementProductKey.

Module entitlementSummary.
Record entitlementSummary : Type := mk {
  EntitlementProductKeys : list entitlementProductKey }.
End entitlementSummary.
Abbreviation entitlementSummary := entitlementSummary.entitlementSummary.

Module virtualGroup.
Record virtualGroup : Type := mk {
  ID : Z;
  Name : string;
  Entitlements : list entitlementSummary }.
End virtualGroup.
Abbreviation virtualGroup := virtualGroup.virtualGroup.

Module licenseServerFeature.
Record licenseServerFeature : Type := mk {
  ID : string;
  FeatureName : string;
  ProductName : string;
  LicenseType : string;
  TotalQuantity : float64 }.
Definition zero : licenseServerFeature := mk "" "" "" "" 0.
End licenseServerFeature.
Abbreviation licenseServerFeature := licenseServerFeature.licenseServerFeature.

Module licenseServer.
Record licenseServer : Type := mk {
  ID : string;
  Name : string;
  Status : string;
  VirtualGroupID : Z;
  VirtualGroupName : string;
  DeployedOn : string;
  LeasingMode : string;
  ServiceInstanceID : string;
  LicenseServerFeatures : list licenseServerFeature }.
Definition zero : licenseServer := mk "" "" "" 0%Z "" "" "" "" [].
End licenseServer.
Abbreviation licenseServer := licenseServer.licenseServer.

Module licensePoolFeature.
Record licensePoolFeature : Type := mk {
  LicenseServerFeatureID : string;
  TotalAllotment : float64;
  InUse : float64 }.
End licensePoolFeature.
Abbreviation licensePoolFeature := licensePoolFeature.licensePoolFeature.

Module licensePool.
Record licensePool : Type := mk {
  ID : string;
  Name : string;
  LicensePoolFeatures : list licensePoolFeature }.
End licensePool.
Abbreviation licensePool := licensePool.licensePool.

Module activeLease.
Record activeLease : Type := mk {
  LeaseID : string;
  FeatureName : string;
  LeaseCount : float64;
  LicenseAllotmentFeatureID : string }.
End activeLease.
Abbreviation activeLease := activeLease.activeLease.

Module activeLeaseAdditionalProperties.
Record activeLeaseAdditionalProperties : Type := mk {
  LicenseServerID : string;
  LicenseServerName : string }.
End activeLeaseAdditionalProperties.
Abbreviation activeLeaseAdditionalProperties :=
  activeLeaseAdditionalProperties.activeLeaseAdditionalProperties.

Module activeLeaseClient.
Record activeLeaseClient : Type := mk {
  Leases : list activeLease;
  AdditionalProperties : activeLeaseAdditionalProperties }.
End activeLeaseClient.
Abbreviation activeLeaseClient := activeLeaseClient.activeLeaseClient.

(** The four endpoints as [doJSON] answers them.  [listActiveLeases] receives
    the service-instance id that is sent in the request header. *)
Record Upstream : Type := {
  listVirtualGroups : result (list virtualGroup);
  listLicenseServers : Z → result (list licenseServer);
  listLicensePools : Z → string → result (list licensePool);
  listActiveLeases : Z → string → result (list activeLeaseClient) }.

(** ** Package [cls]: the rows of a snapshot *)

Module EntitlementFeatureSnapshot.
Record EntitlementFeatureSnapshot : Type := mk {
  VirtualGroupID : Z;
  VirtualGroupName : string;
  FeatureName : string;
  FeatureVersion : string;
  ProductName : string;
  LicenseType : string;
  TotalQuantity : float64;
  InUseQuantity : float64;
  Unassigned : float64 }.
End EntitlementFeatureSnapshot.
Abbreviation EntitlementFeatureSnapshot :=
  EntitlementFeatureSnapshot.EntitlementFeatureSnapshot.

Module ServerFeatureCapacitySnapshot.
Record ServerFeatureCapacitySnapshot : Type := mk {
  VirtualGroupID : Z;
  VirtualGroupName : string;
  ServerID : string;
  ServerName : string;
  ServerStatus : string;
  DeployedOn : string;
  LeasingMode : string;
  FeatureName : string;
  ProductName : string;
  LicenseType : string;
  TotalQuantity : float64 }.
End ServerFeatureCapacitySnapshot.
Abbreviation ServerFeatureCapacitySnapshot :=
  ServerFeatureCapacitySnapshot.ServerFeatureCapacitySnapshot.

Module ServerUsageSnapshot.
Record ServerUsageSnapshot : Type := mk {
  VirtualGroupID : Z;
  VirtualGroupName : string;
  ServerID : string;
  ServerName : string;
  ServerStatus : string;
  DeployedOn : string;
  LeasingMode : string;
  Allocated : float64;
  InUse : float64;
  Available : float64 }.
End ServerUsageSnapshot.
Abbreviation ServerUsageSnapshot := ServerUsageSnapshot.ServerUsageSnapshot.

Module ServerActiveLeaseSnapshot.
Record ServerActiveLeaseSnapshot : Type := mk {
  VirtualGroupID : Z;
  VirtualGroupName : string;
  ServerID : string;
  ServerName : string;
  ActiveLeases : float64 }.
End ServerActiveLeaseSnapshot.
Abbreviation ServerActiveLeaseSnapshot :=
  ServerActiveLeaseSnapshot.ServerActiveLeaseSnapshot.

Module ServerFeatureActiveLeaseSnapshot.
Record ServerFeatureActiveLeaseSnapshot : Type := mk {
  VirtualGroupID : Z;
  VirtualGroupName : string;
  ServerID : string;
  ServerName : string;
  FeatureName : string;
  ProductName : string;
  LicenseType : string;
  ActiveLeases : float64 }.
End ServerFeatureActiveLeaseSnapshot.
Abbreviation ServerFeatureActiveLeaseSnapshot :=
  ServerFeatureActiveLeaseSnapshot.ServerFeatureActiveLeaseSnapshot.

Module PoolUsageSnapshot.
Record PoolUsageSnapshot : Type := mk {
  VirtualGroupID : Z;
  VirtualGroupName : string;
  ServerID : string;
  ServerName : string;
  PoolID : string;
  PoolName : string;
  FeatureName : string;
  ProductName : string;
  LicenseType : string;
  Allocated : float64;
  InUse : float64;
  Available : float64 }.
End PoolUsageSnapshot.
Abbreviation PoolUsageSnapshot := PoolUsageSnapshot.PoolUsageSnapshot.

Record Snapshot : Type := {
  CollectedAt : Time;
  EntitlementFeatures : list EntitlementFeatureSnapshot;
  ServerFeatureCapacity : list ServerFeatureCapacitySnapshot;
  ServerUsage : list ServerUsageSnapshot;
  ServerActiveLeases : list ServerActiveLeaseSnapshot;
  ServerFeatureActiveLeases : list ServerFeatureActiveLeaseSnapshot;
  ActiveLeaseTotal : float64;
  PoolUsage : list PoolUsageSnapshot }.

(** ** Package [cls]: helpers *)

(** Variadic in Go; the arguments are given as a list. *)
Fixpoint firstNonEmptyNonBlank (values : list string) : string :=
  match values with
  | [] => ""
  | value :: rest =>
      let trimmed := TrimSpace value in
      if decide (trimmed ≠ "") then trimmed else firstNonEmptyNonBlank rest
  end.

Definition extractEntitlementFeatureMetrics (virtualGroups : list virtualGroup)
  : list EntitlementFeatureSnapshot :=
  vg ← virtualGroups;
  entitlement ← virtualGroup.Entitlements vg;
  key ← entitlementSummary.EntitlementProductKeys entitlement;
  feature ← entitlementProductKey.EntitlementFeatures key;
  [ {| EntitlementFeatureSnapshot.VirtualGroupID := virtualGroup.ID vg;
       EntitlementFeatureSnapshot.VirtualGroupName := virtualGroup.Name vg;
       EntitlementFeatureSnapshot.FeatureName :=
         entitlementFeature.FeatureName feature;
       EntitlementFeatureSnapshot.FeatureVersion :=
         entitlementFeature.FeatureVersion feature;
       EntitlementFeatureSnapshot.ProductName :=
         entitlementFeature.ProductName feature;
       EntitlementFeatureSnapshot.LicenseType :=
         entitlementFeature.LicenseType feature;
       EntitlementFeatureSnapshot.TotalQuantity :=
         entitlementFeature.TotalQuantity feature;
       EntitlementFeatureSnapshot.InUseQuantity :=
         entitlementFeature.InUseQuantity feature;
       EntitlementFeatureSnapshot.Unassigned :=
         entitlementFeature.UnassignedQuantity feature |} ].

(** ** Phase 2 of [FetchSnapshot]: the servers of every group *)

(** The loop over [servers[i]] that fills in the owning group. *)
Definition backfillGroup (vg : virtualGroup) (server : licenseServer)
  : licenseServer :=
  {| licenseServer.ID := licenseServer.ID server;
     licenseServer.Name := licenseServer.Name server;
     licenseServer.Status := licenseServer.Status server;
     licenseServer.VirtualGroupID :=
       if decide (licenseServer.VirtualGroupID server = 0%Z)
       then virtualGroup.ID vg
       else licenseServer.VirtualGroupID server;
     licenseServer.VirtualGroupName :=
       if decide (licenseServer.VirtualGroupName server = "")
       then virtualGroup.Name vg
       else licenseServer.VirtualGroupName server;
     licenseServer.DeployedOn := licenseServer.DeployedOn server;
     licenseServer.LeasingMode := licenseServer.LeasingMode server;
     licenseServer.ServiceInstanceID := licenseServer.ServiceInstanceID server;
     licenseServer.LicenseServerFeatures :=
       licenseServer.LicenseServerFeatures server |}.

Definition serverTask (api : Upstream) (vg : virtualGroup)
    (serversByVG : gmap Z (list licenseServer))
  : result (gmap Z (list licenseServer)) :=
  servers ← wrapErr (ListLicenseServersError (virtualGroup.ID vg))
              (listLicenseServers api (virtualGroup.ID vg));
  mret (<[virtualGroup.ID vg := backfillGroup vg <$> (servers : list _)]>
          serversByVG).

(** ** Phase 3: [fetchActiveLeaseUsage] *)

Record activeFeatureKey : Type := {
  virtualGroupID : Z;
  virtualGroupName : string;
  serverID : string;
  serverName : string;
  featureName : string;
  productName : string;
  licenseType : string }.

#[global] Instance activeFeatureKey_eq_dec : EqDecision activeFeatureKey.
Proof. solve_decision. Defined.

#[global] Instance activeFeatureKey_countable : Countable activeFeatureKey.
Proof.
  refine (inj_countable'
    (λ k, (virtualGroupID k, virtualGroupName k, serverID k, serverName k,
           featureName k, productName k, licenseType k))
    (λ '(a, b, c, d, e, f, g), Build_activeFeatureKey a b c d e f g) _).
  by intros [].
Defined.

(** The variables shared by the tasks of [fetchActiveLeaseUsage] under [mu]. *)
Record leaseTotals : Type := {
  serverTotals : gmap string float64;
  featureTotals : gmap activeFeatureKey float64;
  seenLeaseIDs : gset string;
  total : float64 }.

Definition noLeases : leaseTotals :=
  {| serverTotals := ∅; featureTotals := ∅; seenLeaseIDs := ∅; total := 0 |}.

(** The section between [mu.Lock()] and [mu.Unlock()].  Its three
    additions are exact here; [binary64.recordLease] is the same section
    with the additions of binary64. *)
Definition recordLease (serverID : string) (key : activeFeatureKey)
    (leaseID : string) (leaseCount : float64) (t : leaseTotals) : leaseTotals :=
  if decide (leaseID ≠ "" ∧ leaseID ∈ seenLeaseIDs t) then t
  else
    {| serverTotals := addTo serverID leaseCount (serverTotals t);
       featureTotals := addTo key leaseCount (featureTotals t);
       seenLeaseIDs :=
         if decide (leaseID ≠ "") then {[leaseID]} ∪ seenLeaseIDs t
         else seenLeaseIDs t;
       total := total t + leaseCount |}.

(** The three per-group maps built before the tasks of a group are started. *)
Record groupIndex : Type := {
  serverByID : gmap string licenseServer;
  featureByAllotmentID : gmap string licenseServerFeature;
  serviceInstanceIDs : gset string }.

Definition indexServer (ix : groupIndex) (server : licenseServer) : groupIndex :=
  {| serverByID := <[licenseServer.ID server := server]> (serverByID ix);
     featureByAllotmentID :=
       foldl (λ m feature, <[licenseServerFeature.ID feature := feature]> m)
         (featureByAllotmentID ix) (licenseServer.LicenseServerFeatures server);
     serviceInstanceIDs :=
       if decide (TrimSpace (licenseServer.ServiceInstanceID server) ≠ "")
       then {[licenseServer.ServiceInstanceID server]} ∪ serviceInstanceIDs ix
       else serviceInstanceIDs ix |}.

Definition indexServers (servers : list licenseServer) : groupIndex :=
  foldl indexServer
    {| serverByID := ∅; featureByAllotmentID := ∅; serviceInstanceIDs := ∅ |}
    servers.

(** The server a client's leases are attributed to; [""] when there is none. *)
Definition resolveServerID (ix : groupIndex) (client : activeLeaseClient)
  : string :=
  let serverID :=
    TrimSpace (activeLeaseAdditionalProperties.LicenseServerID
                 (activeLeaseClient.AdditionalProperties client)) in
  if decide (serverID = "" ∧ size (serverByID ix) = 1%nat) then
    match map_to_list (serverByID ix) with
    | (onlyID, _) :: _ => onlyID
    | [] => serverID
    end
  else serverID.

Definition normalizeLeaseCount (leaseCount : float64) : float64 :=
  if decide (leaseCount ≤ 0) then 1 else leaseCount.

Definition leaseKey (virtualGroupID : Z) (virtualGroupName : string)
    (ix : groupIndex) (server : licenseServer) (serverID serverName : string)
    (lease : activeLease) : activeFeatureKey :=
  let feature :=
    default licenseServerFeature.zero
      (featureByAllotmentID ix !! activeLease.LicenseAllotmentFeatureID lease) in
  let featureName :=
    firstNonEmptyNonBlank
      [activeLease.FeatureName lease; licenseServerFeature.FeatureName feature] in
  let productName :=
    firstNonEmptyNonBlank [licenseServerFeature.ProductName feature; "unknown"] in
  let licenseType :=
    firstNonEmptyNonBlank [licenseServerFeature.LicenseType feature; "unknown"] in
  {| virtualGroupID := virtualGroupID;
     virtualGroupName :=
       firstNonEmptyNonBlank
         [licenseServer.VirtualGroupName server; virtualGroupName];
     serverID := serverID;
     serverName := serverName;
     featureName := firstNonEmptyNonBlank [featureName; "unknown"];
     productName := productName;
     licenseType := licenseType |}.

(** The body of the loop over [client.Leases]. *)
Definition leaseBody (virtualGroupID : Z) (virtualGroupName : string)
    (ix : groupIndex) (server : licenseServer) (serverID serverName : string)
    (t : leaseTotals) (lease : activeLease) : leaseTotals :=
  let leaseCount := normalizeLeaseCount (activeLease.LeaseCount lease) in
  let key :=
    leaseKey virtualGroupID virtualGroupName ix server serverID serverName
      lease in
  let leaseID := TrimSpace (activeLease.LeaseID lease) in
  recordLease serverID key leaseID leaseCount t.

(** The body of the loop over [clients]. *)
Definition clientBody (virtualGroupID : Z) (virtualGroupName : string)
    (ix : groupIndex) (t : leaseTotals) (client : activeLeaseClient)
  : leaseTotals :=
  let serverID := resolveServerID ix client in
  if decide (serverID = "") then t
  else
    let server := default licenseServer.zero (serverByID ix !! serverID) in
    let serverName :=
      firstNonEmptyNonBlank
        [activeLeaseAdditionalProperties.LicenseServerName
           (activeLeaseClient.AdditionalProperties client);
         licenseServer.Name server] in
    let serverName :=
      if decide (serverName = "") then "unknown" else serverName in
    foldl
      (leaseBody virtualGroupID virtualGroupName ix server serverID serverName)
      t (activeLeaseClient.Leases client).

(** One task per group and service instance that one of its servers names. *)
Record activeLeaseJob : Type := {
  jobGroupID : Z;
  jobGroupName : string;
  jobIndex : groupIndex;
  jobServiceInstanceID : string }.

Definition activeLeaseJobs (serversByVG : gmap Z (list licenseServer))
  : list activeLeaseJob :=
  '(virtualGroupID, servers) ← map_to_list serversByVG;
  match servers with
  | [] => []
  | first :: _ =>
      let ix := indexServers servers in
      serviceInstanceID ← elements (serviceInstanceIDs ix);
      [ {| jobGroupID := virtualGroupID;
           jobGroupName := licenseServer.VirtualGroupName first;
           jobIndex := ix;
           jobServiceInstanceID := serviceInstanceID |} ]
  end.

Definition activeLeaseTask (api : Upstream) (job : activeLeaseJob)
    (t : leaseTotals) : result leaseTotals :=
  clients ← wrapErr
              (ListActiveLeasesError (jobGroupID job) (jobServiceInstanceID job))
              (listActiveLeases api (jobGroupID job) (jobServiceInstanceID job));
  mret (foldl (clientBody (jobGroupID job) (jobGroupName job) (jobIndex job))
          t clients).

Definition serverActiveLeaseRows (serversByVG : gmap Z (list licenseServer))
    (serverTotals : gmap string float64) : list ServerActiveLeaseSnapshot :=
  '(virtualGroupID, servers) ← map_to_list serversByVG;
  server ← servers;
  match serverTotals !! licenseServer.ID server with
  | None => []
  | Some count =>
      [ {| ServerActiveLeaseSnapshot.VirtualGroupID := virtualGroupID;
           ServerActiveLeaseSnapshot.VirtualGroupName :=
             licenseServer.VirtualGroupName server;
           ServerActiveLeaseSnapshot.ServerID := licenseServer.ID server;
           ServerActiveLeaseSnapshot.ServerName := licenseServer.Name server;
           ServerActiveLeaseSnapshot.ActiveLeases := count |} ]
  end.

Definition featureActiveLeaseRow (entry : activeFeatureKey * float64)
  : ServerFeatureActiveLeaseSnapshot :=
  let '(key, count) := entry in
  {| ServerFeatureActiveLeaseSnapshot.VirtualGroupID := virtualGroupID key;
     ServerFeatureActiveLeaseSnapshot.VirtualGroupName := virtualGroupName key;
     ServerFeatureActiveLeaseSnapshot.ServerID := serverID key;
     ServerFeatureActiveLeaseSnapshot.ServerName := serverName key;
     ServerFeatureActiveLeaseSnapshot.FeatureName := featureName key;
     ServerFeatureActiveLeaseSnapshot.ProductName := productName key;
     ServerFeatureActiveLeaseSnapshot.LicenseType := licenseType key;
     ServerFeatureActiveLeaseSnapshot.ActiveLeases := count |}.

Definition fetchActiveLeaseUsage (api : Upstream)
    (serversByVG : gmap Z (list licenseServer))
  : result (gmap string float64 * list ServerActiveLeaseSnapshot
            * list ServerFeatureActiveLeaseSnapshot * float64) :=
  t ← errgroupRun (activeLeaseTask api) (activeLeaseJobs serversByVG) noLeases;
  let serverSnapshots := serverActiveLeaseRows serversByVG (serverTotals t) in
  let featureSnapshots :=
    featureActiveLeaseRow <$> map_to_list (featureTotals t) in
  mret (serverTotals t, serverSnapshots, featureSnapshots, total t).

(** ** Phase 4: pools and capacity of one server *)

Definition serverFeatureCapacityRow (server : licenseServer)
    (feature : licenseServerFeature) : ServerFeatureCapacitySnapshot :=
  {| ServerFeatureCapacitySnapshot.VirtualGroupID :=
       licenseServer.VirtualGroupID server;
     ServerFeatureCapacitySnapshot.VirtualGroupName :=
       licenseServer.VirtualGroupName server;
     ServerFeatureCapacitySnapshot.ServerID := licenseServer.ID server;
     ServerFeatureCapacitySnapshot.ServerName := licenseServer.Name server;
     ServerFeatureCapacitySnapshot.ServerStatus := licenseServer.Status server;
     ServerFeatureCapacitySnapshot.DeployedOn := licenseServer.DeployedOn server;
     ServerFeatureCapacitySnapshot.LeasingMode :=
       licenseServer.LeasingMode server;
     ServerFeatureCapacitySnapshot.FeatureName :=
       licenseServerFeature.FeatureName feature;
     ServerFeatureCapacitySnapshot.ProductName :=
       licenseServerFeature.ProductName feature;
     ServerFeatureCapacitySnapshot.LicenseType :=
       licenseServerFeature.LicenseType feature;
     ServerFeatureCapacitySnapshot.TotalQuantity :=
       licenseServerFeature.TotalQuantity feature |}.

(** The variables the loops over pools and their features update. *)
Record poolRollup : Type := {
  poolUsage : list PoolUsageSnapshot;
  serverAllocated : float64;
  serverInUse : float64 }.

(** The body of the loop over [pool.LicensePoolFeatures]. *)
Definition poolFeatureBody (server : licenseServer)
    (featureByID : gmap string licenseServerFeature) (pool : licensePool)
    (acc : poolRollup) (feature : licensePoolFeature) : poolRollup :=
  let serverFeature :=
    default licenseServerFeature.zero
      (featureByID !! licensePoolFeature.LicenseServerFeatureID feature) in
  let allocated := licensePoolFeature.TotalAllotment feature in
  let inUse := licensePoolFeature.InUse feature in
  let available := allocated - inUse in
  let available := if decide (available < 0) then 0 else available in
  {| serverAllocated := serverAllocated acc + allocated;
     serverInUse := serverInUse acc + inUse;
     poolUsage :=
       poolUsage acc ++
       [ {| PoolUsageSnapshot.VirtualGroupID :=
              licenseServer.VirtualGroupID server;
            PoolUsageSnapshot.VirtualGroupName :=
              licenseServer.VirtualGroupName server;
            PoolUsageSnapshot.ServerID := licenseServer.ID server;
            PoolUsageSnapshot.ServerName := licenseServer.Name server;
            PoolUsageSnapshot.PoolID := licensePool.ID pool;
            PoolUsageSnapshot.PoolName := licensePool.Name pool;
            PoolUsageSnapshot.FeatureName :=
              licenseServerFeature.FeatureName serverFeature;
            PoolUsageSnapshot.ProductName :=
              licenseServerFeature.ProductName serverFeature;
            PoolUsageSnapshot.LicenseType :=
              licenseServerFeature.LicenseType serverFeature;
            PoolUsageSnapshot.Allocated := allocated;
            PoolUsageSnapshot.InUse := inUse;
            PoolUsageSnapshot.Available := available |} ] |}.

Definition rollupPools (server : licenseServer)
    (featureByID : gmap string licenseServerFeature) (pools : list licensePool)
  : poolRollup :=
  foldl
    (λ acc pool,
       foldl (poolFeatureBody server featureByID pool) acc
         (licensePool.LicensePoolFeatures pool))
    {| poolUsage := []; serverAllocated := 0; serverInUse := 0 |}
    pools.

(** The usage row of a server, with the override by its active-lease total. *)
Definition serverUsageRow (activeByServer : gmap string float64)
    (server : licenseServer) (serverAllocated serverInUse : float64)
  : ServerUsageSnapshot :=
  let inUse :=
    match activeByServer !! licenseServer.ID server with
    | Some activeLeaseCount => activeLeaseCount
    | None => serverInUse
    end in
  let available :=
    match activeByServer !! licenseServer.ID server with
    | Some activeLeaseCount => maxFloat64 0 (serverAllocated - activeLeaseCount)
    | None => maxFloat64 0 (serverAllocated - serverInUse)
    end in
  {| ServerUsageSnapshot.VirtualGroupID := licenseServer.VirtualGroupID server;
     ServerUsageSnapshot.VirtualGroupName :=
       licenseServer.VirtualGroupName server;
     ServerUsageSnapshot.ServerID := licenseServer.ID server;
     ServerUsageSnapshot.ServerName := licenseServer.Name server;
     ServerUsageSnapshot.ServerStatus := licenseServer.Status server;
     ServerUsageSnapshot.DeployedOn := licenseServer.DeployedOn server;
     ServerUsageSnapshot.LeasingMode := licenseServer.LeasingMode server;
     ServerUsageSnapshot.Allocated := serverAllocated;
     ServerUsageSnapshot.InUse := inUse;
     ServerUsageSnapshot.Available := available |}.

(** The rows one pool task computes before it takes [snapshotMu]. *)
Definition poolTaskRows (activeByServer : gmap string float64)
    (server : licenseServer) (pools : list licensePool)
  : list PoolUsageSnapshot * ServerUsageSnapshot
    * list ServerFeatureCapacitySnapshot :=
  let featureByID : gmap string licenseServerFeature :=
    foldl (λ m feature, <[licenseServerFeature.ID feature := feature]> m)
      ∅ (licenseServer.LicenseServerFeatures server) in
  let serverFeatureCapacity :=
    serverFeatureCapacityRow server
      <$> licenseServer.LicenseServerFeatures server in
  let rollup := rollupPools server featureByID pools in
  (poolUsage rollup,
   serverUsageRow activeByServer server
     (serverAllocated rollup) (serverInUse rollup),
   serverFeatureCapacity).

Definition poolTask (api : Upstream) (activeByServer : gmap string float64)
    (job : virtualGroup * licenseServer) (snapshot : Snapshot)
  : result Snapshot :=
  let '(vg, server) := job in
  pools ← wrapErr
            (ListLicensePoolsError (licenseServer.ID server)
               (virtualGroup.ID vg))
            (listLicensePools api (virtualGroup.ID vg)
               (licenseServer.ID server));
  let '(poolUsage, serverUsage, serverFeatureCapacity) :=
    poolTaskRows activeByServer server pools in
  mret
    {| CollectedAt := CollectedAt snapshot;
       EntitlementFeatures := EntitlementFeatures snapshot;
       ServerFeatureCapacity :=
         ServerFeatureCapacity snapshot ++ serverFeatureCapacity;
       ServerUsage := ServerUsage snapshot ++ [serverUsage];
       ServerActiveLeases := ServerActiveLeases snapshot;
       ServerFeatureActiveLeases := ServerFeatureActiveLeases snapshot;
       ActiveLeaseTotal := ActiveLeaseTotal snapshot;
       PoolUsage := PoolUsage snapshot ++ poolUsage |}.

Definition poolJobs (virtualGroups : list virtualGroup)
    (serversByVG : gmap Z (list licenseServer))
  : list (virtualGroup * licenseServer) :=
  vg ← virtualGroups;
  server ← default [] (serversByVG !! virtualGroup.ID vg);
  [(vg, server)].

(** ** [FetchSnapshot] *)

(** [now] is the reading of [time.Now()] that becomes [CollectedAt]. *)
Definition FetchSnapshot (api : Upstream) (now : Time) : result Snapshot :=
  virtualGroups ← listVirtualGroups api;
  serversByVG ← errgroupRun (serverTask api) virtualGroups ∅;
  '(activeByServer, serverActiveLeases, serverFeatureActiveLeases,
    activeLeaseTotal) ← fetchActiveLeaseUsage api serversByVG;
  errgroupRun (poolTask api activeByServer)
    (poolJobs virtualGroups serversByVG)
    {| CollectedAt := now;
       EntitlementFeatures := extractEntitlementFeatureMetrics virtualGroups;
       ServerFeatureCapacity := [];
       ServerUsage := [];
       ServerActiveLeases := serverActiveLeases;
       ServerFeatureActiveLeases := serverFeatureActiveLeases;
       ActiveLeaseTotal := activeLeaseTotal;
       PoolUsage := [] |}.

(** ** The client and its requests *)

Definition defaultBaseURL : string := "https://api.licensing.nvidia.com".
Definition defaultRequestTimeout : Duration := 15000000000%Z.
Definition defaultParallelFetches : Z := 8%Z.
Definition defaultUserAgent : string := "nvidia-license-server-exporter/0.1".
Definition defaultContentTypeHeader : string := "application/json".

(** [strings.HasSuffix] and [strings.TrimSuffix]. *)
Definition HasSuffix (s suffix : string) : bool :=
  String.prefix (String.rev suffix) (String.rev s).

Definition TrimSuffix (s suffix : string) : string :=
  if HasSuffix s suffix
  then String.substring 0 (String.length s - String.length suffix) s
  else s.

(** Of [http.Client] only the timeout is set by this package. *)
Module httpClient.
Record httpClient : Type := mk { Timeout : Duration }.
End httpClient.
Abbreviation httpClient := httpClient.httpClient.

Module Config.
Record Config : Type := mk {
  BaseURL : string;
  APIKey : string;
  OrgName : string;
  ServiceInstanceID : string;
  HTTPClient : option httpClient;
  ParallelFetches : Z }.
End Config.
Abbreviation Config := Config.Config.

Module Client.
Record Client : Type := mk {
  baseURL : string;
  apiKey : string;
  orgName : string;
  serviceInstanceID : string;
  httpClient : httpClient;
  parallelFetches : Z }.
End Client.
Abbreviation Client := Client.Client.

(** [NewClient] gives a client, or the message of the error it refuses the
    configuration with. *)
Definition NewClient (cfg : Config) : string + Client :=
  if decide (TrimSpace (Config.APIKey cfg) = "") then inl "api key is required"
  else if decide (TrimSpace (Config.OrgName cfg) = "")
  then inl "org name is required"
  else
    let baseURL := TrimSpace (Config.BaseURL cfg) in
    let baseURL := if decide (baseURL = "") then defaultBaseURL else baseURL in
    let baseURL := TrimSuffix baseURL "/" in
    let httpClient :=
      match Config.HTTPClient cfg with
      | None => httpClient.mk defaultRequestTimeout
      | Some given => given
      end in
    let parallelFetches := Config.ParallelFetches cfg in
    let parallelFetches :=
      if decide (parallelFetches ≤ 0)%Z then defaultParallelFetches
      else parallelFetches in
    inr {| Client.baseURL := baseURL;
           Client.apiKey := TrimSpace (Config.APIKey cfg);
           Client.orgName := TrimSpace (Config.OrgName cfg);
           Client.serviceInstanceID :=
             TrimSpace (Config.ServiceInstanceID cfg);
           Client.httpClient := httpClient;
           Client.parallelFetches := parallelFetches |}.

Definition OrgName (c : Client) : string := Client.orgName c.

(** A request as [doJSON] builds it; the header is keyed by the names given
    to [Header.Set]. *)
Module request.
Record request : Type := mk {
  Method : string;
  URL : string;
  Header : gmap string string }.
End request.
Abbreviation request := request.request.

Module response.
Record response (B : Type) : Type := mk {
  StatusCode : Z;
  Body : B }.
Arguments mk {B} StatusCode Body.
Arguments StatusCode {B} r.
Arguments Body {B} r.
End response.
Abbreviation response := response.response.

(** What [doJSON] relies on: whether [http.NewRequestWithContext] accepts a
    method and a URL, and what [httpClient.Do] answers to a request. *)
Record HTTP (B : Type) : Type := {
  NewRequestWithContext : string → string → option error;
  Do : request → result (response B) }.
Arguments NewRequestWithContext {B} h method url.
Arguments Do {B} h req.

(** [doJSON]; [decode] is the decoding of the body into the value of [out]. *)
Definition doJSON {B A : Type} (c : Client) (http : HTTP B)
    (decode : B → result A) (method endpoint : string)
    (serviceInstanceID : string) : result A :=
  match NewRequestWithContext http method endpoint with
  | Some err => Err err
  | None =>
      let header : gmap string string := <["x-api-key" := Client.apiKey c]> ∅ in
      let header := <["accept" := defaultContentTypeHeader]> header in
      let header := <["user-agent" := defaultUserAgent]> header in
      let headerServiceInstanceID := TrimSpace serviceInstanceID in
      let headerServiceInstanceID :=
        if decide (headerServiceInstanceID = "")
        then Client.serviceInstanceID c
        else headerServiceInstanceID in
      let header :=
        if decide (headerServiceInstanceID ≠ "")
        then <["x-nv-service-instance-id" := headerServiceInstanceID]> header
        else header in
      match Do http {| request.Method := method;
                       request.URL := endpoint;
                       request.Header := header |} with
      | Err err => Err err
      | Ok resp =>
          if decide (response.StatusCode resp < 200
                     ∨ 299 < response.StatusCode resp)%Z
          then Err (UpstreamError
                      ("request " +:+ endpoint +:+ " failed with status "
                       +:+ pretty (response.StatusCode resp)))
          else decode (response.Body resp)
      end
  end.

End cls.

(** ** [fetchActiveLeaseUsage] on binary64 *)

(** The embedding of package [cls] above adds lease counts as exact
    rationals.  Where a property depends on how sums are rounded, the
    accumulation of [fetchActiveLeaseUsage] is embedded a second time, with
    Go's [float64] as the IEEE binary64 numbers it is: the leases of the
    payload carry binary64 counts, [+=] is the addition of binary64, rounded
    to nearest, and [<=] its comparison.  What handles no number (the index
    of a group, the key of a feature, the tasks) is that of [cls]. *)

Module binary64.
Import PrimFloat.

(** Whether a binary64 number is finite, and the rational a finite one
    is; an infinity or a NaN is none, and reads as 0 here. *)
Definition finite (x : float) : bool :=
  match FloatOps.Prim2SF x with
  | SpecFloat.S754_zero _ | SpecFloat.S754_finite _ _ _ => true
  | _ => false
  end.

Definition value (x : float) : Qc :=
  match FloatOps.Prim2SF x with
  | SpecFloat.S754_finite negative mantissa exponent =>
      Q2Qc (inject_Z (if negative then Z.neg mantissa else Z.pos mantissa)
            * Qpower 2 exponent)
  | _ => 0
  end.

Module activeLease.
Record activeLease : Type := mk {
  LeaseID : string;
  FeatureName : string;
  LeaseCount : float;
  LicenseAllotmentFeatureID : string }.
End activeLease.
Abbreviation activeLease := activeLease.activeLease.

Module activeLeaseClient.
Record activeLeaseClient : Type := mk {
  Leases : list activeLease;
  AdditionalProperties : cls.activeLeaseAdditionalProperties }.
End activeLeaseClient.
Abbreviation activeLeaseClient := activeLeaseClient.activeLeaseClient.

(** The one endpoint that [fetchActiveLeaseUsage] calls. *)
Record Upstream : Type := {
  listActiveLeases : Z → string → result (list activeLeaseClient) }.

Module ServerActiveLeaseSnapshot.
Record ServerActiveLeaseSnapshot : Type := mk {
  VirtualGroupID : Z;
  VirtualGroupName : string;
  ServerID : string;
  ServerName : string;
  ActiveLeases : float }.
End ServerActiveLeaseSnapshot.
Abbreviation ServerActiveLeaseSnapshot :=
  ServerActiveLeaseSnapshot.ServerActiveLeaseSnapshot.

Module ServerFeatureActiveLeaseSnapshot.
Record ServerFeatureActiveLeaseSnapshot : Type := mk {
  VirtualGroupID : Z;
  VirtualGroupName : string;
  ServerID : string;
  ServerName : string;
  FeatureName : string;
  ProductName : string;
  LicenseType : string;
  ActiveLeases : float }.
End ServerFeatureActiveLeaseSnapshot.
Abbreviation ServerFeatureActiveLeaseSnapshot :=
  ServerFeatureActiveLeaseSnapshot.ServerFeatureActiveLeaseSnapshot.

(** The variables shared by the tasks of [fetchActiveLeaseUsage] under [mu],
    and a log that is not in the source: [sums] has one entry for every
    addition made so far to a feature total or to the grand total, with its
    two operands. *)
Record leaseTotals : Type := {
  serverTotals : gmap string float;
  featureTotals : gmap cls.activeFeatureKey float;
  seenLeaseIDs : gset string;
  total : float;
  sums : list (float * float) }.

Definition noLeases : leaseTotals :=
  {| serverTotals := ∅; featureTotals := ∅; seenLeaseIDs := ∅;
     total := 0%float; sums := [] |}.

(** [m[k] += v] on a Go map of [float64]. *)
Definition addTo `{Countable K} (k : K) (v : float) (m : gmap K float)
  : gmap K float :=
  <[k := (default 0 (m !! k) + v)%float]> m.

(** The section between [mu.Lock()] and [mu.Unlock()]. *)
Definition recordLease (serverID : string) (key : cls.activeFeatureKey)
    (leaseID : string) (leaseCount : float) (t : leaseTotals) : leaseTotals :=
  if decide (leaseID ≠ "" ∧ leaseID ∈ seenLeaseIDs t) then t
  else
    {| serverTotals := addTo serverID leaseCount (serverTotals t);
       featureTotals := addTo key leaseCount (featureTotals t);
       seenLeaseIDs :=
         if decide (leaseID ≠ "") then {[leaseID]} ∪ seenLeaseIDs t
         else seenLeaseIDs t;
       total := (total t + leaseCount)%float;
       sums :=
         sums t ++ [(default 0%float (featureTotals t !! key), leaseCount);
                    (total t, leaseCount)] |}.

(** The server a client's leases are attributed to; [""] when there is none. *)
Definition resolveServerID (ix : cls.groupIndex) (client : activeLeaseClient)
  : string :=
  let serverID :=
    TrimSpace (cls.activeLeaseAdditionalProperties.LicenseServerID
                 (activeLeaseClient.AdditionalProperties client)) in
  if decide (serverID = "" ∧ size (cls.serverByID ix) = 1%nat) then
    match map_to_list (cls.serverByID ix) with
    | (onlyID, _) :: _ => onlyID
    | [] => serverID
    end
  else serverID.

Definition normalizeLeaseCount (leaseCount : float) : float :=
  if (leaseCount <=? 0)%float then 1%float else leaseCount.

Definition leaseKey (virtualGroupID : Z) (virtualGroupName : string)
    (ix : cls.groupIndex) (server : cls.licenseServer)
    (serverID serverName : string) (lease : activeLease)
  : cls.activeFeatureKey :=
  let feature :=
    default cls.licenseServerFeature.zero
      (cls.featureByAllotmentID ix
         !! activeLease.LicenseAllotmentFeatureID lease) in
  let featureName :=
    cls.firstNonEmptyNonBlank
      [activeLease.FeatureName lease;
       cls.licenseServerFeature.FeatureName feature] in
  let productName :=
    cls.firstNonEmptyNonBlank
      [cls.licenseServerFeature.ProductName feature; "unknown"] in
  let licenseType :=
    cls.firstNonEmptyNonBlank
      [cls.licenseServerFeature.LicenseType feature; "unknown"] in
  {| cls.virtualGroupID := virtualGroupID;
     cls.virtualGroupName :=
       cls.firstNonEmptyNonBlank
         [cls.licenseServer.VirtualGroupName server; virtualGroupName];
     cls.serverID := serverID;
     cls.serverName := serverName;
     cls.featureName := cls.firstNonEmptyNonBlank [featureName; "unknown"];
     cls.productName := productName;
     cls.licenseType := licenseType |}.

(** The body of the loop over [client.Leases]. *)
Definition leaseBody (virtualGroupID : Z) (virtualGroupName : string)
    (ix : cls.groupIndex) (server : cls.licenseServer)
    (serverID serverName : string) (t : leaseTotals) (lease : activeLease)
  : leaseTotals :=
  let leaseCount := normalizeLeaseCount (activeLease.LeaseCount lease) in
  let key :=
    leaseKey virtualGroupID virtualGroupName ix server serverID serverName
      lease in
  let leaseID := TrimSpace (activeLease.LeaseID lease) in
  recordLease serverID key leaseID leaseCount t.

(** The body of the loop over [clients]. *)
Definition clientBody (virtualGroupID : Z) (virtualGroupName : string)
    (ix : cls.groupIndex) (t : leaseTotals) (client : activeLeaseClient)
  : leaseTotals :=
  let serverID := resolveServerID ix client in
  if decide (serverID = "") then t
  else
    let server :=
      default cls.licenseServer.zero (cls.serverByID ix !! serverID) in
    let serverName :=
      cls.firstNonEmptyNonBlank
        [cls.activeLeaseAdditionalProperties.LicenseServerName
           (activeLeaseClient.AdditionalProperties client);
         cls.licenseServer.Name server] in
    let serverName :=
      if decide (serverName = "") then "unknown" else serverName in
    foldl
      (leaseBody virtualGroupID virtualGroupName ix server serverID serverName)
      t (activeLeaseClient.Leases client).

Definition activeLeaseTask (api : Upstream) (job : cls.activeLeaseJob)
    (t : leaseTotals) : result leaseTotals :=
  clients ← wrapErr
              (ListActiveLeasesError (cls.jobGroupID job)
                 (cls.jobServiceInstanceID job))
              (listActiveLeases api (cls.jobGroupID job)
                 (cls.jobServiceInstanceID job));
  mret (foldl
          (clientBody (cls.jobGroupID job) (cls.jobGroupName job)
             (cls.jobIndex job))
          t (clients : list _)).

Definition serverActiveLeaseRows
    (serversByVG : gmap Z (list cls.licenseServer))
    (serverTotals : gmap string float) : list ServerActiveLeaseSnapshot :=
  '(virtualGroupID, servers) ← map_to_list serversByVG;
  server ← servers;
  match serverTotals !! cls.licenseServer.ID server with
  | None => []
  | Some count =>
      [ {| ServerActiveLeaseSnapshot.VirtualGroupID := virtualGroupID;
           ServerActiveLeaseSnapshot.VirtualGroupName :=
             cls.licenseServer.VirtualGroupName server;
           ServerActiveLeaseSnapshot.ServerID := cls.licenseServer.ID server;
           ServerActiveLeaseSnapshot.ServerName :=
             cls.licenseServer.Name server;
           ServerActiveLeaseSnapshot.ActiveLeases := count |} ]
  end.

Definition featureActiveLeaseRow (entry : cls.activeFeatureKey * float)
  : ServerFeatureActiveLeaseSnapshot :=
  let '(key, count) := entry in
  {| ServerFeatureActiveLeaseSnapshot.VirtualGroupID :=
       cls.virtualGroupID key;
     ServerFeatureActiveLeaseSnapshot.VirtualGroupName :=
       cls.virtualGroupName key;
     ServerFeatureActiveLeaseSnapshot.ServerID := cls.serverID key;
     ServerFeatureActiveLeaseSnapshot.ServerName := cls.serverName key;
     ServerFeatureActiveLeaseSnapshot.FeatureName := cls.featureName key;
     ServerFeatureActiveLeaseSnapshot.ProductName := cls.productName key;
     ServerFeatureActiveLeaseSnapshot.LicenseType := cls.licenseType key;
     ServerFeatureActiveLeaseSnapshot.ActiveLeases := count |}.

(** The shared variables when [activeGroup.Wait()] returns without an
    error. *)
Definition activeLeaseRun (api : Upstream)
    (serversByVG : gmap Z (list cls.licenseServer)) : result leaseTotals :=
  errgroupRun (activeLeaseTask api) (cls.activeLeaseJobs serversByVG)
    noLeases.

Definition fetchActiveLeaseUsage (api : Upstream)
    (serversByVG : gmap Z (list cls.licenseServer))
  : result (gmap string float * list ServerActiveLeaseSnapshot
            * list ServerFeatureActiveLeaseSnapshot * float) :=
  t ← activeLeaseRun api serversByVG;
  let serverSnapshots := serverActiveLeaseRows serversByVG (serverTotals t) in
  let featureSnapshots :=
    featureActiveLeaseRow <$> map_to_list (featureTotals t) in
  mret (serverTotals t, serverSnapshots, featureSnapshots, total t).

End binary64.

(** ** Package [snapshot]: the cache in front of a fetcher *)

Module snapshot.

Definition second : Duration := 1000000000%Z.
Definition defaultCacheTTL : Duration := (60 * second)%Z.

(** [Duration.Seconds()]. *)
Definition Seconds (d : Duration) : float64 := Qc_of_Z d / Qc_of_Z second.

Record Meta : Type := {
  Up : float64;
  DurationSeconds : float64;
  Timestamp : Time;
  CacheHit : bool }.

(** [Meta{}]. *)
Definition zeroMeta : Meta :=
  {| Up := 0; DurationSeconds := 0; Timestamp := 0%Z; CacheHit := false |}.

(** The [Fetcher] interface.  A call is made at some time by a fetcher in
    some state; it gives the two results of the Go method, the state of the
    fetcher afterwards and the time the call took. *)
Class Fetcher (F : Type) : Type :=
  FetchSnapshot : F → Time → option cls.Snapshot * option error * F * Duration.

(** The fields of [Service] guarded by [mu], and the fixed [cacheTTL]. *)
Record Service : Type := {
  cacheTTL : Duration;
  snapshot : option cls.Snapshot;
  meta : Meta;
  cachedAt : Time }.

(** What surrounds the service: the clock read by [time.Now], the fetcher
    behind the [fetcher] field, and a log with one entry per call of
    [FetchSnapshot] made so far, [true] for a call that returned no error. *)
Record World (F : Type) : Type := {
  clock : Time;
  fetcher : F;
  fetchLog : list bool }.
Arguments clock {F} w.
Arguments fetcher {F} w.
Arguments fetchLog {F} w.

Definition NewService (cacheTTL : Duration) : Service :=
  {| cacheTTL := if decide (cacheTTL ≤ 0)%Z then defaultCacheTTL else cacheTTL;
     snapshot := None;
     meta := zeroMeta;
     cachedAt := 0%Z |}.

(** The three results of [Get] and of [Refresh]. *)
Abbreviation reply := (option cls.Snapshot * Meta * option error)%type.

(** [Refresh] when no other refresh is in flight, so that [sf.Do] runs its
    function.  The result is [None] when the call panics, which it does on
    [fetched.CollectedAt] if the fetcher returns neither a snapshot nor an
    error. *)
Definition Refresh `{Fetcher F} (s : Service) (w : World F)
  : option (reply * Service * World F) :=
  let start := clock w in
  let '(fetched, fetchErr, fetcher', elapsed) :=
    FetchSnapshot (fetcher w) start in
  let w' :=
    {| clock := (start + elapsed)%Z;
       fetcher := fetcher';
       fetchLog := fetchLog w ++ [bool_decide (fetchErr = None)] |} in
  let duration := Seconds (clock w' - start) in
  let now := clock w' in
  match fetchErr with
  | None =>
      match fetched with
      | None => None
      | Some fetched =>
          let meta :=
            {| Up := 1;
               DurationSeconds := duration;
               Timestamp := cls.CollectedAt fetched;
               CacheHit := false |} in
          Some ((Some fetched, meta, None),
                {| cacheTTL := cacheTTL s;
                   snapshot := Some fetched;
                   meta := meta;
                   cachedAt := now |},
                w')
      end
  | Some fetchErr =>
      match snapshot s with
      | Some stale =>
          let staleMeta :=
            {| Up := 0;
               DurationSeconds := duration;
               Timestamp := cls.CollectedAt stale;
               CacheHit := false |} in
          Some ((Some stale, staleMeta, None),
                {| cacheTTL := cacheTTL s;
                   snapshot := snapshot s;
                   meta := staleMeta;
                   cachedAt := cachedAt s |},
                w')
      | None =>
          Some ((None, zeroMeta, Some fetchErr),
                {| cacheTTL := cacheTTL s;
                   snapshot := snapshot s;
                   meta :=
                     {| Up := 0;
                        DurationSeconds := duration;
                        Timestamp := now;
                        CacheHit := false |};
                   cachedAt := cachedAt s |},
                w')
      end
  end.

Definition Get `{Fetcher F} (s : Service) (w : World F)
  : option (reply * Service * World F) :=
  match snapshot s with
  | Some cached =>
      if decide (clock w - cachedAt s < cacheTTL s)%Z then
        Some ((Some cached,
               {| Up := Up (meta s);
                  DurationSeconds := 0;
                  Timestamp := Timestamp (meta s);
                  CacheHit := true |},
               None),
              s, w)
      else Refresh s w
  | None => Refresh s w
  end.

Definition Latest (s : Service) : option cls.Snapshot * Meta * bool :=
  match snapshot s with
  | None => (None, zeroMeta, false)
  | Some current => (Some current, meta s, true)
  end.

Definition MetaOf (s : Service) : Meta := meta s.

(** A consumer's calls, each after some time has passed on the clock. *)
Inductive request : Type :=
  | GetRequest
  | RefreshRequest.

Definition serve1 `{Fetcher F} (r : request) (s : Service) (w : World F)
  : option (reply * Service * World F) :=
  match r with
  | GetRequest => Get s w
  | RefreshRequest => Refresh s w
  end.

Definition elapse {F : Type} (d : Duration) (w : World F) : World F :=
  {| clock := (clock w + d)%Z; fetcher := fetcher w; fetchLog := fetchLog w |}.

Fixpoint serve `{Fetcher F} (calls : list (Duration * request)) (s : Service)
    (w : World F) : option (Service * World F) :=
  match calls with
  | [] => Some (s, w)
  | (d, r) :: rest =>
      match serve1 r s (elapse d w) with
      | Some (_, s', w') => serve rest s' w'
      | None => None
      end
  end.

(** The cache holds a snapshot exactly when some fetch so far succeeded. *)
Definition cache_tracks_log {F : Type} (s : Service) (w : World F) : Prop :=
  is_Some (snapshot s) ↔ true ∈ fetchLog w.

(** The fetcher of the package's tests: the [n]-th call gives the [n]-th
    scripted result after blocking for its [blockFor]; calls beyond the script
    give the zero [fetchResult]. *)
Record fetchResult : Type := {
  snapshotResult : option cls.Snapshot;
  err : option error;
  blockFor : Duration }.

Record fakeFetcher : Type := {
  calls : nat;
  results : list fetchResult }.

#[global] Instance fakeFetcher_Fetcher : Fetcher fakeFetcher := λ f _,
  let callIdx := calls f in
  let r :=
    default {| snapshotResult := None; err := None; blockFor := 0%Z |}
      (results f !! callIdx) in
  (snapshotResult r, err r,
   {| calls := S (calls f); results := results f |},
   if decide (0 < blockFor r)%Z then blockFor r else 0%Z).

(** The client of package [cls] as a fetcher: the licensing API it talks to
    and the time a fetch takes. *)
Record Client : Type := {
  upstream : cls.Upstream;
  latency : Duration }.

#[global] Instance Client_Fetcher : Fetcher Client := λ c now,
  match cls.FetchSnapshot (upstream c) now with
  | Ok fetched => (Some fetched, None, c, latency c)
  | Err e => (None, Some e, c, latency c)
  end.

End snapshot.

(** ** Package [exporter]: the collector of the pull protocol *)

Module exporter.

(** [time.Time.Unix]: seconds since 1970, which begins 62135596800 seconds
    after the zero [time.Time]. *)
Definition Unix (t : Time) : Z := (t / snapshot.second - 62135596800)%Z.

Definition safeLabel (value : string) : string :=
  let value := TrimSpace value in
  if decide (value = "") then "unknown" else value.

(** [strconv.Itoa]. *)
Definition Itoa (n : Z) : string := pretty n.

(** A [prometheus.Desc], and a constant gauge as [MustNewConstMetric] makes
    it; making one panics, here [None], when the number of label values is
    not the number of variable labels of the description. *)
Module Desc.
Record Desc : Type := mk {
  fqName : string;
  help : string;
  variableLabels : list string;
  constLabels : list (string * string) }.
End Desc.
Abbreviation Desc := Desc.Desc.

Module Metric.
Record Metric : Type := mk {
  desc : Desc;
  value : float64;
  labelValues : list string }.
End Metric.
Abbreviation Metric := Metric.Metric.

Definition MustNewConstMetric (desc : Desc) (value : float64)
    (labelValues : list string) : option Metric :=
  if decide (length labelValues = length (Desc.variableLabels desc))
  then Some (Metric.mk desc value labelValues)
  else None.

(** The fields of [Collector] other than the service, which is passed to
    [Collect] with its world. *)
Record Collector : Type := {
  scrapeTimeout : Duration;
  upDesc : Desc;
  scrapeDurationDesc : Desc;
  scrapeTimestampDesc : Desc;
  entitlementTotalDesc : Desc;
  serverInfoDesc : Desc;
  serverFeatureCapacity : Desc;
  serverFeatureActiveDesc : Desc;
  descs : list Desc }.

Definition NewCollector (orgName : string) (scrapeTimeout : Duration)
  : Collector :=
  let constLabel := [("org_name", orgName)] in
  let upDesc :=
    Desc.mk "nvidia_cls_up"
      "Whether the NVIDIA CLS scrape is successful (1 = up, 0 = down)."
      [] constLabel in
  let scrapeDurationDesc :=
    Desc.mk "nvidia_cls_scrape_duration_seconds"
      "Time spent querying NVIDIA CLS APIs." [] constLabel in
  let scrapeTimestampDesc :=
    Desc.mk "nvidia_cls_scrape_timestamp_seconds"
      "Unix timestamp for when the scrape snapshot was collected."
      [] constLabel in
  let entitlementTotalDesc :=
    Desc.mk "nvidia_cls_entitlement_total_quantity"
      "Total entitlement quantity by virtual group and feature (contract capacity)."
      ["virtual_group_id"; "virtual_group_name"; "feature_name";
       "feature_version"; "product_name"; "license_type"]
      constLabel in
  let serverInfoDesc :=
    Desc.mk "nvidia_cls_license_server_info"
      "Static information about a license server."
      ["virtual_group_id"; "virtual_group_name"; "server_id"; "server_name";
       "status"; "deployed_on"; "leasing_mode"]
      constLabel in
  let serverFeatureCapacity :=
    Desc.mk "nvidia_cls_license_server_feature_total_quantity"
      "Total server feature capacity from license-server features."
      ["virtual_group_id"; "virtual_group_name"; "server_id"; "server_name";
       "feature_name"; "product_name"; "license_type"]
      constLabel in
  let serverFeatureActiveDesc :=
    Desc.mk "nvidia_cls_license_server_feature_active_leases"
      "Active lease count by server feature from CLS active-lease data."
      ["virtual_group_id"; "virtual_group_name"; "server_id"; "server_name";
       "feature_name"; "product_name"; "license_type"]
      constLabel in
  {| scrapeTimeout := scrapeTimeout;
     upDesc := upDesc;
     scrapeDurationDesc := scrapeDurationDesc;
     scrapeTimestampDesc := scrapeTimestampDesc;
     entitlementTotalDesc := entitlementTotalDesc;
     serverInfoDesc := serverInfoDesc;
     serverFeatureCapacity := serverFeatureCapacity;
     serverFeatureActiveDesc := serverFeatureActiveDesc;
     descs :=
       [upDesc; scrapeDurationDesc; scrapeTimestampDesc; entitlementTotalDesc;
        serverInfoDesc; serverFeatureCapacity; serverFeatureActiveDesc] |}.

(** What [Describe] sends on its channel. *)
Definition Describe (c : Collector) : list Desc := descs c.

(** The four loops of [Collect] over the rows of the snapshot. *)
Definition entitlementMetric (c : Collector)
    (item : cls.EntitlementFeatureSnapshot) : option Metric :=
  MustNewConstMetric (entitlementTotalDesc c)
    (cls.EntitlementFeatureSnapshot.TotalQuantity item)
    [Itoa (cls.EntitlementFeatureSnapshot.VirtualGroupID item);
     safeLabel (cls.EntitlementFeatureSnapshot.VirtualGroupName item);
     safeLabel (cls.EntitlementFeatureSnapshot.FeatureName item);
     safeLabel (cls.EntitlementFeatureSnapshot.FeatureVersion item);
     safeLabel (cls.EntitlementFeatureSnapshot.ProductName item);
     safeLabel (cls.EntitlementFeatureSnapshot.LicenseType item)].

Definition capacityMetric (c : Collector)
    (item : cls.ServerFeatureCapacitySnapshot) : option Metric :=
  MustNewConstMetric (serverFeatureCapacity c)
    (cls.ServerFeatureCapacitySnapshot.TotalQuantity item)
    [Itoa (cls.ServerFeatureCapacitySnapshot.VirtualGroupID item);
     safeLabel (cls.ServerFeatureCapacitySnapshot.VirtualGroupName item);
     safeLabel (cls.ServerFeatureCapacitySnapshot.ServerID item);
     safeLabel (cls.ServerFeatureCapacitySnapshot.ServerName item);
     safeLabel (cls.ServerFeatureCapacitySnapshot.FeatureName item);
     safeLabel (cls.ServerFeatureCapacitySnapshot.ProductName item);
     safeLabel (cls.ServerFeatureCapacitySnapshot.LicenseType item)].

Definition activeMetric (c : Collector)
    (item : cls.ServerFeatureActiveLeaseSnapshot) : option Metric :=
  MustNewConstMetric (serverFeatureActiveDesc c)
    (cls.ServerFeatureActiveLeaseSnapshot.ActiveLeases item)
    [Itoa (cls.ServerFeatureActiveLeaseSnapshot.VirtualGroupID item);
     safeLabel (cls.ServerFeatureActiveLeaseSnapshot.VirtualGroupName item);
     safeLabel (cls.ServerFeatureActiveLeaseSnapshot.ServerID item);
     safeLabel (cls.ServerFeatureActiveLeaseSnapshot.ServerName item);
     safeLabel (cls.ServerFeatureActiveLeaseSnapshot.FeatureName item);
     safeLabel (cls.ServerFeatureActiveLeaseSnapshot.ProductName item);
     safeLabel (cls.ServerFeatureActiveLeaseSnapshot.LicenseType item)].

Definition infoMetric (c : Collector) (item : cls.ServerUsageSnapshot)
  : option Metric :=
  MustNewConstMetric (serverInfoDesc c) 1
    [Itoa (cls.ServerUsageSnapshot.VirtualGroupID item);
     safeLabel (cls.ServerUsageSnapshot.VirtualGroupName item);
     safeLabel (cls.ServerUsageSnapshot.ServerID item);
     safeLabel (cls.ServerUsageSnapshot.ServerName item);
     safeLabel (cls.ServerUsageSnapshot.ServerStatus item);
     safeLabel (cls.ServerUsageSnapshot.DeployedOn item);
     safeLabel (cls.ServerUsageSnapshot.LeasingMode item)].

(** [Collect]: the metrics sent on the channel, in order, and the service
    and its world afterwards.  The result is [None] when the call panics: in
    [Get], in [MustNewConstMetric], or on a nil snapshot.  The lines written
    to the log are left out. *)
Definition Collect `{snapshot.Fetcher F} (c : Collector)
    (s : snapshot.Service) (w : snapshot.World F)
  : option (list Metric * snapshot.Service * snapshot.World F) :=
  '(r, s', w') ← snapshot.Get s w;
  let '(snap, meta, err) := r in
  match err with
  | Some _ =>
      let lastMeta := snapshot.MetaOf s' in
      up ← MustNewConstMetric (upDesc c) 0 [];
      duration ← MustNewConstMetric (scrapeDurationDesc c)
                   (snapshot.DurationSeconds lastMeta) [];
      if decide (snapshot.Timestamp lastMeta ≠ 0%Z) then
        timestamp ← MustNewConstMetric (scrapeTimestampDesc c)
                      (Qc_of_Z (Unix (snapshot.Timestamp lastMeta))) [];
        Some ([up; duration; timestamp], s', w')
      else Some ([up; duration], s', w')
  | None =>
      up ← MustNewConstMetric (upDesc c) (snapshot.Up meta) [];
      duration ← MustNewConstMetric (scrapeDurationDesc c)
                   (snapshot.DurationSeconds meta) [];
      timestamp ← MustNewConstMetric (scrapeTimestampDesc c)
                    (Qc_of_Z (Unix (snapshot.Timestamp meta))) [];
      snap ← snap;
      entitlements ← mapM (entitlementMetric c) (cls.EntitlementFeatures snap);
      capacities ← mapM (capacityMetric c) (cls.ServerFeatureCapacity snap);
      actives ← mapM (activeMetric c) (cls.ServerFeatureActiveLeases snap);
      infos ← mapM (infoMetric c) (cls.ServerUsage snap);
      Some ([up; duration; timestamp] ++ entitlements ++ capacities
              ++ actives ++ infos, s', w')
  end.

End exporter.

(** ** Package [otel]: the observations of the push protocol *)

Module otel.

Definition defaultPushInterval : Duration := (60 * snapshot.second)%Z.
Definition defaultRefreshTimeout : Duration := (20 * snapshot.second)%Z.

Definition metricUp : string := "nvidia_cls_up".
Definition metricScrapeDuration : string :=
  "nvidia_cls_scrape_duration_seconds".
Definition metricScrapeTimestamp : string :=
  "nvidia_cls_scrape_timestamp_seconds".
Definition metricEntitlementTotal : string :=
  "nvidia_cls_entitlement_total_quantity".
Definition metricServerInfo : string := "nvidia_cls_license_server_info".
Definition metricServerFeatureTotal : string :=
  "nvidia_cls_license_server_feature_total_quantity".
Definition metricServerFeatureActive : string :=
  "nvidia_cls_license_server_feature_active_leases".

Module Config.
Record Config : Type := mk {
  Enabled : bool;
  Endpoint : string;
  ServiceName : string;
  ServiceInstanceID : string;
  Insecure : bool;
  PushInterval : Duration;
  RefreshTimeout : Duration }.
End Config.
Abbreviation Config := Config.Config.

Definition normalizeConfig (cfg : Config) : Config :=
  let cfg :=
    if decide (Config.PushInterval cfg ≤ 0)%Z
    then Config.mk (Config.Enabled cfg) (Config.Endpoint cfg)
           (Config.ServiceName cfg) (Config.ServiceInstanceID cfg)
           (Config.Insecure cfg) defaultPushInterval
           (Config.RefreshTimeout cfg)
    else cfg in
  if decide (Config.RefreshTimeout cfg ≤ 0)%Z
  then Config.mk (Config.Enabled cfg) (Config.Endpoint cfg)
         (Config.ServiceName cfg) (Config.ServiceInstanceID cfg)
         (Config.Insecure cfg) (Config.PushInterval cfg)
         defaultRefreshTimeout
  else cfg.

(** An [attribute.KeyValue] made by [attribute.String] is a key and a
    string. *)
Record observation : Type := {
  name : string;
  value : float64;
  attrs : list (string * string) }.

Definition safeLabel (v : string) : string :=
  let v := TrimSpace v in
  if decide (v = "") then "unknown" else v.

(** The observations that the four loops of [buildObservations] append for
    a row of the snapshot. *)
Definition entitlementObservation (orgName : string)
    (item : cls.EntitlementFeatureSnapshot) : observation :=
  {| name := metricEntitlementTotal;
     value := cls.EntitlementFeatureSnapshot.TotalQuantity item;
     attrs :=
       [("org_name", orgName);
        ("virtual_group_id",
         exporter.Itoa (cls.EntitlementFeatureSnapshot.VirtualGroupID item));
        ("virtual_group_name",
         safeLabel (cls.EntitlementFeatureSnapshot.VirtualGroupName item));
        ("feature_name",
         safeLabel (cls.EntitlementFeatureSnapshot.FeatureName item));
        ("feature_version",
         safeLabel (cls.EntitlementFeatureSnapshot.FeatureVersion item));
        ("product_name",
         safeLabel (cls.EntitlementFeatureSnapshot.ProductName item));
        ("license_type",
         safeLabel (cls.EntitlementFeatureSnapshot.LicenseType item))] |}.

Definition capacityObservation (orgName : string)
    (item : cls.ServerFeatureCapacitySnapshot) : observation :=
  {| name := metricServerFeatureTotal;
     value := cls.ServerFeatureCapacitySnapshot.TotalQuantity item;
     attrs :=
       [("org_name", orgName);
        ("virtual_group_id",
         exporter.Itoa (cls.ServerFeatureCapacitySnapshot.VirtualGroupID item));
        ("virtual_group_name",
         safeLabel (cls.ServerFeatureCapacitySnapshot.VirtualGroupName item));
        ("server_id",
         safeLabel (cls.ServerFeatureCapacitySnapshot.ServerID item));
        ("server_name",
         safeLabel (cls.ServerFeatureCapacitySnapshot.ServerName item));
        ("feature_name",
         safeLabel (cls.ServerFeatureCapacitySnapshot.FeatureName item));
        ("product_name",
         safeLabel (cls.ServerFeatureCapacitySnapshot.ProductName item));
        ("license_type",
         safeLabel (cls.ServerFeatureCapacitySnapshot.LicenseType item))] |}.

Definition activeObservation (orgName : string)
    (item : cls.ServerFeatureActiveLeaseSnapshot) : observation :=
  {| name := metricServerFeatureActive;
     value := cls.ServerFeatureActiveLeaseSnapshot.ActiveLeases item;
     attrs :=
       [("org_name", orgName);
        ("virtual_group_id",
         exporter.Itoa
           (cls.ServerFeatureActiveLeaseSnapshot.VirtualGroupID item));
        ("virtual_group_name",
         safeLabel
           (cls.ServerFeatureActiveLeaseSnapshot.VirtualGroupName item));
        ("server_id",
         safeLabel (cls.ServerFeatureActiveLeaseSnapshot.ServerID item));
        ("server_name",
         safeLabel (cls.ServerFeatureActiveLeaseSnapshot.ServerName item));
        ("feature_name",
         safeLabel (cls.ServerFeatureActiveLeaseSnapshot.FeatureName item));
        ("product_name",
         safeLabel (cls.ServerFeatureActiveLeaseSnapshot.ProductName item));
        ("license_type",
         safeLabel (cls.ServerFeatureActiveLeaseSnapshot.LicenseType item))]
  |}.

Definition infoObservation (orgName : string)
    (item : cls.ServerUsageSnapshot) : observation :=
  {| name := metricServerInfo;
     value := 1;
     attrs :=
       [("org_name", orgName);
        ("virtual_group_id",
         exporter.Itoa (cls.ServerUsageSnapshot.VirtualGroupID item));
        ("virtual_group_name",
         safeLabel (cls.ServerUsageSnapshot.VirtualGroupName item));
        ("server_id", safeLabel (cls.ServerUsageSnapshot.ServerID item));
        ("server_name", safeLabel (cls.ServerUsageSnapshot.ServerName item));
        ("status", safeLabel (cls.ServerUsageSnapshot.ServerStatus item));
        ("deployed_on", safeLabel (cls.ServerUsageSnapshot.DeployedOn item));
        ("leasing_mode",
         safeLabel (cls.ServerUsageSnapshot.LeasingMode item))] |}.

Definition buildObservations (orgName : string) (snap : cls.Snapshot)
    (meta : snapshot.Meta) : list observation :=
  let orgAttr := ("org_name", orgName) in
  [ {| name := metricUp; value := snapshot.Up meta; attrs := [orgAttr] |};
    {| name := metricScrapeDuration;
       value := snapshot.DurationSeconds meta; attrs := [orgAttr] |};
    {| name := metricScrapeTimestamp;
       value := Qc_of_Z (exporter.Unix (snapshot.Timestamp meta));
       attrs := [orgAttr] |} ]
  ++ (entitlementObservation orgName <$> cls.EntitlementFeatures snap)
  ++ (capacityObservation orgName <$> cls.ServerFeatureCapacity snap)
  ++ (activeObservation orgName <$> cls.ServerFeatureActiveLeases snap)
  ++ (infoObservation orgName <$> cls.ServerUsage snap).

(** The callback registered by [registerMetrics], with an instrument taken
    for the name it was created under: the observations made, in order, and
    the names logged as unknown; [None] when it panics, on a nil snapshot. *)
Definition observeCallback (orgName : string) (s : snapshot.Service)
  : option (list observation * list string) :=
  match snapshot.Latest s with
  | (_, _, false) => Some ([], [])
  | (None, _, true) => None
  | (Some snap, meta, true) =>
    Some
     (foldl
        (λ acc item,
           if decide (name item ∈
                        [metricUp; metricScrapeDuration; metricScrapeTimestamp;
                         metricEntitlementTotal; metricServerInfo;
                         metricServerFeatureTotal; metricServerFeatureActive])
           then (acc.1 ++ [item], acc.2)
           else (acc.1, acc.2 ++ [name item]))
        ([], []) (buildObservations orgName snap meta))
  end.

(** [refreshOnce]: a refresh whose results are dropped; [None] when it
    panics. *)
Definition refreshOnce `{snapshot.Fetcher F} (s : snapshot.Service)
    (w : snapshot.World F) : option (snapshot.Service * snapshot.World F) :=
  '(_, s', w') ← snapshot.Refresh s w; Some (s', w').

End otel.

(** ** The command: its environment and its start *)

Module main.

(** [os.Getenv] on the environment of the process: a variable that is not set
    reads as the empty string. *)
Definition Getenv (env : gmap string string) (key : string) : string :=
  default "" (env !! key).

Definition getenv (env : gmap string string) (key fallback : string)
  : string :=
  let value := TrimSpace (Getenv env key) in
  if decide (value = "") then fallback else value.

Fixpoint firstNonEmpty (values : list string) : string :=
  match values with
  | [] => ""
  | value :: rest =>
      if decide (TrimSpace value ≠ "") then value else firstNonEmpty rest
  end.

(** [strings.HasPrefix]. *)
Definition HasPrefix (s prefix : string) : bool := String.prefix prefix s.

Definition defaultListenAddress (env : gmap string string) : string :=
  let v := TrimSpace (Getenv env "LISTEN_ADDRESS") in
  if decide (v ≠ "") then v
  else
    let port := TrimSpace (Getenv env "PORT") in
    if decide (port ≠ "") then
      if HasPrefix port ":" then port else ":" +:+ port
    else ":9844".

(** The values of the flags that [main] reads to build the client, the
    service and the collector. *)
Module flags.
Record flags : Type := mk {
  baseURL : string;
  orgName : string;
  apiKey : string;
  serviceID : string;
  scrapeTimeout : Duration;
  cacheTTL : Duration;
  parallelism : Z }.
End flags.
Abbreviation flags := flags.flags.

(** The defaults of the flags for the organisation and for the API key. *)
Definition defaultOrgName (env : gmap string string) : string :=
  firstNonEmpty [getenv env "NVIDIA_ORG_NAME" ""; getenv env "NLS_ORG_NAME" ""].

Definition defaultAPIKey (env : gmap string string) : string :=
  firstNonEmpty [getenv env "NVIDIA_API_KEY" ""; getenv env "NLS_API_KEY" ""].

(** The start of [main], from [flag.Parse] to the collector: it ends the
    process with the message of a [log.Fatal], or it has a client, a service
    and a collector. *)
Inductive startup : Type :=
  | Fatal (message : string)
  | Started (client : cls.Client) (snapshotSvc : snapshot.Service)
      (collector : exporter.Collector).

Definition start (f : flags) : startup :=
  if decide (TrimSpace (flags.orgName f) = "") then
    Fatal
      "missing required org name: set NVIDIA_ORG_NAME or pass -nvidia-org-name"
  else if decide (TrimSpace (flags.apiKey f) = "") then
    Fatal
      "missing required API key: set NVIDIA_API_KEY or pass -nvidia-api-key"
  else
    match cls.NewClient
            {| cls.Config.BaseURL := flags.baseURL f;
               cls.Config.APIKey := flags.apiKey f;
               cls.Config.OrgName := flags.orgName f;
               cls.Config.ServiceInstanceID := flags.serviceID f;
               cls.Config.HTTPClient := None;
               cls.Config.ParallelFetches := flags.parallelism f |} with
    | inl err => Fatal ("failed to create CLS client: " +:+ err)
    | inr client =>
        Started client (snapshot.NewService (flags.cacheTTL f))
          (exporter.NewCollector (flags.orgName f) (flags.scrapeTimeout f))
    end.

End main.

(** ** Scenarios *)

Module scenario.
Import snapshot.

Definition boom : error := UpstreamError "boom".

Definition emptySnapshot (collectedAt : Time) : cls.Snapshot :=
  {| cls.CollectedAt := collectedAt;
     cls.EntitlementFeatures := [];
     cls.ServerFeatureCapacity := [];
     cls.ServerUsage := [];
     cls.ServerActiveLeases := [];
     cls.ServerFeatureActiveLeases := [];
     cls.ActiveLeaseTotal := 0;
     cls.PoolUsage := [] |}.

Definition minute : Duration := (60 * second)%Z.

(** A first fetch that fails after 50ms, as in
    [TestServiceRefreshErrorWithoutCache]. *)
Definition failingWorld : World fakeFetcher :=
  {| clock := 1000%Z;
     fetcher :=
       {| calls := 0;
          results :=
            [ {| snapshotResult := None; err := Some boom;
                 blockFor := 50000000%Z |} ] |};
     fetchLog := [] |}.

(** A fetch that succeeds and then one that fails, as in
    [TestServiceRefreshStaleFallback]. *)
Definition flakyWorld : World fakeFetcher :=
  {| clock := 1000%Z;
     fetcher :=
       {| calls := 0;
          results :=
            [ {| snapshotResult := Some (emptySnapshot 1000); err := None;
                 blockFor := 0%Z |};
              {| snapshotResult := None; err := Some boom;
                 blockFor := 50000000%Z |} ] |};
     fetchLog := [] |}.

(** The service and its world after the first, successful, fetch of
    [flakyWorld]: the snapshot collected at 1000 is cached. *)
Definition cachedService : Service :=
  {| cacheTTL := minute;
     snapshot := Some (emptySnapshot 1000);
     meta :=
       {| Up := 1; DurationSeconds := 0; Timestamp := 1000%Z;
          CacheHit := false |};
     cachedAt := 1000%Z |}.

Definition cachedWorld : World fakeFetcher :=
  {| clock := 1000%Z;
     fetcher := {| calls := 1; results := results (fetcher flakyWorld) |};
     fetchLog := [true] |}.

(** Group G (id 1) with the server "srv-1", which declares 100 units of one
    feature and belongs to the service instance "si-1". *)
Definition units (n : Z) : float64 := Qc_of_Z n.

Definition feature1 : cls.licenseServerFeature :=
  cls.licenseServerFeature.mk "f1" "vGPU" "vPC" "CONCURRENT" (units 100).

Definition server1 : cls.licenseServer :=
  cls.licenseServer.mk "srv-1" "S" "ENABLED" 0 "" "CLOUD" "STANDARD" "si-1"
    [feature1].

Definition server2 : cls.licenseServer :=
  cls.licenseServer.mk "srv-2" "T" "ENABLED" 0 "" "CLOUD" "STANDARD" "si-2"
    [].

Definition groupG : cls.virtualGroup := cls.virtualGroup.mk 1 "G" [].

Definition leaseL1 (count : Z) : cls.activeLease :=
  cls.activeLease.mk "L1" "" (units count) "f1".

Definition clientOf (serverID : string) (leases : list cls.activeLease)
  : cls.activeLeaseClient :=
  cls.activeLeaseClient.mk leases
    (cls.activeLeaseAdditionalProperties.mk serverID "").

Definition poolOf (allotment inUse : Z) : cls.licensePool :=
  cls.licensePool.mk "p1" "P"
    [cls.licensePoolFeature.mk "f1" (units allotment) (units inUse)].

Definition notFound : error := UpstreamError "404".

(** One lease "L1" of count 3 on the only server, whose pool has an
    allotment of 100 of which 10 are in use. *)
Definition oneServerAPI : cls.Upstream :=
  {| cls.listVirtualGroups := Ok [groupG];
     cls.listLicenseServers := λ virtualGroupID,
       if decide (virtualGroupID = 1%Z) then Ok [server1] else Err notFound;
     cls.listLicensePools := λ _ _, Ok [poolOf 100 10];
     cls.listActiveLeases := λ _ _, Ok [clientOf "" [leaseL1 3]] |}.

(** No lease, and a pool with an allotment of 50 of which 80 are in use. *)
Definition overdrawnAPI : cls.Upstream :=
  {| cls.listVirtualGroups := Ok [groupG];
     cls.listLicenseServers := λ _, Ok [server1];
     cls.listLicensePools := λ _ _, Ok [poolOf 50 80];
     cls.listActiveLeases := λ _ _, Ok [] |}.

(** Two servers on two service instances; both instances report the lease
    "L1" of "srv-1", and the second also reports for "srv-2" two leases
    without an id and a lease "L2" of count 0. *)
Definition twoInstanceAPI : cls.Upstream :=
  {| cls.listVirtualGroups := Ok [groupG];
     cls.listLicenseServers := λ _, Ok [server1; server2];
     cls.listLicensePools := λ _ _, Ok [];
     cls.listActiveLeases := λ _ serviceInstanceID,
       if decide (serviceInstanceID = "si-1")
       then Ok [clientOf "srv-1" [leaseL1 3]]
       else Ok [clientOf "srv-1" [leaseL1 3];
                clientOf "srv-2"
                  [cls.activeLease.mk "" "" (units 2) "";
                   cls.activeLease.mk " " "" (units 2) "";
                   cls.activeLease.mk "L2" "" (units 0) ""]] |}.

Definition twoInstanceServers : gmap Z (list cls.licenseServer) :=
  {[ 1%Z := cls.backfillGroup groupG <$> [server1; server2] ]}.

(** A lease of count 2 that names a server the group does not have. *)
Definition strayLeaseAPI : cls.Upstream :=
  {| cls.listVirtualGroups := Ok [groupG];
     cls.listLicenseServers := λ _, Ok [server1];
     cls.listLicensePools := λ _ _, Ok [poolOf 100 10];
     cls.listActiveLeases := λ _ _, Ok [clientOf "srv-x" [leaseL1 2]] |}.

(** As [oneServerAPI], but the pools of the server cannot be listed. *)
Definition poolsDownAPI : cls.Upstream :=
  {| cls.listVirtualGroups := Ok [groupG];
     cls.listLicenseServers := λ _, Ok [server1];
     cls.listLicensePools := λ _ _, Err (UpstreamError "503");
     cls.listActiveLeases := λ _ _, Ok [clientOf "" [leaseL1 3]] |}.

(** A client, and a transport that accepts every request and answers it with
    the status 200 and an empty object, which is decoded as it is. *)
Definition exampleClient : cls.Client :=
  cls.Client.mk "https://api.licensing.nvidia.com" "key" "lic-1" "si-0"
    (cls.httpClient.mk 15000000000%Z) 8%Z.

Definition okHTTP : cls.HTTP string :=
  {| cls.NewRequestWithContext := λ _ _, None;
     cls.Do := λ _, Ok (cls.response.mk 200%Z "{}") |}.

(** *** Leases with binary64 counts *)

Import PrimFloat.

(** The group G with its one server "srv-1", as the second phase leaves
    it. *)
Definition oneServer : gmap Z (list cls.licenseServer) :=
  {[ 1%Z := [cls.backfillGroup groupG server1] ]}.

Definition clientOf64 (serverID : string)
    (leases : list binary64.activeLease) : binary64.activeLeaseClient :=
  binary64.activeLeaseClient.mk leases
    (cls.activeLeaseAdditionalProperties.mk serverID "").

(** Three leases of "srv-1": one of count 0.1 on the feature the server
    declares, and two of counts 0.2 and 0.3 on a feature "vWS"; the counts
    are the binary64 numbers nearest to these, as a decoder gives them.  The
    server names one service instance, so one task visits the three leases
    in this order. *)
Definition tenthsAPI : binary64.Upstream :=
  {| binary64.listActiveLeases := λ _ _,
       Ok [clientOf64 "srv-1"
             [binary64.activeLease.mk "L1" "" (1 / 10) "f1";
              binary64.activeLease.mk "L2" "vWS" (2 / 10) "";
              binary64.activeLease.mk "L3" "vWS" (3 / 10) ""]] |}.

(** Leases of "srv-1" with whole counts: 3 on the feature the server
    declares, reported twice, and 2 and 0 on a feature "vWS". *)
Definition wholeAPI : binary64.Upstream :=
  {| binary64.listActiveLeases := λ _ _,
       Ok [clientOf64 "srv-1"
             [binary64.activeLease.mk "L1" "" 3 "f1";
              binary64.activeLease.mk "L2" "vWS" 2 "";
              binary64.activeLease.mk "L1" "" 3 "f1";
              binary64.activeLease.mk "L3" "vWS" 0 ""]] |}.

(** A lease of count 2 that names a server the group does not have. *)
Definition strayLease64API : binary64.Upstream :=
  {| binary64.listActiveLeases := λ _ _,
       Ok [clientOf64 "srv-x"
             [binary64.activeLease.mk "L1" "" 2 "f1"]] |}.

End scenario.

(** ** The leases one fetch goes through *)

Import cls.

Definition sumQc (l : list float64) : float64 := foldr Qcplus 0 l.

(** The sum of the values of a map of totals. *)
Definition mapSum `{Countable K} (m : gmap K float64) : float64 :=
  sumQc ((map_to_list m).*2).

(** One execution of the body of the loop over [client.Leases]: the lease,
    and the variables of the enclosing loops the body reads. *)
Record leaseVisit : Type := {
  visitGroupID : Z;
  visitGroupName : string;
  visitIndex : groupIndex;
  visitServer : licenseServer;
  visitServerID : string;
  visitServerName : string;
  visitLease : activeLease }.

Definition visit (t : leaseTotals) (v : leaseVisit) : leaseTotals :=
  leaseBody (visitGroupID v) (visitGroupName v) (visitIndex v) (visitServer v)
    (visitServerID v) (visitServerName v) t (visitLease v).

(** What a visit is recorded under: the trimmed lease id, the feature key,
    and the amount. *)
Definition visitID (v : leaseVisit) : string :=
  TrimSpace (activeLease.LeaseID (visitLease v)).

Definition visitKey (v : leaseVisit) : activeFeatureKey :=
  leaseKey (visitGroupID v) (visitGroupName v) (visitIndex v) (visitServer v)
    (visitServerID v) (visitServerName v) (visitLease v).

Definition visitAmount (v : leaseVisit) : float64 :=
  if decide (activeLease.LeaseCount (visitLease v) ≤ 0) then 1
  else activeLease.LeaseCount (visitLease v).

(** The visits of one client, of one task, and of all tasks, in the order in
    which [errgroupRun] executes them. *)
Definition clientVisits (job : activeLeaseJob) (client : activeLeaseClient)
  : list leaseVisit :=
  let serverID := resolveServerID (jobIndex job) client in
  if decide (serverID = "") then []
  else
    let server :=
      default licenseServer.zero (serverByID (jobIndex job) !! serverID) in
    let serverName :=
      firstNonEmptyNonBlank
        [activeLeaseAdditionalProperties.LicenseServerName
           (activeLeaseClient.AdditionalProperties client);
         licenseServer.Name server] in
    let serverName :=
      if decide (serverName = "") then "unknown" else serverName in
    (λ lease,
       {| visitGroupID := jobGroupID job;
          visitGroupName := jobGroupName job;
          visitIndex := jobIndex job;
          visitServer := server;
          visitServerID := serverID;
          visitServerName := serverName;
          visitLease := lease |}) <$> activeLeaseClient.Leases client.

Definition jobVisits (api : Upstream) (job : activeLeaseJob)
  : list leaseVisit :=
  match listActiveLeases api (jobGroupID job) (jobServiceInstanceID job) with
  | Ok clients => clients ≫= clientVisits job
  | Err _ => []
  end.

Definition fetchedVisits (api : Upstream)
    (serversByVG : gmap Z (list licenseServer)) : list leaseVisit :=
  activeLeaseJobs serversByVG ≫= jobVisits api.

(** The visits that are counted, by the rule of the claim: a visit with an
    empty lease id always, one with a lease id when no earlier visit (and no
    id of [seen]) has the same id. *)
Fixpoint countedVisits (seen : gset string) (visits : list leaseVisit)
  : list leaseVisit :=
  match visits with
  | [] => []
  | v :: rest =>
      if decide (visitID v = "") then v :: countedVisits seen rest
      else if decide (visitID v ∈ seen) then countedVisits seen rest
      else v :: countedVisits ({[visitID v]} ∪ seen) rest
  end.

(** The visits recorded under a lease id, a server, a feature key. *)
Definition withID (id : string) (visits : list leaseVisit) : list leaseVisit :=
  filter (λ v, visitID v = id) visits.

Definition onServer (serverID : string) (visits : list leaseVisit)
  : list leaseVisit :=
  filter (λ v, visitServerID v = serverID) visits.

Definition underKey (key : activeFeatureKey) (visits : list leaseVisit)
  : list leaseVisit :=
  filter (λ v, visitKey v = key) visits.

(** The entry of a map of totals that a list of counted visits makes: none
    when the list is empty, else the sum of their amounts. *)
Definition totalOf (l : list leaseVisit) : option float64 :=
  match l with
  | [] => None
  | _ => Some (sumQc (visitAmount <$> l))
  end.

(** The totals [t'] are the totals [t] plus the amounts of the visits [c],
    each under its server and under its feature key. *)
Definition accounts_for (t t' : leaseTotals) (c : list leaseVisit) : Prop :=
  total t' = total t + sumQc (visitAmount <$> c) ∧
  (∀ sid, default 0 (serverTotals t' !! sid)
          = default 0 (serverTotals t !! sid)
            + sumQc (visitAmount <$> onServer sid c)) ∧
  (∀ sid, is_Some (serverTotals t' !! sid)
          ↔ is_Some (serverTotals t !! sid) ∨ onServer sid c ≠ []) ∧
  (∀ key, default 0 (featureTotals t' !! key)
          = default 0 (featureTotals t !! key)
            + sumQc (visitAmount <$> underKey key c)) ∧
  (∀ key, is_Some (featureTotals t' !! key)
          ↔ is_Some (featureTotals t !! key) ∨ underKey key c ≠ []) ∧
  mapSum (featureTotals t') = mapSum (featureTotals t)
                              + sumQc (visitAmount <$> c).

(** [available = max(0, allocated - in_use)], and so not negative. *)
Definition clamped (allocated inUse available : float64) : Prop :=
  available = maxFloat64 0 (allocated - inUse) ∧ 0 ≤ available.

Definition poolRowClamped (row : PoolUsageSnapshot) : Prop :=
  clamped (PoolUsageSnapshot.Allocated row) (PoolUsageSnapshot.InUse row)
    (PoolUsageSnapshot.Available row).

Definition serverRowClamped (row : ServerUsageSnapshot) : Prop :=
  clamped (ServerUsageSnapshot.Allocated row) (ServerUsageSnapshot.InUse row)
    (ServerUsageSnapshot.Available row).

(** The pools the API lists for a pool task. *)
Definition poolsOf (api : Upstream) (job : virtualGroup * licenseServer)
  : list licensePool :=
  match listLicensePools api (virtualGroup.ID job.1) (licenseServer.ID job.2)
  with
  | Ok pools => pools
  | Err _ => []
  end.

(** One of the calls to the API that a fetch makes fails: the list of groups,
    the servers of a group, or, once the servers of every group are known,
    the leases of a group and service instance or the pools of a server. *)
Definition subFetchFails (api : Upstream) : Prop :=
  match listVirtualGroups api with
  | Err _ => True
  | Ok virtualGroups =>
      Exists
        (λ vg, isOk (listLicenseServers api (virtualGroup.ID vg)) = false)
        virtualGroups ∨
      ∃ serversByVG,
        errgroupRun (serverTask api) virtualGroups ∅ = Ok serversByVG ∧
        (Exists
           (λ job, isOk (listActiveLeases api (jobGroupID job)
                           (jobServiceInstanceID job)) = false)
           (activeLeaseJobs serversByVG) ∨
         Exists
           (λ job, isOk (listLicensePools api (virtualGroup.ID job.1)
                           (licenseServer.ID job.2)) = false)
           (poolJobs virtualGroups serversByVG))
  end.

(** The features of all pools of a server, in the order of the two loops. *)
Definition poolFeatures (pools : list licensePool) : list licensePoolFeature :=
  pools ≫= licensePool.LicensePoolFeatures.

(** The usage row of a server, in terms of the pools listed for it. *)
Definition usageRowOf (api : Upstream) (activeByServer : gmap string float64)
    (job : virtualGroup * licenseServer) (row : ServerUsageSnapshot) : Prop :=
  let allocated :=
    sumQc (licensePoolFeature.TotalAllotment <$> poolFeatures (poolsOf api job))
  in
  let pooledInUse :=
    sumQc (licensePoolFeature.InUse <$> poolFeatures (poolsOf api job)) in
  ServerUsageSnapshot.ServerID row = licenseServer.ID job.2 ∧
  ServerUsageSnapshot.Allocated row = allocated ∧
  match activeByServer !! licenseServer.ID job.2 with
  | Some activeLeaseCount =>
      ServerUsageSnapshot.InUse row = activeLeaseCount ∧
      ServerUsageSnapshot.Available row
      = maxFloat64 0 (allocated - activeLeaseCount)
  | None =>
      ServerUsageSnapshot.InUse row = pooledInUse ∧
      ServerUsageSnapshot.Available row
      = maxFloat64 0 (allocated - pooledInUse)
  end.

(** ** What holds of a service between calls *)

(** The TTL is positive; the committed [Meta] is never a cache hit, has [Up]
    0 or 1, and carries the collection time of the cached snapshot whenever
    there is one. *)
Definition serviceConsistent (s : snapshot.Service) : Prop :=
  (0 < snapshot.cacheTTL s)%Z ∧
  snapshot.CacheHit (snapshot.meta s) = false ∧
  (snapshot.Up (snapshot.meta s) = 0 ∨ snapshot.Up (snapshot.meta s) = 1) ∧
  ∀ cached, snapshot.snapshot s = Some cached →
            snapshot.Timestamp (snapshot.meta s) = CollectedAt cached.

(** What a call on the service [s] that leaves the service [s'] has
    answered: a snapshot and no error, under a [Meta] that agrees with the
    committed one on [Up] and [Timestamp]; or no snapshot, the zero [Meta]
    and an error, with nothing cached before or after. *)
Definition answered (s s' : snapshot.Service) (r : snapshot.reply) : Prop :=
  match r with
  | (Some returned, m, None) =>
      snapshot.snapshot s' = Some returned ∧
      snapshot.Up m = snapshot.Up (snapshot.meta s') ∧
      snapshot.Timestamp m = snapshot.Timestamp (snapshot.meta s')
  | (None, m, Some _) =>
      snapshot.snapshot s = None ∧ snapshot.snapshot s' = None ∧
      m = snapshot.zeroMeta ∧
      snapshot.Up (snapshot.meta s') = 0
  | _ => False
  end.

(** ** What the API lists *)

(** The servers the API lists for a group; none when the call fails. *)
Definition serversOf (api : Upstream) (virtualGroupID : Z)
  : list licenseServer :=
  match listLicenseServers api virtualGroupID with
  | Ok servers => servers
  | Err _ => []
  end.

(** The row of an entitlement feature of a group. *)
Definition entitlementRow (vg : virtualGroup) (feature : entitlementFeature)
  : EntitlementFeatureSnapshot :=
  {| EntitlementFeatureSnapshot.VirtualGroupID := virtualGroup.ID vg;
     EntitlementFeatureSnapshot.VirtualGroupName := virtualGroup.Name vg;
     EntitlementFeatureSnapshot.FeatureName :=
       entitlementFeature.FeatureName feature;
     EntitlementFeatureSnapshot.FeatureVersion :=
       entitlementFeature.FeatureVersion feature;
     EntitlementFeatureSnapshot.ProductName :=
       entitlementFeature.ProductName feature;
     EntitlementFeatureSnapshot.LicenseType :=
       entitlementFeature.LicenseType feature;
     EntitlementFeatureSnapshot.TotalQuantity :=
       entitlementFeature.TotalQuantity feature;
     EntitlementFeatureSnapshot.InUseQuantity :=
       entitlementFeature.InUseQuantity feature;
     EntitlementFeatureSnapshot.Unassigned :=
       entitlementFeature.UnassignedQuantity feature |}.

(** ** What a row says *)

(** A row of active leases per server and feature is labelled: no label of
    the server or of the feature is empty, and the count is positive. *)
Definition featureRowLabelled (row : ServerFeatureActiveLeaseSnapshot) : Prop :=
  ServerFeatureActiveLeaseSnapshot.ServerID row ≠ "" ∧
  ServerFeatureActiveLeaseSnapshot.ServerName row ≠ "" ∧
  ServerFeatureActiveLeaseSnapshot.FeatureName row ≠ "" ∧
  ServerFeatureActiveLeaseSnapshot.ProductName row ≠ "" ∧
  ServerFeatureActiveLeaseSnapshot.LicenseType row ≠ "" ∧
  0 < ServerFeatureActiveLeaseSnapshot.ActiveLeases row.

(** The pool row of a feature of a pool of a server: the ids and figures are
    those of the pool and of its feature, and the names are those of the last
    feature the server declares under the feature id, or empty when it
    declares none. *)
Definition poolRowOf (server : licenseServer)
    (entry : licensePool * licensePoolFeature) (row : PoolUsageSnapshot)
  : Prop :=
  let declared :=
    default licenseServerFeature.zero
      (last (filter
               (λ feature,
                  licenseServerFeature.ID feature
                  = licensePoolFeature.LicenseServerFeatureID entry.2)
               (licenseServer.LicenseServerFeatures server))) in
  PoolUsageSnapshot.ServerID row = licenseServer.ID server ∧
  PoolUsageSnapshot.PoolID row = licensePool.ID entry.1 ∧
  PoolUsageSnapshot.PoolName row = licensePool.Name entry.1 ∧
  PoolUsageSnapshot.Allocated row = licensePoolFeature.TotalAllotment entry.2 ∧
  PoolUsageSnapshot.InUse row = licensePoolFeature.InUse entry.2 ∧
  PoolUsageSnapshot.FeatureName row
  = licenseServerFeature.FeatureName declared ∧
  PoolUsageSnapshot.ProductName row
  = licenseServerFeature.ProductName declared ∧
  PoolUsageSnapshot.LicenseType row
  = licenseServerFeature.LicenseType declared.

(** The features of the pools, each with its pool. *)
Definition poolEntries (pools : list licensePool)
  : list (licensePool * licensePoolFeature) :=
  pool ← pools; pair pool <$> licensePool.LicensePoolFeatures pool.

(** ** What the two protocols show *)

(** A sample as its consumer sees it: the name of the metric, the value, and
    the labels with their values. *)
Abbreviation sample := (string * float64 * list (string * string))%type.

Definition metricSample (m : exporter.Metric) : sample :=
  (exporter.Desc.fqName (exporter.Metric.desc m),
   exporter.Metric.value m,
   exporter.Desc.constLabels (exporter.Metric.desc m)
   ++ zip (exporter.Desc.variableLabels (exporter.Metric.desc m))
        (exporter.Metric.labelValues m)).

Definition observationSample (o : otel.observation) : sample :=
  (otel.name o, otel.value o, otel.attrs o).

(** A metric is described: its description is one of those that [Describe]
    announces, it has one value for each variable label, and no value is
    empty. *)
Definition described (c : exporter.Collector) (m : exporter.Metric) : Prop :=
  exporter.Metric.desc m ∈ exporter.Describe c ∧
  length (exporter.Metric.labelValues m)
  = length (exporter.Desc.variableLabels (exporter.Metric.desc m)) ∧
  Forall (λ v, v ≠ "") (exporter.Metric.labelValues m).

(** ** A visit of the scenarios *)


(** ** Sums that do not round *)

(** An addition of two binary64 numbers is exact: the result is finite and
    is the rational sum of the operands. *)
Definition exactSum (operands : PrimFloat.float * PrimFloat.float) : Prop :=
  binary64.finite (PrimFloat.add operands.1 operands.2) = true ∧
  binary64.value (PrimFloat.add operands.1 operands.2)
  = binary64.value operands.1 + binary64.value operands.2.

(** The grand total is finite and stands for the sum of what the feature
    totals stand for. *)
Definition totalsAgree (t : binary64.leaseTotals) : Prop :=
  binary64.finite (binary64.total t) = true ∧
  binary64.value (binary64.total t)
  = mapSum (binary64.value <$> binary64.featureTotals t).

#[global] Instance exactSum_dec operands : Decision (exactSum operands).
Proof. unfold exactSum. apply _. Defined.

(** The totals agree as long as no addition so far has rounded. *)
Definition agreeUnlessRounded (t : binary64.leaseTotals) : Prop :=
  Forall exactSum (binary64.sums t) → totalsAgree t.

(** The shared variables after the critical sections of [calls] have run in
    this order, whichever tasks they belong to and however the tasks are
    scheduled: a call is the server id, the key, the trimmed lease id and
    the normalised count that the section is entered with. *)
Definition recorded
    (calls : list (string * activeFeatureKey * string * PrimFloat.float))
  : binary64.leaseTotals :=
  foldl
    (λ t call,
       binary64.recordLease call.1.1.1 call.1.1.2 call.1.2 call.2 t)
    binary64.noLeases calls.

(** The additions to a feature total or to the grand total that a call of
    [fetchActiveLeaseUsage] makes. *)
Definition additions (api : binary64.Upstream)
    (serversByVG : gmap Z (list licenseServer))
  : list (PrimFloat.float * PrimFloat.float) :=
  match binary64.activeLeaseRun api serversByVG with
  | Ok t => binary64.sums t
  | Err _ => []
  end.

(** * Properties of the cache *)

Section service_properties.
Import snapshot.
Context `{Fetcher F}.

Lemma Seconds_since (start elapsed : Duration) :
  Seconds (start + elapsed - start) = Seconds elapsed.
Proof. by rewrite Z.add_simpl_l. Qed.

(** A refresh calls the fetcher exactly once, whatever comes of it. *)
Lemma Refresh_fetches_once (s s' : Service) (w w' : World F) (r : reply) :
  Refresh s w = Some (r, s', w') →
  ∃ ok, fetchLog w' = fetchLog w ++ [ok] ∧
        (ok = true → is_Some (snapshot s')) ∧
        (ok = false → snapshot s' = snapshot s).
Proof.
  unfold Refresh.
  destruct (FetchSnapshot (fetcher w) (clock w)) as [[[fetched fetchErr] f'] d].
  destruct fetchErr as [e|]; [destruct (snapshot s) eqn:Hs|destruct fetched];
    intros [= <- <- <-]; simpl; eexists; (split; [done|]);
    split; intros; by eauto.
Qed.

(** Claim C1.  When the fetch of a refresh fails and a snapshot is cached,
    [Refresh] returns the cached snapshot and no error, with a [Meta] that it
    also commits: [Up = 0], the duration of the failed attempt, the collection
    time of the cached snapshot, and no cache hit.  When nothing is cached, it
    commits a [Meta] with [Up = 0] and the current time and returns the fetch
    error.  So the caller sees an error exactly when nothing was cached. *)
Theorem Refresh_fetch_failure (s : Service) (w : World F)
    (fetched : option cls.Snapshot) (fetchErr : error) (fetcher' : F)
    (elapsed : Duration) :
  FetchSnapshot (fetcher w) (clock w)
    = (fetched, Some fetchErr, fetcher', elapsed) →
  ∃ (r : reply) (s' : Service) (w' : World F),
    Refresh s w = Some (r, s', w') ∧
    clock w' = (clock w + elapsed)%Z ∧
    snapshot s' = snapshot s ∧
    match snapshot s with
    | Some stale =>
        let staleMeta :=
          {| Up := 0;
             DurationSeconds := Seconds elapsed;
             Timestamp := cls.CollectedAt stale;
             CacheHit := false |} in
        r = (Some stale, staleMeta, None) ∧ meta s' = staleMeta
    | None =>
        r = (None, zeroMeta, Some fetchErr) ∧
        meta s' =
          {| Up := 0;
             DurationSeconds := Seconds elapsed;
             Timestamp := (clock w + elapsed)%Z;
             CacheHit := false |}
    end ∧
    (is_Some (r.2) ↔ snapshot s = None).
Proof.
  intros Hfetch. unfold Refresh. rewrite Hfetch. cbn [clock].
  rewrite Seconds_since.
  destruct (snapshot s) as [stale|] eqn:Hs; do 3 eexists;
    (split; [reflexivity|]); cbn [clock snapshot meta]; rewrite ?Hs;
    repeat split; try done.
  all: try (by intros [? [=]]); by eauto.
Qed.

(** Claim C3.  While a snapshot is cached and younger than the TTL, [Get]
    returns it with [CacheHit = true] and [DurationSeconds = 0], leaves the
    service as it is and does not call the fetcher; with nothing cached, or a
    cached snapshot as old as the TTL or older, [Get] is [Refresh]. *)
Theorem Get_cache_hit_or_Refresh (s : Service) (w : World F) :
  (∀ cached : cls.Snapshot,
     snapshot s = Some cached →
     (clock w - cachedAt s < cacheTTL s)%Z →
     ∃ m : Meta,
       Get s w = Some ((Some cached, m, None), s, w) ∧
       CacheHit m = true ∧ DurationSeconds m = 0 ∧
       Up m = Up (meta s) ∧ Timestamp m = Timestamp (meta s)) ∧
  (snapshot s = None ∨ (cacheTTL s ≤ clock w - cachedAt s)%Z →
   Get s w = Refresh s w).
Proof.
  unfold Get. split.
  - intros cached -> Hage. rewrite decide_True by done. by eexists.
  - intros [-> | Hage]; [done|].
    destruct (snapshot s); [|done]. rewrite decide_False by lia. done.
Qed.

Lemma Refresh_cache_tracks_log (s s' : Service) (w w' : World F) (r : reply) :
  cache_tracks_log s w → Refresh s w = Some (r, s', w') →
  cache_tracks_log s' w'.
Proof.
  unfold cache_tracks_log. intros Hinv Hr.
  destruct (Refresh_fetches_once _ _ _ _ _ Hr) as (ok & -> & Hok & Hfail).
  rewrite elem_of_app, list_elem_of_singleton. destruct ok.
  - split; [by right|]. intros _. by apply Hok.
  - rewrite Hfail by done. rewrite Hinv. split; [by left|by intros [?|?]].
Qed.

Lemma Get_cache_tracks_log (s s' : Service) (w w' : World F) (r : reply) :
  cache_tracks_log s w → Get s w = Some (r, s', w') →
  cache_tracks_log s' w'.
Proof.
  unfold Get. intros Hinv.
  destruct (snapshot s) eqn:Hs; [case_decide|];
    try by apply Refresh_cache_tracks_log.
  by intros [= <- <- <-].
Qed.

Lemma serve_cache_tracks_log (calls : list (Duration * request))
    (s s' : Service) (w w' : World F) :
  cache_tracks_log s w → serve calls s w = Some (s', w') →
  cache_tracks_log s' w'.
Proof.
  revert s w. induction calls as [|[d r] calls IH]; intros s w Hinv; simpl.
  - by intros [= <- <-].
  - destruct (serve1 r s (elapse d w)) as [[[rep s1] w1]|] eqn:Hstep; [|done].
    apply IH. destruct r; simpl in Hstep.
    + by eapply Get_cache_tracks_log; [|done].
    + by eapply Refresh_cache_tracks_log; [|done].
Qed.

(** Claim C8, as amended.  After any sequence of [Get] and [Refresh] calls on
    a new service, [Latest] reports [ok = true] exactly when one of the
    fetches made so far succeeded; it then returns the cached snapshot and the
    committed [Meta], and otherwise no snapshot and the zero [Meta].  A failed
    fetch alone leaves [ok = false]. *)
Theorem Latest_ok_after_successful_fetch (cacheTTL : Duration)
    (calls : list (Duration * request)) (w0 w : World F) (s : Service) :
  fetchLog w0 = [] →
  serve calls (NewService cacheTTL) w0 = Some (s, w) →
  ((Latest s).2 = true ↔ true ∈ fetchLog w) ∧
  match Latest s with
  | (current, m, true) => current = snapshot s ∧ is_Some current ∧ m = meta s
  | (current, m, false) => current = None ∧ m = zeroMeta
  end.
Proof.
  intros Hlog Hserve.
  assert (cache_tracks_log s w) as Hinv.
  { eapply serve_cache_tracks_log; [|done]. unfold cache_tracks_log.
    rewrite Hlog. simpl. split; [by intros [? [=]]|by intros ?%elem_of_nil]. }
  unfold cache_tracks_log in Hinv. unfold Latest.
  destruct (snapshot s) as [current|]; simpl.
  - split; [|by eauto]. split; [intros _; by apply Hinv|done].
  - split; [|done]. split; [done|]. intros [? [=]]%Hinv.
Qed.

End service_properties.

Section service_scenarios.
Import snapshot scenario.

(** [Refresh_fetch_failure] on the second fetch of
    [TestServiceRefreshStaleFallback]: the snapshot collected at 1000 comes
    back without an error, under a [Meta] with [Up = 0] and its timestamp. *)
Lemma Refresh_fetch_failure_stale :
  ∃ (r : reply) (s' : Service) (w' : World fakeFetcher),
    Refresh cachedService (elapse minute cachedWorld) = Some (r, s', w') ∧
    r.1.1 = Some (emptySnapshot 1000) ∧ r.2 = None ∧
    Up (meta s') = 0 ∧ Timestamp (meta s') = 1000%Z.
Proof.
  destruct (Refresh_fetch_failure cachedService (elapse minute cachedWorld)
              None boom {| calls := 2; results := results (fetcher flakyWorld) |}
              50000000%Z eq_refl)
    as (r & s' & w' & Hr & _ & _ & [-> Hmeta] & _).
  eexists _, s', w'. rewrite Hmeta. repeat split; exact Hr || reflexivity.
Defined.

(** [Get_cache_hit_or_Refresh] on the second call of
    [TestServiceGetCacheHit], 59 seconds after the fetch, and on a call a full
    minute after it. *)
Lemma Get_cache_hit_at_59s :
  (∃ m : Meta,
     Get cachedService (elapse (59 * second) cachedWorld)
       = Some ((Some (emptySnapshot 1000), m, None), cachedService,
               elapse (59 * second) cachedWorld) ∧
     CacheHit m = true ∧ DurationSeconds m = 0 ∧
     Up m = Up (meta cachedService) ∧
     Timestamp m = Timestamp (meta cachedService)) ∧
  Get cachedService (elapse minute cachedWorld)
    = Refresh cachedService (elapse minute cachedWorld).
Proof.
  split.
  - apply (proj1 (Get_cache_hit_or_Refresh cachedService
                    (elapse (59 * second) cachedWorld))); reflexivity.
  - apply (proj2 (Get_cache_hit_or_Refresh cachedService
                    (elapse minute cachedWorld))).
    right. vm_compute. discriminate.
Defined.

(** The run of [TestServiceRefreshErrorWithoutCache]: one fetch has been made
    and has failed, and [Latest] still reports [ok = false]. *)
Lemma Latest_not_ok_after_failed_fetch :
  ∃ (s : Service) (w : World fakeFetcher),
    serve [(0%Z, GetRequest)] (NewService minute) failingWorld = Some (s, w) ∧
    fetchLog w = [false] ∧
    Up (meta s) = 0 ∧ Timestamp (meta s) = 50001000%Z ∧
    Latest s = (None, zeroMeta, false).
Proof. do 2 eexists. split; [vm_compute; reflexivity|]. done. Defined.

(** [Latest_ok_after_successful_fetch] on the run of
    [TestServiceRefreshStaleFallback]. *)
Lemma Latest_ok_after_stale_fallback :
  ∃ (s : Service) (w : World fakeFetcher),
    serve [(0%Z, GetRequest); (minute, RefreshRequest)]
      (NewService minute) flakyWorld = Some (s, w) ∧
    fetchLog w = [true; false] ∧
    ((Latest s).2 = true ↔ true ∈ fetchLog w) ∧
    match Latest s with
    | (current, m, true) => current = snapshot s ∧ is_Some current ∧ m = meta s
    | (current, m, false) => current = None ∧ m = zeroMeta
    end.
Proof.
  do 2 eexists. split; [vm_compute; reflexivity|]. split; [reflexivity|].
  apply (Latest_ok_after_successful_fetch minute
           [(0%Z, GetRequest); (minute, RefreshRequest)] flakyWorld);
    [reflexivity | vm_compute; reflexivity].
Defined.

End service_scenarios.

(** * Properties of the active-lease aggregation *)

Section sums.

Lemma sumQc_cons (x : float64) (l : list float64) :
  sumQc (x :: l) = x + sumQc l.
Proof. reflexivity. Qed.

Lemma sumQc_app (l1 l2 : list float64) :
  sumQc (l1 ++ l2) = sumQc l1 + sumQc l2.
Proof.
  induction l1 as [|x l1 IH]; simpl; [by rewrite Qcplus_0_l|].
  rewrite IH. ring.
Qed.

Lemma sumQc_Permutation (l1 l2 : list float64) :
  l1 ≡ₚ l2 → sumQc l1 = sumQc l2.
Proof.
  induction 1 as [|x l1 l2 _ IH|x y l|l1 l2 l3 _ IH1 _ IH2]; simpl.
  - done.
  - by rewrite IH.
  - ring.
  - by rewrite IH1.
Qed.

Context `{Countable K}.

Lemma mapSum_insert_fresh (k : K) (v : float64) (m : gmap K float64) :
  m !! k = None → mapSum (<[k:=v]> m) = v + mapSum m.
Proof.
  intros Hk. unfold mapSum.
  by rewrite (sumQc_Permutation _ _
               (fmap_Permutation snd _ _ (map_to_list_insert m k v Hk))).
Qed.

Lemma mapSum_addTo (k : K) (v : float64) (m : gmap K float64) :
  mapSum (addTo k v m) = mapSum m + v.
Proof.
  unfold addTo. destruct (m !! k) as [x|] eqn:Hk; simpl.
  - rewrite <-(insert_delete_eq m k (x + v)).
    rewrite mapSum_insert_fresh by apply lookup_delete_eq.
    rewrite <-(insert_delete_id m k x) at 2 by done.
    rewrite (mapSum_insert_fresh k x) by apply lookup_delete_eq. ring.
  - rewrite mapSum_insert_fresh by done. ring.
Qed.

Lemma addTo_lookup (k k' : K) (v : float64) (m : gmap K float64) :
  default 0 (addTo k v m !! k')
  = default 0 (m !! k') + (if decide (k' = k) then v else 0).
Proof.
  unfold addTo. case_decide as Hk.
  - subst k'. by rewrite lookup_insert_eq.
  - rewrite lookup_insert_ne by done. ring.
Qed.

Lemma addTo_is_Some (k k' : K) (v : float64) (m : gmap K float64) :
  is_Some (addTo k v m !! k') ↔ k' = k ∨ is_Some (m !! k').
Proof.
  unfold addTo. destruct (decide (k' = k)) as [->|Hk].
  - rewrite lookup_insert_eq. split; [by left|by eauto].
  - rewrite lookup_insert_ne by done. split; [by right|by intros [?|?]].
Qed.

End sums.

Section aggregation.

Lemma accounts_for_nil (t : leaseTotals) : accounts_for t t [].
Proof.
  unfold accounts_for, onServer, underKey. simpl.
  repeat split; intros; rewrite ?Qcplus_0_r; try done; try (by left);
    by match goal with Hor : _ ∨ _ |- _ => destruct Hor end.
Qed.

Lemma app_ne_nil {A : Type} (l1 l2 : list A) :
  l1 ++ l2 ≠ [] ↔ l1 ≠ [] ∨ l2 ≠ [].
Proof.
  destruct l1, l2; simpl; split; try done; try (by left); try (by right).
  by intros [?|?].
Qed.

Lemma accounts_for_app (t t1 t2 : leaseTotals) (c1 c2 : list leaseVisit) :
  accounts_for t t1 c1 → accounts_for t1 t2 c2 →
  accounts_for t t2 (c1 ++ c2).
Proof.
  unfold accounts_for, onServer, underKey.
  intros (Ht1 & Hs1 & Hd1 & Hf1 & He1 & Hm1) (Ht2 & Hs2 & Hd2 & Hf2 & He2 & Hm2).
  split_and!; try intros k;
    rewrite ?filter_app, ?fmap_app, ?sumQc_app, ?app_ne_nil.
  - rewrite Ht2, Ht1. ring.
  - rewrite Hs2, Hs1. ring.
  - rewrite Hd2, Hd1. tauto.
  - rewrite Hf2, Hf1. ring.
  - rewrite He2, He1. tauto.
  - rewrite Hm2, Hm1. ring.
Qed.

(** A visit that is counted adds its amount to the three totals. *)
Lemma recordLease_accounts_for (t : leaseTotals) (v : leaseVisit)
    (seen : gset string) :
  accounts_for t
    {| serverTotals := addTo (visitServerID v) (visitAmount v) (serverTotals t);
       featureTotals := addTo (visitKey v) (visitAmount v) (featureTotals t);
       seenLeaseIDs := seen;
       total := total t + visitAmount v |}
    [v].
Proof.
  unfold accounts_for, onServer, underKey. simpl.
  split_and!; try intros k; rewrite ?filter_cons, ?filter_nil.
  - ring.
  - rewrite addTo_lookup.
    destruct (decide (visitServerID v = k)) as [->|Hk].
    + rewrite decide_True by done. simpl. ring.
    + rewrite decide_False by done. simpl. ring.
  - rewrite addTo_is_Some.
    destruct (decide (visitServerID v = k)) as [->|Hk];
      [split; intros _; [by right|by left]|].
    split; [intros [?|?]; [done|by left]|intros [?|?]; [by right|done]].
  - rewrite addTo_lookup.
    destruct (decide (visitKey v = k)) as [->|Hk].
    + rewrite decide_True by done. simpl. ring.
    + rewrite decide_False by done. simpl. ring.
  - rewrite addTo_is_Some.
    destruct (decide (visitKey v = k)) as [->|Hk];
      [split; intros _; [by right|by left]|].
    split; [intros [?|?]; [done|by left]|intros [?|?]; [by right|done]].
  - rewrite mapSum_addTo. ring.
Qed.

(** The first visit is counted or not as [countedVisits] says, and the totals
    move accordingly. *)
Lemma visit_step (t : leaseTotals) (v : leaseVisit) (rest : list leaseVisit) :
  ∃ c : list leaseVisit,
    countedVisits (seenLeaseIDs t) (v :: rest)
    = c ++ countedVisits (seenLeaseIDs (visit t v)) rest ∧
    accounts_for t (visit t v) c.
Proof.
  unfold visit, leaseBody, recordLease. simpl.
  fold (visitID v). fold (visitKey v).
  change (normalizeLeaseCount (activeLease.LeaseCount (visitLease v)))
    with (visitAmount v).
  destruct (decide (visitID v = "")) as [Hid|Hid].
  - exists [v]. rewrite decide_False by (by intros [? _]). simpl.
    rewrite decide_False by (by intros ?).
    split; [done|]. apply recordLease_accounts_for.
  - destruct (decide (visitID v ∈ seenLeaseIDs t)) as [Hseen|Hseen].
    + exists []. rewrite decide_True by done. split; [done|].
      apply accounts_for_nil.
    + exists [v]. rewrite decide_False by (by intros [_ ?]). simpl.
      rewrite decide_True by done.
      split; [done|]. apply recordLease_accounts_for.
Qed.

Lemma foldl_visit_accounts_for (visits : list leaseVisit) (t : leaseTotals) :
  accounts_for t (foldl visit t visits)
    (countedVisits (seenLeaseIDs t) visits).
Proof.
  revert t. induction visits as [|v rest IH]; intros t.
  - apply accounts_for_nil.
  - destruct (visit_step t v rest) as (c & -> & Hc).
    cbn [foldl]. by eapply accounts_for_app.
Qed.

(** What [countedVisits] keeps, said without the set of seen ids. *)
Lemma countedVisits_sublist (seen : gset string) (visits : list leaseVisit) :
  sublist (countedVisits seen visits) visits.
Proof.
  revert seen. induction visits as [|v rest IH]; intros seen; simpl.
  - constructor.
  - repeat case_decide; by constructor.
Qed.

Lemma countedVisits_withID_empty (seen : gset string)
    (visits : list leaseVisit) :
  withID "" (countedVisits seen visits) = withID "" visits.
Proof.
  unfold withID. revert seen.
  induction visits as [|v rest IH]; intros seen; simpl; [done|].
  destruct (decide (visitID v = "")) as [Hid|Hid].
  - by rewrite !filter_cons_True, IH.
  - rewrite (filter_cons_False _ v rest) by done.
    case_decide; [done|]. by rewrite filter_cons_False.
Qed.

Lemma countedVisits_withID (seen : gset string) (visits : list leaseVisit)
    (id : string) :
  id ≠ "" →
  withID id (countedVisits seen visits)
  = if decide (id ∈ seen) then [] else option_list (head (withID id visits)).
Proof.
  intros Hid. unfold withID. revert seen.
  induction visits as [|v rest IH]; intros seen; simpl.
  - by case_decide.
  - destruct (decide (visitID v = id)) as [Hv|Hv].
    + rewrite (filter_cons_True _ v rest) by done. simpl.
      rewrite decide_False by congruence.
      destruct (decide (visitID v ∈ seen)) as [Hseen|Hseen].
      * rewrite IH. rewrite <-Hv. by rewrite !decide_True.
      * rewrite filter_cons_True by done. rewrite IH.
        rewrite decide_True by (by apply elem_of_union_l, elem_of_singleton).
        rewrite decide_False by congruence. done.
    + rewrite (filter_cons_False _ v rest) by done.
      destruct (decide (visitID v = "")) as [Hempty|Hempty].
      * by rewrite filter_cons_False, IH.
      * destruct (decide (visitID v ∈ seen)) as [Hseen|Hseen]; [done|].
        rewrite filter_cons_False, IH by done.
        destruct (decide (id ∈ seen)).
        -- rewrite decide_True by set_solver. done.
        -- rewrite decide_False; [done|].
           intros [?%elem_of_singleton|?]%elem_of_union; congruence.
Qed.

(** The loops of a task are the visits of that task, one after the other. *)
Lemma foldl_bind {A B S : Type} (f : S → B → S) (g : A → list B)
    (l : list A) (s : S) :
  foldl f s (l ≫= g) = foldl (λ s x, foldl f s (g x)) s l.
Proof.
  revert s. induction l as [|x l IH]; intros s; simpl; [done|].
  by rewrite foldl_app, IH.
Qed.

Lemma clientBody_visits (job : activeLeaseJob) (t : leaseTotals)
    (client : activeLeaseClient) :
  clientBody (jobGroupID job) (jobGroupName job) (jobIndex job) t client
  = foldl visit t (clientVisits job client).
Proof.
  unfold clientBody, clientVisits. case_decide; [done|].
  by rewrite foldl_fmap.
Qed.

Lemma activeLeaseTask_visits (api : Upstream) (job : activeLeaseJob)
    (t t' : leaseTotals) :
  activeLeaseTask api job t = Ok t' →
  t' = foldl visit t (jobVisits api job).
Proof.
  unfold activeLeaseTask, jobVisits.
  destruct (listActiveLeases api _ _) as [clients|e]; [|done].
  intros [= <-]. rewrite foldl_bind. revert t.
  induction clients as [|client clients IH]; intros t; simpl; [done|].
  by rewrite IH, clientBody_visits.
Qed.

Lemma errgroupRun_activeLeaseTask_visits (api : Upstream)
    (jobs : list activeLeaseJob) (t t' : leaseTotals) :
  errgroupRun (activeLeaseTask api) jobs t = Ok t' →
  t' = foldl visit t (jobs ≫= jobVisits api).
Proof.
  revert t. induction jobs as [|job jobs IH]; intros t; simpl.
  - by intros [= <-].
  - destruct (activeLeaseTask api job t) as [t1|e] eqn:Htask; [|done].
    intros Hrest. rewrite foldl_app.
    apply activeLeaseTask_visits in Htask as <-. by apply IH.
Qed.

(** What [fetchActiveLeaseUsage] returns, in terms of the leases it visits. *)
Lemma fetchActiveLeaseUsage_visits (api : Upstream)
    (serversByVG : gmap Z (list licenseServer))
    (activeByServer : gmap string float64)
    (serverRows : list ServerActiveLeaseSnapshot)
    (featureRows : list ServerFeatureActiveLeaseSnapshot)
    (activeLeaseTotal : float64) :
  fetchActiveLeaseUsage api serversByVG
    = Ok (activeByServer, serverRows, featureRows, activeLeaseTotal) →
  let t := foldl visit noLeases (fetchedVisits api serversByVG) in
  activeByServer = serverTotals t ∧
  serverRows = serverActiveLeaseRows serversByVG (serverTotals t) ∧
  featureRows = featureActiveLeaseRow <$> map_to_list (featureTotals t) ∧
  activeLeaseTotal = total t.
Proof.
  unfold fetchActiveLeaseUsage, fetchedVisits.
  destruct (errgroupRun _ _ _) as [t'|e] eqn:Hrun; [|done].
  apply errgroupRun_activeLeaseTask_visits in Hrun as ->.
  by intros [= <- <- <- <-].
Qed.

(** An entry of a map of totals that started empty. *)
Lemma totals_entry `{Countable K} (m : gmap K float64) (k : K)
    (l : list leaseVisit) :
  default 0 (m !! k) = default 0 (None : option float64)
                       + sumQc (visitAmount <$> l) →
  (is_Some (m !! k) ↔ is_Some (None : option float64) ∨ l ≠ []) →
  m !! k = totalOf l.
Proof.
  intros Hsum Hdom. unfold totalOf. destruct l as [|v l].
  - destruct (m !! k) as [x|]; [|done].
    destruct (proj1 Hdom) as [[? [=]]|?]; by eauto.
  - destruct (proj2 Hdom) as [x Hx]; [by right|].
    rewrite Hx in Hsum |- *. f_equal. simpl in Hsum |- *. rewrite Hsum. ring.
Qed.

(** Whatever the order in which the leases of a fetch reach the locked
    section, the totals are those of the visits that are first with their
    lease id or have none. *)
Lemma visits_counted_once (visits : list leaseVisit) :
  let t := foldl visit noLeases visits in
  ∃ counted : list leaseVisit,
    sublist counted visits ∧
    withID "" counted = withID "" visits ∧
    (∀ id, id ≠ "" →
           withID id counted = option_list (head (withID id visits))) ∧
    total t = sumQc (visitAmount <$> counted) ∧
    (∀ sid, serverTotals t !! sid = totalOf (onServer sid counted)) ∧
    (∀ key, featureTotals t !! key = totalOf (underKey key counted)).
Proof.
  intros t. exists (countedVisits ∅ visits).
  destruct (foldl_visit_accounts_for visits noLeases)
    as (Ht & Hs & Hd & Hf & He & _).
  fold t in Ht, Hs, Hd, Hf, He. simpl in Ht, Hs, Hd, Hf, He.
  split_and!.
  - apply countedVisits_sublist.
  - apply countedVisits_withID_empty.
  - intros id Hid. rewrite countedVisits_withID by done.
    by rewrite decide_False by apply not_elem_of_empty.
  - rewrite Ht. ring.
  - intros sid. specialize (Hs sid). specialize (Hd sid).
    rewrite lookup_empty in Hs, Hd. by apply totals_entry.
  - intros key. specialize (Hf key). specialize (He key).
    rewrite lookup_empty in Hf, He. by apply totals_entry.
Qed.

(** Claim C4.  Of the leases one [fetchActiveLeaseUsage] goes through, over
    all groups and service instances, those that count are: every lease with
    an empty trimmed id, and for every other id the first lease that has it.
    The grand total, the total of a server and the total of a server and
    feature are the sums over these leases of the lease count, or of 1 when
    the lease count is not positive. *)
Theorem active_leases_counted_once (api : Upstream)
    (serversByVG : gmap Z (list licenseServer))
    (activeByServer : gmap string float64)
    (serverRows : list ServerActiveLeaseSnapshot)
    (featureRows : list ServerFeatureActiveLeaseSnapshot)
    (activeLeaseTotal : float64) :
  fetchActiveLeaseUsage api serversByVG
    = Ok (activeByServer, serverRows, featureRows, activeLeaseTotal) →
  ∃ counted : list leaseVisit,
    sublist counted (fetchedVisits api serversByVG) ∧
    withID "" counted = withID "" (fetchedVisits api serversByVG) ∧
    (∀ id, id ≠ "" →
           withID id counted
           = option_list (head (withID id (fetchedVisits api serversByVG)))) ∧
    activeLeaseTotal = sumQc (visitAmount <$> counted) ∧
    (∀ sid, activeByServer !! sid = totalOf (onServer sid counted)) ∧
    (∀ row, row ∈ featureRows ↔
            ∃ key, underKey key counted ≠ [] ∧
                   row = featureActiveLeaseRow
                           (key, sumQc (visitAmount <$> underKey key counted))).
Proof.
  intros (-> & _ & -> & ->)%fetchActiveLeaseUsage_visits.
  destruct (visits_counted_once (fetchedVisits api serversByVG))
    as (counted & Hsub & Hempty & Hfirst & Htotal & Hserver & Hfeature).
  exists counted. split_and!; try done.
  intros row. rewrite list_elem_of_fmap. split.
  - intros ([key x] & -> & Hin%elem_of_map_to_list).
    rewrite Hfeature in Hin. exists key.
    destruct (underKey key counted); [done|]. by injection Hin as <-.
  - intros (key & Hne & ->). eexists (key, _). split; [done|].
    apply elem_of_map_to_list. rewrite Hfeature.
    by destruct (underKey key counted).
Qed.


End aggregation.

(** * Properties of [FetchSnapshot] *)

Section fetch.

(** A fan-out whose tasks fail or not regardless of the accumulator succeeds
    exactly when every task does. *)
Lemma errgroupRun_Ok {A S : Type} (task : A → S → result S) (ok : A → bool)
    (l : list A) (s : S) :
  (∀ x s, isOk (task x s) = ok x) →
  Forall (λ x, ok x = true) l →
  ∃ s', errgroupRun task l s = Ok s'.
Proof.
  intros Htask Hl. revert s.
  induction Hl as [|x l Hx _ IH]; intros s; simpl; [by eauto|].
  specialize (Htask x s). rewrite Hx in Htask.
  destruct (task x s) as [s1|e]; [apply IH|done].
Qed.

Lemma errgroupRun_Err {A S : Type} (task : A → S → result S) (ok : A → bool)
    (l : list A) (s : S) :
  (∀ x s, isOk (task x s) = ok x) →
  Exists (λ x, ok x = false) l →
  ∃ e, errgroupRun task l s = Err e.
Proof.
  intros Htask Hl. revert s.
  induction Hl as [x l Hx|x l _ IH]; intros s; simpl.
  - specialize (Htask x s). rewrite Hx in Htask.
    destruct (task x s) as [s1|e]; [done|by eauto].
  - destruct (task x s) as [s1|e]; [apply IH|by eauto].
Qed.

Lemma not_Forall_ok_Exists {A : Type} (ok : A → bool) (l : list A) :
  Forall (λ x, ok x = true) l ∨ Exists (λ x, ok x = false) l.
Proof.
  induction l as [|x l [IH|IH]]; [by left| |by right; constructor].
  destruct (ok x) eqn:Hx; [left|right]; by constructor.
Qed.

Lemma serverTask_isOk (api : Upstream) (vg : virtualGroup)
    (m : gmap Z (list licenseServer)) :
  isOk (serverTask api vg m)
  = isOk (listLicenseServers api (virtualGroup.ID vg)).
Proof. unfold serverTask. by destruct (listLicenseServers _ _). Qed.

Lemma activeLeaseTask_isOk (api : Upstream) (job : activeLeaseJob)
    (t : leaseTotals) :
  isOk (activeLeaseTask api job t)
  = isOk (listActiveLeases api (jobGroupID job) (jobServiceInstanceID job)).
Proof. unfold activeLeaseTask. by destruct (listActiveLeases _ _ _). Qed.

Lemma poolTask_isOk (api : Upstream) (activeByServer : gmap string float64)
    (job : virtualGroup * licenseServer) (snapshot : Snapshot) :
  isOk (poolTask api activeByServer job snapshot)
  = isOk (listLicensePools api (virtualGroup.ID job.1)
            (licenseServer.ID job.2)).
Proof.
  destruct job as [vg server]. unfold poolTask. simpl.
  destruct (listLicensePools _ _ _) as [pools|e]; [|done]. simpl.
  by destruct (poolTaskRows activeByServer server pools) as [[? ?] ?].
Qed.

(** The four phases behind a snapshot. *)
Lemma FetchSnapshot_Ok_inv (api : Upstream) (now : Time) (snap : Snapshot) :
  FetchSnapshot api now = Ok snap →
  ∃ virtualGroups serversByVG activeByServer serverRows featureRows
      activeLeaseTotal,
    listVirtualGroups api = Ok virtualGroups ∧
    errgroupRun (serverTask api) virtualGroups ∅ = Ok serversByVG ∧
    fetchActiveLeaseUsage api serversByVG
      = Ok (activeByServer, serverRows, featureRows, activeLeaseTotal) ∧
    errgroupRun (poolTask api activeByServer)
      (poolJobs virtualGroups serversByVG)
      {| CollectedAt := now;
         EntitlementFeatures := extractEntitlementFeatureMetrics virtualGroups;
         ServerFeatureCapacity := [];
         ServerUsage := [];
         ServerActiveLeases := serverRows;
         ServerFeatureActiveLeases := featureRows;
         ActiveLeaseTotal := activeLeaseTotal;
         PoolUsage := [] |} = Ok snap.
Proof.
  unfold FetchSnapshot.
  destruct (listVirtualGroups api) as [vgs|e]; [simpl|done].
  destruct (errgroupRun (serverTask api) vgs ∅) as [m|e] eqn:Hservers;
    [simpl|done].
  destruct (fetchActiveLeaseUsage api m) as [[[[a sr] fr] tot]|e] eqn:Hleases;
    [simpl|done].
  intros Hrun. by exists vgs, m, a, sr, fr, tot.
Qed.

(** What a pool task adds to a snapshot, and what it leaves alone. *)
Lemma poolTask_Ok (api : Upstream) (activeByServer : gmap string float64)
    (job : virtualGroup * licenseServer) (s0 s : Snapshot) :
  poolTask api activeByServer job s0 = Ok s →
  let rows := poolTaskRows activeByServer job.2 (poolsOf api job) in
  CollectedAt s = CollectedAt s0 ∧
  ServerActiveLeases s = ServerActiveLeases s0 ∧
  ServerFeatureActiveLeases s = ServerFeatureActiveLeases s0 ∧
  ActiveLeaseTotal s = ActiveLeaseTotal s0 ∧
  ServerUsage s = ServerUsage s0 ++ [rows.1.2] ∧
  PoolUsage s = PoolUsage s0 ++ rows.1.1.
Proof.
  destruct job as [vg server]. unfold poolTask, poolsOf. cbn [fst snd].
  destruct (listLicensePools _ _ _) as [pools|e]; [|done].
  cbn [wrapErr mbind result_bind mret result_ret]. cbv beta.
  destruct (poolTaskRows activeByServer server pools) as [[pu su] sfc].
  by intros [= <-].
Qed.

Lemma errgroupRun_poolTask (api : Upstream)
    (activeByServer : gmap string float64)
    (jobs : list (virtualGroup * licenseServer)) (s0 s : Snapshot) :
  errgroupRun (poolTask api activeByServer) jobs s0 = Ok s →
  CollectedAt s = CollectedAt s0 ∧
  ServerActiveLeases s = ServerActiveLeases s0 ∧
  ServerFeatureActiveLeases s = ServerFeatureActiveLeases s0 ∧
  ActiveLeaseTotal s = ActiveLeaseTotal s0 ∧
  ServerUsage s
  = ServerUsage s0 ++
    ((λ job, (poolTaskRows activeByServer job.2 (poolsOf api job)).1.2)
       <$> jobs) ∧
  PoolUsage s
  = PoolUsage s0 ++
    (jobs ≫= λ job, (poolTaskRows activeByServer job.2 (poolsOf api job)).1.1).
Proof.
  revert s0. induction jobs as [|job jobs IH]; intros s0; cbn [errgroupRun].
  - intros [= <-]. cbn [fmap list_fmap mbind list_bind].
    by rewrite !app_nil_r.
  - destruct (poolTask api activeByServer job s0) as [s1|e] eqn:Htask; [|done].
    apply poolTask_Ok in Htask as (H1 & H2 & H3 & H4 & H5 & H6).
    intros (-> & -> & -> & -> & -> & ->)%IH.
    rewrite H1, H2, H3, H4, H5, H6. rewrite fmap_cons, bind_cons.
    by rewrite <-!app_assoc.
Qed.

(** ** The rows of a pool task *)

Lemma maxFloat64_0_nonneg (x : float64) : 0 ≤ maxFloat64 0 x.
Proof.
  unfold maxFloat64. case_decide as Hx; [apply Qcle_refl|].
  by apply Qcnot_lt_le.
Qed.

Lemma clamped_maxFloat64 (allocated inUse : float64) :
  clamped allocated inUse (maxFloat64 0 (allocated - inUse)).
Proof. split; [done|apply maxFloat64_0_nonneg]. Qed.

Lemma foldl_poolFeatureBody (server : licenseServer)
    (featureByID : gmap string licenseServerFeature) (pool : licensePool)
    (features : list licensePoolFeature) (acc : poolRollup) :
  let r := foldl (poolFeatureBody server featureByID pool) acc features in
  serverAllocated r
  = serverAllocated acc
    + sumQc (licensePoolFeature.TotalAllotment <$> features) ∧
  serverInUse r
  = serverInUse acc + sumQc (licensePoolFeature.InUse <$> features) ∧
  (Forall poolRowClamped (poolUsage acc) → Forall poolRowClamped (poolUsage r)).
Proof.
  revert acc. induction features as [|feature features IH]; intros acc.
  - simpl. by rewrite !Qcplus_0_r.
  - cbn [foldl]. destruct (IH (poolFeatureBody server featureByID pool acc
                                 feature)) as (Ha & Hu & Hrows).
    cbv zeta. rewrite Ha, Hu. cbn [poolFeatureBody serverAllocated serverInUse].
    rewrite !fmap_cons, !sumQc_cons. split_and!; [ring|ring|].
    intros Hacc. apply Hrows. cbn [poolFeatureBody poolUsage].
    apply Forall_app. split; [done|]. apply Forall_singleton.
    apply clamped_maxFloat64.
Qed.

Lemma rollupPools_spec (server : licenseServer)
    (featureByID : gmap string licenseServerFeature)
    (pools : list licensePool) :
  let r := rollupPools server featureByID pools in
  serverAllocated r
  = sumQc (licensePoolFeature.TotalAllotment <$> poolFeatures pools) ∧
  serverInUse r = sumQc (licensePoolFeature.InUse <$> poolFeatures pools) ∧
  Forall poolRowClamped (poolUsage r).
Proof.
  unfold rollupPools, poolFeatures.
  set (acc0 := {| poolUsage := []; serverAllocated := 0; serverInUse := 0 |}).
  assert (∀ acc,
    let r := foldl (λ acc pool,
                      foldl (poolFeatureBody server featureByID pool) acc
                        (licensePool.LicensePoolFeatures pool)) acc pools in
    serverAllocated r
    = serverAllocated acc
      + sumQc (licensePoolFeature.TotalAllotment
                 <$> (pools ≫= licensePool.LicensePoolFeatures)) ∧
    serverInUse r
    = serverInUse acc
      + sumQc (licensePoolFeature.InUse
                 <$> (pools ≫= licensePool.LicensePoolFeatures)) ∧
    (Forall poolRowClamped (poolUsage acc) →
     Forall poolRowClamped (poolUsage r))) as Hgen.
  { induction pools as [|pool pools IH]; intros acc.
    - simpl. by rewrite !Qcplus_0_r.
    - cbn [foldl]. rewrite bind_cons, !fmap_app, !sumQc_app.
      destruct (foldl_poolFeatureBody server featureByID pool
                  (licensePool.LicensePoolFeatures pool) acc)
        as (Ha & Hu & Hrows).
      destruct (IH (foldl (poolFeatureBody server featureByID pool) acc
                      (licensePool.LicensePoolFeatures pool)))
        as (Ha' & Hu' & Hrows').
      cbv zeta in *. rewrite Ha', Hu', Ha, Hu.
      split_and!; [ring|ring|by auto]. }
  destruct (Hgen acc0) as (Ha & Hu & Hrows). cbv zeta in *.
  rewrite Ha, Hu. subst acc0. cbn [serverAllocated serverInUse poolUsage] in *.
  split_and!; [ring|ring|by apply Hrows].
Qed.

Lemma serverUsageRow_clamped (activeByServer : gmap string float64)
    (server : licenseServer) (allocated inUse : float64) :
  serverRowClamped (serverUsageRow activeByServer server allocated inUse).
Proof.
  unfold serverRowClamped, serverUsageRow. simpl.
  destruct (activeByServer !! licenseServer.ID server);
    apply clamped_maxFloat64.
Qed.

Lemma poolTaskRows_usage (api : Upstream)
    (activeByServer : gmap string float64)
    (job : virtualGroup * licenseServer) :
  usageRowOf api activeByServer job
    (poolTaskRows activeByServer job.2 (poolsOf api job)).1.2.
Proof.
  unfold usageRowOf, poolTaskRows. cbn [fst snd].
  destruct (rollupPools_spec job.2
              (foldl (λ m feature, <[licenseServerFeature.ID feature:=feature]> m)
                 ∅ (licenseServer.LicenseServerFeatures job.2))
              (poolsOf api job)) as (Ha & Hu & _).
  cbv zeta in *. rewrite <-Ha, <-Hu. unfold serverUsageRow. simpl.
  by destruct (activeByServer !! licenseServer.ID job.2).
Qed.

(** ** The snapshot as a whole *)


(** Claim C6.  Every pool row and every server row of a snapshot has
    [Available = max(0, Allocated - InUse)], which is not negative.  A pool
    feature with an allotment of 50 of which 80 are in use gives a row with
    [Available = 0]. *)
Theorem available_clamped :
  (∀ (api : Upstream) (now : Time) (snap : Snapshot),
     FetchSnapshot api now = Ok snap →
     Forall poolRowClamped (PoolUsage snap) ∧
     Forall serverRowClamped (ServerUsage snap)) ∧
  (∃ (snap : Snapshot) (row : PoolUsageSnapshot),
     FetchSnapshot scenario.overdrawnAPI 0 = Ok snap ∧
     PoolUsage snap = [row] ∧
     PoolUsageSnapshot.Allocated row = scenario.units 50 ∧
     PoolUsageSnapshot.InUse row = scenario.units 80 ∧
     PoolUsageSnapshot.Available row = 0).
Proof.
  split.
  - intros api now snap
      (vgs & m & a & sr & fr & tot & _ & _ & _ & Hpools)%FetchSnapshot_Ok_inv.
    apply errgroupRun_poolTask in Hpools as (_ & _ & _ & _ & -> & ->).
    cbn [ServerUsage PoolUsage app]. split.
    + apply Forall_bind, Forall_forall. intros job _.
      unfold poolTaskRows. cbn [fst].
      apply (rollupPools_spec job.2).
    + apply Forall_fmap, Forall_forall. intros job _.
      unfold poolTaskRows. cbn [fst snd]. apply serverUsageRow_clamped.
  - do 2 eexists. split; [vm_compute; reflexivity|].
    split; [reflexivity|].
    split_and!; apply Qc_is_canon; reflexivity.
Qed.

(** A fetch fails when one of its calls to the API does, and only then. *)
Lemma FetchSnapshot_Err (api : Upstream) (now : Time) :
  subFetchFails api → ∃ e, FetchSnapshot api now = Err e.
Proof.
  unfold subFetchFails, FetchSnapshot.
  destruct (listVirtualGroups api) as [vgs|e]; [|by eauto].
  cbn [mbind result_bind].
  intros [Hservers|(m & Hm & Hrest)].
  - destruct (errgroupRun_Err (serverTask api) _ vgs ∅
                (serverTask_isOk api) Hservers) as [e ->]. by eauto.
  - rewrite Hm. unfold fetchActiveLeaseUsage. cbn [mbind result_bind].
    destruct Hrest as [Hleases|Hpools].
    + destruct (errgroupRun_Err (activeLeaseTask api) _ _ noLeases
                  (activeLeaseTask_isOk api) Hleases) as [e ->]. by eauto.
    + destruct (errgroupRun (activeLeaseTask api) _ noLeases) as [t|e];
        [|by eauto].
      cbn [mbind result_bind mret result_ret]. cbv beta iota.
      apply (errgroupRun_Err _ _ _ _ (poolTask_isOk api (serverTotals t))
               Hpools).
Qed.

Lemma FetchSnapshot_Ok (api : Upstream) (now : Time) :
  ¬ subFetchFails api → ∃ snap, FetchSnapshot api now = Ok snap.
Proof.
  unfold subFetchFails, FetchSnapshot.
  destruct (listVirtualGroups api) as [vgs|e]; [|by intros []].
  cbn [mbind result_bind]. intros Hnot.
  destruct (not_Forall_ok_Exists
              (λ vg, isOk (listLicenseServers api (virtualGroup.ID vg))) vgs)
    as [Hservers|Hservers]; [|destruct Hnot; by left].
  destruct (errgroupRun_Ok (serverTask api) _ vgs ∅
              (serverTask_isOk api) Hservers) as [m Hm].
  rewrite Hm. unfold fetchActiveLeaseUsage. cbn [mbind result_bind].
  destruct (not_Forall_ok_Exists
              (λ job, isOk (listActiveLeases api (jobGroupID job)
                              (jobServiceInstanceID job)))
              (activeLeaseJobs m))
    as [Hleases|Hleases]; [|destruct Hnot; right; by eauto].
  destruct (errgroupRun_Ok (activeLeaseTask api) _ _ noLeases
              (activeLeaseTask_isOk api) Hleases) as [t ->].
  cbn [mbind result_bind mret result_ret]. cbv beta iota.
  destruct (not_Forall_ok_Exists
              (λ job : virtualGroup * licenseServer,
                 isOk (listLicensePools api (virtualGroup.ID job.1)
                         (licenseServer.ID job.2)))
              (poolJobs vgs m))
    as [Hpools|Hpools]; [|destruct Hnot; right; by eauto].
  apply (errgroupRun_Ok _ _ _ _ (poolTask_isOk api (serverTotals t)) Hpools).
Qed.

(** Claim C7.  When one of the calls a fetch makes to the API fails (the list
    of groups, the servers of a group, the leases of a group and service
    instance, the pools of a server), [FetchSnapshot] returns an error and
    no snapshot, and the client is as before. *)
Theorem FetchSnapshot_fails_fast (c : snapshot.Client) (now : Time) :
  subFetchFails (snapshot.upstream c) →
  ∃ e : error,
    FetchSnapshot (snapshot.upstream c) now = Err e ∧
    snapshot.FetchSnapshot c now = (None, Some e, c, snapshot.latency c).
Proof.
  intros [e He]%(FetchSnapshot_Err _ now). exists e. split; [done|].
  unfold snapshot.FetchSnapshot, snapshot.Client_Fetcher. by rewrite He.
Qed.

End fetch.

(** * The scenarios *)

Section fetch_scenarios.
Import scenario.

(** [active_leases_counted_once] where two service instances report the same
    lease "L1": it counts once, for 3; the two leases without an id count
    both, and the lease of count 0 counts for 1. *)
Lemma active_leases_counted_once_two_instances :
  ∃ activeByServer serverRows featureRows activeLeaseTotal,
    fetchActiveLeaseUsage twoInstanceAPI twoInstanceServers
      = Ok (activeByServer, serverRows, featureRows, activeLeaseTotal) ∧
    activeLeaseTotal = units 8 ∧
    activeByServer !! "srv-1" = Some (units 3) ∧
    activeByServer !! "srv-2" = Some (units 5) ∧
    ∃ counted : list leaseVisit,
      sublist counted (fetchedVisits twoInstanceAPI twoInstanceServers) ∧
      withID "" counted
      = withID "" (fetchedVisits twoInstanceAPI twoInstanceServers) ∧
      (∀ id, id ≠ "" →
         withID id counted
         = option_list
             (head (withID id
                      (fetchedVisits twoInstanceAPI twoInstanceServers)))) ∧
      activeLeaseTotal = sumQc (visitAmount <$> counted) ∧
      (∀ sid, activeByServer !! sid = totalOf (onServer sid counted)) ∧
      (∀ row, row ∈ featureRows ↔
         ∃ key, underKey key counted ≠ [] ∧
                row = featureActiveLeaseRow
                        (key, sumQc (visitAmount <$> underKey key counted))).
Proof.
  do 4 eexists. split; [vm_compute; reflexivity|].
  split; [apply Qc_is_canon; reflexivity|].
  split; [apply (bool_decide_unpack _); vm_compute; reflexivity|].
  split; [apply (bool_decide_unpack _); vm_compute; reflexivity|].
  eapply (active_leases_counted_once twoInstanceAPI twoInstanceServers).
  vm_compute. reflexivity.
Defined.



(** [available_clamped] on a server whose pool is overdrawn. *)
Lemma available_clamped_overdrawn :
  ∃ snap,
    FetchSnapshot overdrawnAPI 0 = Ok snap ∧
    Forall poolRowClamped (PoolUsage snap) ∧
    Forall serverRowClamped (ServerUsage snap).
Proof.
  eexists. split; [vm_compute; reflexivity|].
  apply (proj1 available_clamped overdrawnAPI 0%Z).
  vm_compute. reflexivity.
Defined.

(** [FetchSnapshot_fails_fast] when the pools of the server cannot be
    listed: the error names the server and the group. *)
Lemma FetchSnapshot_fails_fast_pools_down :
  ∃ e : error,
    FetchSnapshot poolsDownAPI 0 = Err e ∧
    snapshot.FetchSnapshot
      {| snapshot.upstream := poolsDownAPI; snapshot.latency := 5%Z |} 0%Z
    = (None, Some e,
       {| snapshot.upstream := poolsDownAPI; snapshot.latency := 5%Z |}, 5%Z).
Proof.
  apply (FetchSnapshot_fails_fast
           {| snapshot.upstream := poolsDownAPI; snapshot.latency := 5%Z |}).
  unfold subFetchFails. simpl. right. eexists.
  split; [vm_compute; reflexivity|]. right.
  apply Exists_exists. exists (groupG, backfillGroup groupG server1).
  split; [|reflexivity]. vm_compute. apply list_elem_of_here.
Defined.

End fetch_scenarios.

(** * The totals of active leases in binary64 *)

Section binary64_totals.
Import PrimFloat binary64.

Lemma errgroupRun_invariant {A S : Type} (P : S → Prop)
    (task : A → S → result S) (l : list A) (s s' : S) :
  (∀ x s s', P s → task x s = Ok s' → P s') →
  P s → errgroupRun task l s = Ok s' → P s'.
Proof.
  intros Htask. revert s.
  induction l as [|x l IH]; intros s Hs; simpl; [by intros [= <-]|].
  destruct (task x s) as [s1|e] eqn:Hx; [|done].
  apply IH. by eapply Htask.
Qed.

Lemma foldl_invariant {A S : Type} (P : S → Prop) (f : S → A → S)
    (l : list A) (s : S) :
  (∀ s x, P s → P (f s x)) → P s → P (foldl f s l).
Proof.
  intros Hf. revert s. induction l as [|x l IH]; intros s Hs; simpl; auto.
Qed.

Lemma recordLease_agree (serverID : string) (key : cls.activeFeatureKey)
    (leaseID : string) (leaseCount : float) (t : leaseTotals) :
  agreeUnlessRounded t →
  agreeUnlessRounded (recordLease serverID key leaseID leaseCount t).
Proof.
  unfold agreeUnlessRounded, recordLease. intros Ht.
  case_decide; [done|]. cbn [sums]. rewrite Forall_app.
  intros [[_ Hagree]%Ht Hexact].
  apply Forall_cons in Hexact as [[_ Hfeature] Hexact].
  apply Forall_cons in Hexact as [[Hfinite Htotal] _].
  cbn [fst snd] in *. unfold totalsAgree. cbn [total featureTotals].
  split; [done|]. rewrite Htotal, Hagree. unfold binary64.addTo.
  rewrite fmap_insert, Hfeature.
  replace (value (default 0%float (featureTotals t !! key)))
    with (default 0 ((value <$> featureTotals t) !! key))
    by (rewrite lookup_fmap; by destruct (featureTotals t !! key)).
  symmetry. apply (mapSum_addTo key (value leaseCount)).
Qed.

Lemma activeLeaseTask_agree (api : Upstream) (job : cls.activeLeaseJob)
    (t t' : leaseTotals) :
  agreeUnlessRounded t → activeLeaseTask api job t = Ok t' →
  agreeUnlessRounded t'.
Proof.
  unfold activeLeaseTask. intros Ht.
  destruct (listActiveLeases api _ _) as [clients|e]; [|done].
  cbn. intros [= <-].
  apply foldl_invariant; [|done]. clear t Ht. intros t client Ht.
  unfold clientBody. case_decide; [done|].
  apply foldl_invariant; [|done]. clear t Ht. intros t lease Ht.
  by apply recordLease_agree.
Qed.

Lemma feature_rows_value (m : gmap cls.activeFeatureKey float) :
  sumQc (value ∘ ServerFeatureActiveLeaseSnapshot.ActiveLeases
           <$> (featureActiveLeaseRow <$> map_to_list m))
  = mapSum (value <$> m).
Proof.
  unfold mapSum. rewrite map_to_list_fmap, <-!list_fmap_compose. f_equal.
  apply list_fmap_ext. by intros _ [key count] _.
Qed.

(** Claim C10, as amended.  The claim, as stated, fails: binary64 sums round,
    and the grand total and a feature total add the same counts in different
    groupings ([active_lease_total_differs_when_rounding]).  What holds of
    the grand total and of the rows per server and feature, which
    [FetchSnapshot] stores in the snapshot as [fetchActiveLeaseUsage] returns
    them: when none of the additions to a feature total or to the grand
    total has rounded, the grand total is finite and is the sum of the rows.
    This holds of the shared variables after any sequence of critical
    sections, so under every schedule of the tasks, and of what
    [fetchActiveLeaseUsage] returns when the tasks run one after the other.
    The sum of the rows per server can be smaller: a lease that names a
    server the group does not have is counted in the grand total and has no
    row. *)
Theorem active_lease_total_is_sum_of_exact_feature_rows :
  (∀ calls : list (string * cls.activeFeatureKey * string * float),
     Forall exactSum (sums (recorded calls)) →
     finite (total (recorded calls)) = true ∧
     value (total (recorded calls))
     = sumQc (value ∘ ServerFeatureActiveLeaseSnapshot.ActiveLeases
                <$> (featureActiveLeaseRow
                       <$> map_to_list (featureTotals (recorded calls))))) ∧
  (∀ (api : Upstream) (serversByVG : gmap Z (list cls.licenseServer))
     (activeByServer : gmap string float)
     (serverRows : list ServerActiveLeaseSnapshot)
     (featureRows : list ServerFeatureActiveLeaseSnapshot)
     (activeLeaseTotal : float),
     fetchActiveLeaseUsage api serversByVG
       = Ok (activeByServer, serverRows, featureRows, activeLeaseTotal) →
     Forall exactSum (additions api serversByVG) →
     finite activeLeaseTotal = true ∧
     value activeLeaseTotal
     = sumQc (value ∘ ServerFeatureActiveLeaseSnapshot.ActiveLeases
                <$> featureRows)) ∧
  (∃ activeByServer serverRows featureRows activeLeaseTotal,
     fetchActiveLeaseUsage scenario.strayLease64API scenario.oneServer
       = Ok (activeByServer, serverRows, featureRows, activeLeaseTotal) ∧
     sumQc (value ∘ ServerActiveLeaseSnapshot.ActiveLeases <$> serverRows)
     < value activeLeaseTotal).
Proof.
  assert (agreeUnlessRounded noLeases) as Hnone.
  { intros _. split; [reflexivity|]. apply Qc_is_canon. reflexivity. }
  split_and!.
  - intros calls Hexact. rewrite feature_rows_value.
    revert Hexact. change (agreeUnlessRounded (recorded calls)).
    unfold recorded. apply (foldl_invariant agreeUnlessRounded); [|done].
    intros t call. apply recordLease_agree.
  - intros api serversByVG activeByServer serverRows featureRows
      activeLeaseTotal.
    unfold fetchActiveLeaseUsage, additions.
    destruct (activeLeaseRun api serversByVG) as [t|e] eqn:Hrun; [|done].
    cbn. intros [= <- <- <- <-] Hexact. rewrite feature_rows_value.
    apply (errgroupRun_invariant agreeUnlessRounded _ _ _ _
             (λ job t t', activeLeaseTask_agree api job t t'))
      in Hrun; [by apply Hrun|exact Hnone].
  - do 4 eexists. split; [vm_compute; reflexivity|]. reflexivity.
Qed.

End binary64_totals.

Section binary64_scenarios.
Import PrimFloat binary64 scenario.

(** The claim fails on [tenthsAPI]: the grand total is
    ((0 + 0.1) + 0.2) + 0.3 = 0.6000000000000001, and the two rows are
    0 + 0.1 = 0.1 and (0 + 0.2) + 0.3 = 0.5, whose sum is 0.6, as rationals
    and as binary64 numbers added in either order. *)
Lemma active_lease_total_differs_when_rounding :
  ∃ activeByServer serverRows featureRows activeLeaseTotal,
    fetchActiveLeaseUsage tenthsAPI oneServer
      = Ok (activeByServer, serverRows, featureRows, activeLeaseTotal) ∧
    activeLeaseTotal = (1 / 10 + 2 / 10 + 3 / 10)%float ∧
    ServerFeatureActiveLeaseSnapshot.ActiveLeases <$> featureRows
    ≡ₚ [(1 / 10)%float; (2 / 10 + 3 / 10)%float] ∧
    value activeLeaseTotal
    ≠ sumQc (value ∘ ServerFeatureActiveLeaseSnapshot.ActiveLeases
               <$> featureRows) ∧
    (activeLeaseTotal =? 1 / 10 + (2 / 10 + 3 / 10))%float = false ∧
    (activeLeaseTotal =? (2 / 10 + 3 / 10) + 1 / 10)%float = false.
Proof.
  do 4 eexists. split; [vm_compute; reflexivity|].
  split; [vm_compute; reflexivity|].
  split; [vm_compute; apply Permutation_swap|].
  split; [apply (bool_decide_unpack _); vm_compute; reflexivity|].
  split; vm_compute; reflexivity.
Qed.

(** [active_lease_total_is_sum_of_exact_feature_rows] on [wholeAPI]: the
    counts 3, 2 and 1 (for the count 0) add up to 6 without rounding, 3 for
    each of the two features. *)
Lemma active_lease_total_whole_counts :
  ∃ activeByServer serverRows featureRows activeLeaseTotal,
    fetchActiveLeaseUsage wholeAPI oneServer
      = Ok (activeByServer, serverRows, featureRows, activeLeaseTotal) ∧
    activeLeaseTotal = 6%float ∧
    ServerFeatureActiveLeaseSnapshot.ActiveLeases <$> featureRows
    = [3%float; 3%float] ∧
    finite activeLeaseTotal = true ∧
    value activeLeaseTotal
    = sumQc (value ∘ ServerFeatureActiveLeaseSnapshot.ActiveLeases
               <$> featureRows).
Proof.
  do 4 eexists. split; [vm_compute; reflexivity|].
  split; [reflexivity|]. split; [reflexivity|].
  eapply (proj1 (proj2 active_lease_total_is_sum_of_exact_feature_rows)
            wholeAPI oneServer); [vm_compute; reflexivity|].
  apply (bool_decide_unpack _). vm_compute. reflexivity.
Defined.

End binary64_scenarios.

(** * Further properties of the cache *)

Section service_composition.
Import snapshot.
Context `{Fetcher F}.

(** A successful refresh followed, less than a TTL later, by [Get]: the
    snapshot just fetched comes back as a cache hit with [Up = 1], and no
    second fetch is made. *)
Theorem Get_hits_after_successful_Refresh (s : Service) (w : World F)
    (fetched : cls.Snapshot) (fetcher' : F) (elapsed d : Duration) :
  FetchSnapshot (fetcher w) (clock w) = (Some fetched, None, fetcher', elapsed) →
  (0 ≤ d < cacheTTL s)%Z →
  ∃ (m1 m : Meta) (s1 : Service) (w1 : World F),
    Refresh s w = Some ((Some fetched, m1, None), s1, w1) ∧
    Up m1 = 1 ∧ CacheHit m1 = false ∧
    Timestamp m1 = CollectedAt fetched ∧
    DurationSeconds m1 = Seconds elapsed ∧
    fetchLog w1 = fetchLog w ++ [true] ∧
    Get s1 (elapse d w1) = Some ((Some fetched, m, None), s1, elapse d w1) ∧
    CacheHit m = true ∧ Up m = 1 ∧ DurationSeconds m = 0 ∧
    Timestamp m = CollectedAt fetched.
Proof.
  intros Hfetch Hd. unfold Refresh. rewrite Hfetch. cbn [clock].
  rewrite Seconds_since. do 4 eexists. split; [reflexivity|].
  do 5 (split; [reflexivity|]). split.
  - unfold Get, elapse. cbn [snapshot clock cachedAt cacheTTL meta].
    rewrite decide_True by lia. reflexivity.
  - by split_and!.
Qed.

(** [Get] calls the fetcher once when nothing is cached or the cached
    snapshot is as old as the TTL, and not at all otherwise. *)
Theorem Get_fetches_at_most_once (s s' : Service) (w w' : World F) (r : reply) :
  Get s w = Some (r, s', w') →
  if decide (is_Some (snapshot s) ∧ (clock w - cachedAt s < cacheTTL s)%Z)
  then fetchLog w' = fetchLog w ∧ s' = s
  else ∃ ok, fetchLog w' = fetchLog w ++ [ok].
Proof.
  unfold Get. intros Hget.
  destruct (decide (is_Some (snapshot s) ∧ _)) as [[[cached Hc] Hage]|Hhit].
  - rewrite Hc in Hget.
    rewrite decide_True in Hget by done. by injection Hget as <- <- <-.
  - destruct (snapshot s) as [cached|] eqn:Hc.
    + rewrite decide_False in Hget by (intros ?; apply Hhit; by eauto).
      destruct (Refresh_fetches_once _ _ _ _ _ Hget) as (ok & ? & _).
      by eauto.
    + destruct (Refresh_fetches_once _ _ _ _ _ Hget) as (ok & ? & _).
      by eauto.
Qed.

(** A refresh that fails while a snapshot is cached does not restart the
    TTL: the time of caching stays, and a [Get] that is still within the TTL
    of the last successful fetch is a cache hit that returns the stale
    snapshot under [Up = 0]. *)
Theorem failed_Refresh_keeps_cache_age (s : Service) (w w2 : World F)
    (stale : cls.Snapshot) (fetched : option cls.Snapshot) (fetchErr : error)
    (fetcher' : F) (elapsed : Duration) :
  FetchSnapshot (fetcher w) (clock w)
    = (fetched, Some fetchErr, fetcher', elapsed) →
  snapshot s = Some stale →
  (clock w2 - cachedAt s < cacheTTL s)%Z →
  ∃ (r : reply) (s' : Service) (w' : World F) (m : Meta),
    Refresh s w = Some (r, s', w') ∧
    cachedAt s' = cachedAt s ∧ cacheTTL s' = cacheTTL s ∧
    Get s' w2 = Some ((Some stale, m, None), s', w2) ∧
    CacheHit m = true ∧ Up m = 0 ∧ Timestamp m = CollectedAt stale.
Proof.
  intros Hfetch Hs Hage. unfold Refresh. rewrite Hfetch, Hs.
  do 4 eexists. split; [reflexivity|]. cbn [cachedAt cacheTTL].
  do 2 (split; [reflexivity|]). split.
  - unfold Get. cbn [snapshot cachedAt cacheTTL meta].
    by rewrite decide_True by done.
  - by split_and!.
Qed.

(** What [Refresh] and [Get] return. *)
Lemma Refresh_reply (s s' : Service) (w w' : World F) (r : reply) :
  Refresh s w = Some (r, s', w') → answered s s' r.
Proof.
  unfold Refresh, answered.
  destruct (FetchSnapshot (fetcher w) (clock w))
    as [[[fetched fetchErr] f'] d].
  destruct fetchErr as [e|];
    [destruct (snapshot s) eqn:Hs|destruct fetched];
    intros [= <- <- <-]; cbn [snapshot meta Up Timestamp]; by rewrite ?Hs.
Qed.

Lemma Get_reply (s s' : Service) (w w' : World F) (r : reply) :
  Get s w = Some (r, s', w') → answered s s' r.
Proof.
  unfold Get. destruct (snapshot s) as [cached|] eqn:Hs;
    [case_decide|]; try by apply Refresh_reply.
  intros [= <- <- <-]. unfold answered. by rewrite Hs.
Qed.

(** What a call returns: a snapshot and no error, under a [Meta] that agrees
    with the committed one on [Up] and [Timestamp]; or no snapshot, the zero
    [Meta] and an error, which happens only while nothing is cached. *)
Theorem reply_has_snapshot_or_error (req : request) (s s' : Service)
    (w w' : World F) (r : reply) :
  serve1 req s w = Some (r, s', w') →
  match r with
  | (Some returned, m, None) =>
      snapshot s' = Some returned ∧
      Up m = Up (meta s') ∧ Timestamp m = Timestamp (meta s')
  | (None, m, Some _) =>
      snapshot s = None ∧ snapshot s' = None ∧ m = zeroMeta ∧
      Up (meta s') = 0
  | _ => False
  end.
Proof.
  destruct req; cbn [serve1]; intros Hcall.
  - by apply Get_reply in Hcall.
  - by apply Refresh_reply in Hcall.
Qed.

Lemma Refresh_consistent (s s' : Service) (w w' : World F) (r : reply) :
  serviceConsistent s → Refresh s w = Some (r, s', w') →
  serviceConsistent s' ∧ cacheTTL s' = cacheTTL s.
Proof.
  unfold serviceConsistent, Refresh. intros (Httl & Hhit & Hup & Hts).
  destruct (FetchSnapshot (fetcher w) (clock w)) as [[[fetched fetchErr] f'] d].
  destruct fetchErr as [e|];
    [destruct (snapshot s) as [stale|] eqn:Hs|destruct fetched as [snap|]];
    intros [= <- <- <-]; cbn [cacheTTL snapshot meta Up Timestamp CacheHit];
    (split; [|done]); split_and!; try done; try (by left); try (by right);
    by intros ? [= <-].
Qed.

Lemma serve_consistent (calls : list (Duration * request)) (s s' : Service)
    (w w' : World F) :
  serviceConsistent s → serve calls s w = Some (s', w') →
  serviceConsistent s' ∧ cacheTTL s' = cacheTTL s.
Proof.
  revert s w. induction calls as [|[d req] calls IH]; intros s w Hs; simpl.
  - by intros [= <- <-].
  - destruct (serve1 req s (elapse d w)) as [[[r s1] w1]|] eqn:Hstep; [|done].
    assert (serviceConsistent s1 ∧ cacheTTL s1 = cacheTTL s) as [Hs1 Httl].
    { destruct req; cbn [serve1] in Hstep;
        [|by eapply Refresh_consistent].
      unfold Get in Hstep. destruct (snapshot s) eqn:Hc; [case_decide|];
        try by eapply Refresh_consistent.
      by injection Hstep as <- <- <-. }
    intros [Hs' Httl']%IH; [|done]. by rewrite Httl', Httl.
Qed.

(** After any calls on a new service the TTL is the configured one, or one
    minute if that was not positive; the committed [Meta] is not a cache hit
    and has [Up] 0 or 1; and whenever a snapshot is cached, the timestamp of
    the [Meta] is its collection time. *)
Theorem service_stays_consistent (ttl : Duration)
    (calls : list (Duration * request)) (w0 w : World F) (s : Service) :
  serve calls (NewService ttl) w0 = Some (s, w) →
  serviceConsistent s ∧
  cacheTTL s = (if decide (ttl ≤ 0)%Z then defaultCacheTTL else ttl).
Proof.
  intros Hserve. eapply serve_consistent in Hserve; [done|].
  unfold serviceConsistent, NewService. cbn [cacheTTL meta snapshot].
  split_and!; [case_decide; [done|lia]|done|by left|done].
Qed.

(** A sequence of calls makes at most one fetch per call, and once a
    snapshot is cached, one stays cached. *)
Theorem serve_fetches_and_keeps_cache (calls : list (Duration * request))
    (s s' : Service) (w w' : World F) :
  serve calls s w = Some (s', w') →
  (length (fetchLog w) ≤ length (fetchLog w') ≤
     length (fetchLog w) + length calls)%nat ∧
  (is_Some (snapshot s) → is_Some (snapshot s')).
Proof.
  revert s w. induction calls as [|[d req] calls IH]; intros s w; simpl.
  - intros [= <- <-]. split; [lia|done].
  - destruct (serve1 req s (elapse d w)) as [[[r s1] w1]|] eqn:Hstep; [|done].
    intros [Hlen Hkeep]%IH.
    assert ((length (fetchLog w) ≤ length (fetchLog w1) ≤
               S (length (fetchLog w)))%nat ∧
            (is_Some (snapshot s) → is_Some (snapshot s1))) as [Hlen1 Hkeep1].
    { assert (∀ w0, Refresh s w0 = Some (r, s1, w1) →
                (length (fetchLog w0) ≤ length (fetchLog w1) ≤
                   S (length (fetchLog w0)))%nat ∧
                (is_Some (snapshot s) → is_Some (snapshot s1))) as Hrefresh.
      { intros w0 (ok & -> & Hok & Hfail)%Refresh_fetches_once.
        rewrite length_app. simpl. split; [lia|].
        destruct ok; [by auto|]. by rewrite Hfail. }
      destruct req; cbn [serve1] in Hstep; [|by apply (Hrefresh _ Hstep)].
      unfold Get in Hstep. destruct (snapshot s) eqn:Hc; [case_decide|];
        try by apply (Hrefresh _ Hstep).
      injection Hstep as <- <- <-. simpl. split; [lia|]. by rewrite Hc. }
    split; [lia|by auto].
Qed.

End service_composition.

Section client_fetcher.
Import snapshot.

Lemma subFetchFails_or_snapshot (api : Upstream) (now : Time) :
  subFetchFails api ∨ ∃ snap, cls.FetchSnapshot api now = Ok snap.
Proof.
  unfold subFetchFails, cls.FetchSnapshot.
  destruct (listVirtualGroups api) as [vgs|e]; [|by left].
  cbn [mbind result_bind].
  destruct (not_Forall_ok_Exists
              (λ vg, isOk (listLicenseServers api (virtualGroup.ID vg))) vgs)
    as [Hservers|Hservers]; [|left; by left].
  destruct (errgroupRun_Ok (serverTask api) _ vgs ∅
              (serverTask_isOk api) Hservers) as [m Hm].
  rewrite Hm. unfold fetchActiveLeaseUsage. cbn [mbind result_bind].
  destruct (not_Forall_ok_Exists
              (λ job, isOk (listActiveLeases api (jobGroupID job)
                              (jobServiceInstanceID job)))
              (activeLeaseJobs m))
    as [Hleases|Hleases]; [|left; right; by eauto].
  destruct (errgroupRun_Ok (activeLeaseTask api) _ _ noLeases
              (activeLeaseTask_isOk api) Hleases) as [t ->].
  cbn [mbind result_bind mret result_ret]. cbv beta iota.
  destruct (not_Forall_ok_Exists
              (λ job : virtualGroup * licenseServer,
                 isOk (listLicensePools api (virtualGroup.ID job.1)
                         (licenseServer.ID job.2)))
              (poolJobs vgs m))
    as [Hpools|Hpools]; [|left; right; by eauto].
  right.
  apply (errgroupRun_Ok _ _ _ _ (poolTask_isOk api (serverTotals t)) Hpools).
Qed.

(** With the client of package [cls] as its fetcher, [Refresh] always
    returns: the client gives a snapshot or an error, never neither.  The
    client is the same afterwards, the clock has advanced by the time the
    fetch took, and the fetch is logged as successful exactly when no call to
    the API failed. *)
Theorem Refresh_with_Client_returns (s : Service) (w : World Client) :
  ∃ (r : reply) (s' : Service) (w' : World Client),
    Refresh s w = Some (r, s', w') ∧
    fetcher w' = fetcher w ∧
    clock w' = (clock w + latency (fetcher w))%Z ∧
    ∃ ok : bool,
      fetchLog w' = fetchLog w ++ [ok] ∧
      (ok = false ↔ subFetchFails (upstream (fetcher w))).
Proof.
  unfold Refresh, FetchSnapshot, Client_Fetcher.
  destruct (cls.FetchSnapshot (upstream (fetcher w)) (clock w))
    as [snap|e] eqn:Hfetch.
  - do 3 eexists. split; [reflexivity|]. do 2 (split; [reflexivity|]).
    exists true. split; [reflexivity|]. split; [done|].
    intros [e He]%(FetchSnapshot_Err _ (clock w)). congruence.
  - assert (subFetchFails (upstream (fetcher w))) as Hfail.
    { destruct (subFetchFails_or_snapshot (upstream (fetcher w)) (clock w)) as [?|[? ?]];
        [done|congruence]. }
    destruct (snapshot s); do 3 eexists; (split; [reflexivity|]);
      do 2 (split; [reflexivity|]); exists false; by split.
Qed.

End client_fetcher.

(** * Further properties of the fetch *)

Section fetch_details.

(** [firstNonEmptyNonBlank] gives the first value that is not blank, trimmed;
    it gives the empty string exactly when every value is blank. *)
Theorem firstNonEmptyNonBlank_first (values : list string) :
  (firstNonEmptyNonBlank values = ""
   ↔ Forall (λ value, TrimSpace value = "") values) ∧
  (∀ blanks value rest,
     values = blanks ++ value :: rest →
     Forall (λ value, TrimSpace value = "") blanks →
     TrimSpace value ≠ "" →
     firstNonEmptyNonBlank values = TrimSpace value).
Proof.
  split.
  - induction values as [|value values IH]; simpl; [by split|].
    case_decide as Hblank.
    + split; [done|]. by intros [? _]%Forall_cons.
    + rewrite IH, Forall_cons. tauto.
  - intros blanks value rest -> Hblanks Hvalue.
    induction Hblanks as [|blank blanks Hblank _ IH]; simpl.
    + by rewrite decide_True.
    + by rewrite decide_False by (by intros ?).
Qed.

(** The entitlement rows are the entitlement features of the groups, each
    under the id and the name of its group; there are as many rows as
    features. *)
Theorem extractEntitlementFeatureMetrics_rows (virtualGroups : list virtualGroup) :
  (∀ row,
     row ∈ extractEntitlementFeatureMetrics virtualGroups ↔
     ∃ vg entitlement key feature,
       vg ∈ virtualGroups ∧
       entitlement ∈ virtualGroup.Entitlements vg ∧
       key ∈ entitlementSummary.EntitlementProductKeys entitlement ∧
       feature ∈ entitlementProductKey.EntitlementFeatures key ∧
       row = entitlementRow vg feature) ∧
  length (extractEntitlementFeatureMetrics virtualGroups)
  = sum_list
      ((λ vg,
          sum_list
            ((λ entitlement,
                sum_list
                  ((λ key,
                      length (entitlementProductKey.EntitlementFeatures key))
                     <$> entitlementSummary.EntitlementProductKeys
                           entitlement))
               <$> virtualGroup.Entitlements vg))
         <$> virtualGroups).
Proof.
  assert (∀ {A B} (f : A → list B) (l : list A),
            length (l ≫= f) = sum_list ((λ x, length (f x)) <$> l)) as Hlen.
  { intros A B f l. induction l as [|x l IH]; [done|].
    by rewrite bind_cons, fmap_cons, length_app, IH. }
  unfold extractEntitlementFeatureMetrics. split.
  - intros row. rewrite list_elem_of_bind. split.
    + intros (vg & (e & (k & (f & ->%list_elem_of_singleton & Hf)
                          %list_elem_of_bind & Hk)
                     %list_elem_of_bind & He)%list_elem_of_bind & Hvg).
      by exists vg, e, k, f.
    + intros (vg & e & k & f & Hvg & He & Hk & Hf & ->).
      exists vg. split; [|done]. apply list_elem_of_bind. exists e.
      split; [|done]. apply list_elem_of_bind. exists k.
      split; [|done]. apply list_elem_of_bind. exists f.
      split; [|done]. by apply list_elem_of_singleton.
  - rewrite Hlen. f_equal. apply list_fmap_ext. intros _ vg _.
    rewrite Hlen. f_equal. apply list_fmap_ext. intros _ e _.
    rewrite Hlen. f_equal. apply list_fmap_ext. intros _ k _.
    rewrite Hlen. induction (entitlementProductKey.EntitlementFeatures k);
      simpl; [done|]. by f_equal.
Qed.

Lemma errgroupRun_serverTask (api : Upstream) (virtualGroups : list virtualGroup)
    (m0 m : gmap Z (list licenseServer)) :
  errgroupRun (serverTask api) virtualGroups m0 = Ok m →
  Forall (λ vg, isOk (listLicenseServers api (virtualGroup.ID vg)) = true)
    virtualGroups ∧
  ∀ gid,
    m !! gid
    = match last (filter (λ vg, virtualGroup.ID vg = gid) virtualGroups) with
      | Some vg => Some (backfillGroup vg <$> serversOf api gid)
      | None => m0 !! gid
      end.
Proof.
  revert m0. induction virtualGroups as [|vg vgs IH]; intros m0; simpl.
  - by intros [= <-].
  - unfold serverTask at 1.
    destruct (listLicenseServers api (virtualGroup.ID vg)) as [raw|e] eqn:Hraw;
      [|done].
    cbn [wrapErr mbind result_bind mret result_ret].
    intros [Hall Hm]%IH. split; [constructor; [by rewrite Hraw|done]|].
    intros gid. rewrite Hm, filter_cons.
    destruct (decide (virtualGroup.ID vg = gid)) as [<-|Hne].
    + destruct (filter _ vgs) as [|vg' rest] eqn:Hrest; simpl.
      * rewrite lookup_insert_eq. unfold serversOf. by rewrite Hraw.
      * destruct (last (vg' :: rest)) eqn:Hlast; [done|].
        by apply last_None in Hlast.
    + destruct (last (filter _ vgs)); [done|]. by rewrite lookup_insert_ne.
Qed.

(** After the second phase the map has an entry for the id of every group
    and for nothing else; the entry is the list of servers the API gave for
    that id, backfilled from the last group with that id. *)
Theorem servers_by_group (api : Upstream) (virtualGroups : list virtualGroup)
    (serversByVG : gmap Z (list licenseServer)) :
  errgroupRun (serverTask api) virtualGroups ∅ = Ok serversByVG →
  (∀ gid, is_Some (serversByVG !! gid)
          ↔ gid ∈ virtualGroup.ID <$> virtualGroups) ∧
  (∀ gid servers,
     serversByVG !! gid = Some servers →
     ∃ vg raw,
       last (filter (λ vg, virtualGroup.ID vg = gid) virtualGroups) = Some vg ∧
       listLicenseServers api gid = Ok raw ∧
       servers = backfillGroup vg <$> raw).
Proof.
  intros [Hall Hm]%errgroupRun_serverTask.
  assert (∀ gid vg,
            last (filter (λ vg, virtualGroup.ID vg = gid) virtualGroups)
            = Some vg →
            vg ∈ virtualGroups ∧ virtualGroup.ID vg = gid) as Hlast.
  { intros gid vg Hvg. apply last_Some in Hvg as [pre Hpre].
    assert (vg ∈ filter (λ vg, virtualGroup.ID vg = gid) virtualGroups)
      as [? ?]%list_elem_of_filter; [|done].
    rewrite Hpre. apply elem_of_app. right. apply list_elem_of_here. }
  split.
  - intros gid. rewrite Hm, list_elem_of_fmap. split.
    + destruct (last _) as [vg|] eqn:Hvg; [|by intros [? ?]].
      intros _. destruct (Hlast _ _ Hvg) as [? <-]. by exists vg.
    + intros (vg & -> & Hvg).
      destruct (last _) as [vg'|] eqn:Hvg'; [done|].
      apply last_None in Hvg'.
      assert (vg ∈ filter (λ vg0, virtualGroup.ID vg0 = virtualGroup.ID vg)
                     virtualGroups) as Hin by (by apply list_elem_of_filter).
      rewrite Hvg' in Hin. by apply elem_of_nil in Hin.
  - intros gid servers. rewrite Hm.
    destruct (last _) as [vg|] eqn:Hvg; [|done]. intros [= <-].
    destruct (Hlast _ _ Hvg) as [Hin <-].
    rewrite Forall_forall in Hall. specialize (Hall _ Hin).
    unfold serversOf.
    destruct (listLicenseServers api (virtualGroup.ID vg)) as [raw|e];
      [|done].
    by exists vg, raw.
Qed.

(** An error of a fan-out is the error of one of its tasks. *)
Lemma errgroupRun_Err_inv {A S : Type} (task : A → S → result S)
    (l : list A) (s : S) (e : error) :
  errgroupRun task l s = Err e → ∃ x s', x ∈ l ∧ task x s' = Err e.
Proof.
  revert s. induction l as [|x l IH]; intros s; simpl; [done|].
  destruct (task x s) as [s1|e1] eqn:Htask.
  - intros (y & s' & Hy & Hs')%IH. exists y, s'. split; [by right|done].
  - intros [= <-]. exists x, s. split; [by left|done].
Qed.

(** The error of a failed fetch says which call failed: it is the error of
    listing the groups as it is, or the error of listing the servers of a
    group, the leases of a group and service instance, or the pools of a
    server, wrapped with the ids the call was made for. *)
Theorem FetchSnapshot_error_names_call (api : Upstream) (now : Time)
    (e : error) :
  FetchSnapshot api now = Err e →
  listVirtualGroups api = Err e ∨
  (∃ gid cause,
     e = ListLicenseServersError gid cause ∧
     listLicenseServers api gid = Err cause) ∨
  (∃ gid serviceInstanceID cause,
     e = ListActiveLeasesError gid serviceInstanceID cause ∧
     listActiveLeases api gid serviceInstanceID = Err cause) ∨
  (∃ serverID gid cause,
     e = ListLicensePoolsError serverID gid cause ∧
     listLicensePools api gid serverID = Err cause).
Proof.
  unfold FetchSnapshot.
  destruct (listVirtualGroups api) as [vgs|e0]; [|intros [= <-]; by left].
  cbn [mbind result_bind].
  destruct (errgroupRun (serverTask api) vgs ∅) as [m|e1] eqn:Hservers.
  - cbn [mbind result_bind]. unfold fetchActiveLeaseUsage.
    destruct (errgroupRun (activeLeaseTask api) _ noLeases) as [t|e2]
      eqn:Hleases.
    + cbn [mbind result_bind mret result_ret]. cbv beta iota.
      intros ([vg server] & s' & _ & Htask)%errgroupRun_Err_inv.
      unfold poolTask in Htask.
      destruct (listLicensePools api _ _) as [pools|cause] eqn:Hpools.
      * cbn [wrapErr mbind result_bind mret result_ret] in Htask.
        by destruct (poolTaskRows _ _ _) as [[? ?] ?].
      * injection Htask as <-. do 3 right. by eauto.
    + cbn [mbind result_bind]. intros [= <-].
      apply errgroupRun_Err_inv in Hleases as (job & t & _ & Htask).
      unfold activeLeaseTask in Htask.
      destruct (listActiveLeases api _ _) as [clients|cause] eqn:Hcl; [done|].
      injection Htask as <-. right. right. left. by eauto.
  - cbn [mbind result_bind]. intros [= <-].
    apply errgroupRun_Err_inv in Hservers as (vg & m' & _ & Htask).
    unfold serverTask in Htask.
    destruct (listLicenseServers api _) as [raw|cause] eqn:Hraw; [done|].
    injection Htask as <-. right. left. by eauto.
Qed.

(** ** The index of a group and the tasks of the third phase *)

Lemma foldl_indexServer (servers : list licenseServer) (ix : groupIndex) :
  let ix' := foldl indexServer ix servers in
  (∀ si, si ∈ serviceInstanceIDs ix' ↔
         si ∈ serviceInstanceIDs ix ∨
         ∃ server, server ∈ servers ∧
                   TrimSpace (licenseServer.ServiceInstanceID server) ≠ "" ∧
                   licenseServer.ServiceInstanceID server = si) ∧
  (∀ sid, serverByID ix' !! sid
          = match last (filter (λ server, licenseServer.ID server = sid)
                          servers) with
            | Some server => Some server
            | None => serverByID ix !! sid
            end).
Proof.
  revert ix. induction servers as [|server servers IH]; intros ix.
  - split; [|done]. intros si. split; [by left|].
    by intros [?|(? & ?%elem_of_nil & _)].
  - cbn [foldl]. destruct (IH (indexServer ix server)) as [Hsi Hid].
    cbv zeta. split.
    + intros si. rewrite Hsi. cbn [indexServer serviceInstanceIDs].
      split.
      * intros [Hin|(server' & Hin & Hne & <-)].
        -- case_decide as Hblank.
           ++ apply elem_of_union in Hin as [->%elem_of_singleton|?];
                [right; exists server; split; [by left|done]|by left].
           ++ by left.
        -- right. exists server'. split; [by right|done].
      * intros [Hin|(server' & [->|Hin]%elem_of_cons & Hne & <-)].
        -- left. case_decide; [apply elem_of_union; by right|done].
        -- left. rewrite decide_True by done.
           apply elem_of_union. left. by apply elem_of_singleton.
        -- right. by exists server'.
    + intros sid. rewrite Hid, filter_cons.
      cbn [indexServer serverByID].
      destruct (decide (licenseServer.ID server = sid)) as [<-|Hne].
      * destruct (filter _ servers) as [|s1 rest] eqn:Hrest; simpl.
        -- by rewrite lookup_insert_eq.
        -- destruct (last (s1 :: rest)) eqn:Hlast; [done|].
           by apply last_None in Hlast.
      * destruct (last (filter _ servers)); [done|].
        by rewrite lookup_insert_ne.
Qed.

(** The service instances of the index of a group. *)
Lemma indexServers_serviceInstanceIDs (servers : list licenseServer)
    (si : string) :
  si ∈ serviceInstanceIDs (indexServers servers) ↔
  ∃ server, server ∈ servers ∧
            TrimSpace (licenseServer.ServiceInstanceID server) ≠ "" ∧
            licenseServer.ServiceInstanceID server = si.
Proof.
  unfold indexServers.
  destruct (foldl_indexServer servers
              {| serverByID := ∅; featureByAllotmentID := ∅;
                 serviceInstanceIDs := ∅ |}) as [Hsi _].
  cbv zeta in *. rewrite Hsi. cbn [serviceInstanceIDs].
  split; [intros [?%not_elem_of_empty|?]; done|by right].
Qed.

(** The index of a group: the service instances are the non-blank ones its
    servers name, and an id looks up the last server of the list that has
    it. *)
Theorem indexServers_lookup (servers : list licenseServer) :
  (∀ si, si ∈ serviceInstanceIDs (indexServers servers) ↔
         ∃ server, server ∈ servers ∧
                   TrimSpace (licenseServer.ServiceInstanceID server) ≠ "" ∧
                   licenseServer.ServiceInstanceID server = si) ∧
  (∀ sid, serverByID (indexServers servers) !! sid
          = last (filter (λ server, licenseServer.ID server = sid) servers)).
Proof.
  split; [apply indexServers_serviceInstanceIDs|].
  unfold indexServers.
  destruct (foldl_indexServer servers
              {| serverByID := ∅; featureByAllotmentID := ∅;
                 serviceInstanceIDs := ∅ |}) as [_ Hid].
  cbv zeta in *. intros sid. rewrite Hid. cbn [serverByID].
  by destruct (last _).
Qed.

(** The third phase asks for the leases of a group once per service instance
    that a server of the group names with a non-blank id, and of no other
    group or service instance; a group without servers is not asked for. *)
Theorem activeLeaseJobs_pairs (serversByVG : gmap Z (list licenseServer)) :
  (∀ job,
     job ∈ activeLeaseJobs serversByVG ↔
     ∃ first rest,
       serversByVG !! jobGroupID job = Some (first :: rest) ∧
       jobGroupName job = licenseServer.VirtualGroupName first ∧
       jobIndex job = indexServers (first :: rest) ∧
       ∃ server,
         server ∈ first :: rest ∧
         TrimSpace (licenseServer.ServiceInstanceID server) ≠ "" ∧
         licenseServer.ServiceInstanceID server = jobServiceInstanceID job) ∧
  NoDup ((λ job, (jobGroupID job, jobServiceInstanceID job))
           <$> activeLeaseJobs serversByVG).
Proof.
  assert (∀ job,
     job ∈ activeLeaseJobs serversByVG ↔
     ∃ first rest,
       serversByVG !! jobGroupID job = Some (first :: rest) ∧
       jobGroupName job = licenseServer.VirtualGroupName first ∧
       jobIndex job = indexServers (first :: rest) ∧
       ∃ server,
         server ∈ first :: rest ∧
         TrimSpace (licenseServer.ServiceInstanceID server) ≠ "" ∧
         licenseServer.ServiceInstanceID server = jobServiceInstanceID job)
    as Hjobs.
  { intros job. unfold activeLeaseJobs. rewrite list_elem_of_bind. split.
    - intros ([gid [|first rest]] & Hjob & Hin%elem_of_map_to_list);
        [by apply elem_of_nil in Hjob|].
      apply list_elem_of_bind in Hjob
        as (si & ->%list_elem_of_singleton & Hsi%elem_of_elements).
      apply indexServers_serviceInstanceIDs in Hsi.
      by exists first, rest.
    - intros (first & rest & Hm & Hname & Hix & Hsi).
      exists (jobGroupID job, first :: rest).
      split; [|by apply elem_of_map_to_list].
      apply list_elem_of_bind. exists (jobServiceInstanceID job). split.
      + apply list_elem_of_singleton. destruct job; simpl in *. by subst.
      + apply elem_of_elements. by apply indexServers_serviceInstanceIDs. }
  split; [done|].
  apply NoDup_fmap_2_strong.
  - intros job1 job2 (f1 & r1 & Hm1 & Hn1 & Hi1 & _)%Hjobs
      (f2 & r2 & Hm2 & Hn2 & Hi2 & _)%Hjobs [= Hgid Hsi].
    rewrite Hgid, Hm2 in Hm1. injection Hm1 as <- <-.
    destruct job1, job2; simpl in *. by subst.
  - unfold activeLeaseJobs. apply NoDup_bind; [| |apply NoDup_map_to_list].
    + intros [g1 l1] [g2 l2] job Hin1%elem_of_map_to_list
        Hin2%elem_of_map_to_list Hj1 Hj2.
      assert (jobGroupID job = g1 ∧ jobGroupID job = g2) as [<- <-].
      { destruct l1, l2; try by apply elem_of_nil in Hj1.
        - by apply elem_of_nil in Hj2.
        - apply list_elem_of_bind in Hj1 as (? & ->%list_elem_of_singleton & _).
          apply list_elem_of_bind in Hj2 as (? & Heq%list_elem_of_singleton & _).
          by injection Heq as -> _ _ _. }
      rewrite Hin1 in Hin2. by injection Hin2 as <-.
    + intros [gid [|first rest]] _; [constructor|].
      apply NoDup_bind; [| |apply NoDup_elements].
      * intros si1 si2 job _ _ ->%list_elem_of_singleton
          Heq%list_elem_of_singleton. by injection Heq.
      * intros si _. apply NoDup_singleton.
Qed.

(** ** The rows of active leases *)

Lemma visitAmount_pos (v : leaseVisit) : 0 < visitAmount v.
Proof.
  unfold visitAmount. case_decide as Hcount; [reflexivity|].
  by apply Qcnot_le_lt.
Qed.

Lemma sumQc_visitAmount_pos (v : leaseVisit) (l : list leaseVisit) :
  0 < sumQc (visitAmount <$> v :: l).
Proof.
  rewrite fmap_cons, sumQc_cons.
  apply Qcplus_pos_nonneg; [apply visitAmount_pos|].
  induction l as [|u l IH]; [apply Qcle_refl|].
  rewrite fmap_cons, sumQc_cons.
  apply Qcplus_nonneg_nonneg; [apply Qclt_le_weak, visitAmount_pos|done].
Qed.

Lemma totalOf_pos (l : list leaseVisit) (x : float64) :
  totalOf l = Some x → 0 < x ∧ ∃ v, v ∈ l.
Proof.
  destruct l as [|v l]; [done|]. intros [= <-].
  split; [apply sumQc_visitAmount_pos|]. exists v. by left.
Qed.

Lemma TrimSpace_unknown : TrimSpace "unknown" = "unknown".
Proof. reflexivity. Qed.

Lemma firstNonEmptyNonBlank_or_unknown (value : string) :
  firstNonEmptyNonBlank [value; "unknown"] ≠ "".
Proof.
  cbn [firstNonEmptyNonBlank]. case_decide; [done|].
  rewrite TrimSpace_unknown. by rewrite decide_True.
Qed.

(** A visited lease has a server id and a server name. *)
Lemma fetchedVisits_named (api : Upstream)
    (serversByVG : gmap Z (list licenseServer)) (v : leaseVisit) :
  v ∈ fetchedVisits api serversByVG →
  visitServerID v ≠ "" ∧ visitServerName v ≠ "".
Proof.
  unfold fetchedVisits. intros (job & Hv & _)%list_elem_of_bind.
  unfold jobVisits in Hv.
  destruct (listActiveLeases api _ _) as [clients|e];
    [|by apply elem_of_nil in Hv].
  apply list_elem_of_bind in Hv as (client & Hv & _).
  unfold clientVisits in Hv. case_decide as Hid; [by apply elem_of_nil in Hv|].
  apply list_elem_of_fmap in Hv as (lease & -> & _).
  cbn [visitServerID visitServerName]. split; [done|].
  by case_decide.
Qed.

(** Every row of active leases per server and feature of a snapshot has a
    server id, a server name, a feature name, a product name and a license
    type that are not empty, and a positive count. *)
Theorem feature_rows_labelled (api : Upstream) (now : Time) (snap : Snapshot) :
  FetchSnapshot api now = Ok snap →
  Forall featureRowLabelled (ServerFeatureActiveLeases snap).
Proof.
  intros (vgs & m & a & sr & fr & tot & _ & _ & Hleases & Hpools)
    %FetchSnapshot_Ok_inv.
  apply errgroupRun_poolTask in Hpools as (_ & _ & -> & _).
  cbn [ServerFeatureActiveLeases].
  apply fetchActiveLeaseUsage_visits in Hleases as (_ & _ & -> & _).
  destruct (visits_counted_once (fetchedVisits api m))
    as (counted & Hsub & _ & _ & _ & _ & Hfeature).
  apply Forall_fmap, Forall_forall.
  intros [key x] Hin%elem_of_map_to_list. rewrite Hfeature in Hin.
  apply totalOf_pos in Hin as [Hpos [v Hv]].
  apply list_elem_of_filter in Hv as [<- Hv].
  apply (elem_of_sublist _ _ _ Hv) in Hsub.
  apply fetchedVisits_named in Hsub as [Hid Hname].
  unfold featureRowLabelled, featureActiveLeaseRow, visitKey, leaseKey.
  cbn. split_and!; try done; apply firstNonEmptyNonBlank_or_unknown.
Qed.

(** Every row of active leases per server of a snapshot has a positive
    count, and the usage row of a server with the same id has that count as
    its [InUse]. *)
Theorem server_rows_agree (api : Upstream) (now : Time) (snap : Snapshot)
    (leases : ServerActiveLeaseSnapshot) :
  FetchSnapshot api now = Ok snap →
  leases ∈ ServerActiveLeases snap →
  0 < ServerActiveLeaseSnapshot.ActiveLeases leases ∧
  ∀ usage,
    usage ∈ ServerUsage snap →
    ServerUsageSnapshot.ServerID usage
    = ServerActiveLeaseSnapshot.ServerID leases →
    ServerUsageSnapshot.InUse usage
    = ServerActiveLeaseSnapshot.ActiveLeases leases.
Proof.
  intros (vgs & m & a & sr & fr & tot & _ & _ & Hleases & Hpools)
    %FetchSnapshot_Ok_inv.
  apply errgroupRun_poolTask in Hpools as (_ & -> & _ & _ & -> & _).
  cbn [ServerActiveLeases ServerUsage app].
  apply fetchActiveLeaseUsage_visits in Hleases as (-> & -> & _ & _).
  destruct (visits_counted_once (fetchedVisits api m))
    as (counted & _ & _ & _ & _ & Hserver & _).
  set (t := foldl visit noLeases (fetchedVisits api m)) in *.
  unfold serverActiveLeaseRows.
  intros ([gid servers] & (server & Hrow & _)%list_elem_of_bind & _)
    %list_elem_of_bind.
  destruct (serverTotals t !! licenseServer.ID server) as [count|] eqn:Hcount;
    [|by apply elem_of_nil in Hrow].
  apply list_elem_of_singleton in Hrow as ->.
  cbn [ServerActiveLeaseSnapshot.ActiveLeases
         ServerActiveLeaseSnapshot.ServerID].
  split.
  - rewrite Hserver in Hcount. by apply totalOf_pos in Hcount as [? _].
  - intros usage (job & -> & _)%list_elem_of_fmap.
    destruct (poolTaskRows_usage api (serverTotals t) job)
      as (Hid & _ & Huse).
    rewrite Hid. intros Heq. rewrite Heq, Hcount in Huse. by destruct Huse.
Qed.

(** ** Distinct lease ids *)



(** ** The rows of pools and capacity *)

Lemma foldl_insert_last `{Countable K} {A : Type} (key : A → K) (l : list A)
    (m0 : gmap K A) (k : K) :
  foldl (λ m x, <[key x := x]> m) m0 l !! k
  = match last (filter (λ x, key x = k) l) with
    | Some x => Some x
    | None => m0 !! k
    end.
Proof.
  revert m0. induction l as [|x l IH]; intros m0; [done|].
  cbn [foldl]. rewrite IH, filter_cons.
  destruct (decide (key x = k)) as [<-|Hne].
  - destruct (filter _ l) as [|y rest] eqn:Hrest; simpl.
    + by rewrite lookup_insert_eq.
    + destruct (last (y :: rest)) eqn:Hlast; [done|].
      by apply last_None in Hlast.
  - destruct (last (filter _ l)); [done|]. by rewrite lookup_insert_ne.
Qed.

Lemma rollupPools_rows (server : licenseServer)
    (featureByID : gmap string licenseServerFeature)
    (pools : list licensePool) :
  poolUsage (rollupPools server featureByID pools)
  = poolEntries pools ≫=
      (λ entry,
         poolUsage
           (poolFeatureBody server featureByID entry.1
              {| poolUsage := []; serverAllocated := 0; serverInUse := 0 |}
              entry.2)).
Proof.
  unfold rollupPools, poolEntries.
  set (acc0 := {| poolUsage := []; serverAllocated := 0; serverInUse := 0 |}).
  assert (∀ pool features acc,
            poolUsage (foldl (poolFeatureBody server featureByID pool) acc
                         features)
            = poolUsage acc ++
              (features ≫= λ feature,
                 poolUsage (poolFeatureBody server featureByID pool acc0
                              feature))) as Hinner.
  { intros pool features. induction features as [|feature features IH];
      intros acc; [by rewrite app_nil_r|].
    cbn [foldl]. rewrite IH, bind_cons.
    cbn [poolFeatureBody poolUsage]. by rewrite <-app_assoc. }
  assert (∀ acc,
            poolUsage
              (foldl (λ acc pool,
                        foldl (poolFeatureBody server featureByID pool) acc
                          (licensePool.LicensePoolFeatures pool)) acc pools)
            = poolUsage acc ++
              ((pools ≫= λ pool,
                  pair pool <$> licensePool.LicensePoolFeatures pool) ≫=
               λ entry,
                 poolUsage (poolFeatureBody server featureByID entry.1 acc0
                              entry.2))) as Houter.
  { induction pools as [|pool pools IH]; intros acc; [by rewrite app_nil_r|].
    cbn [foldl]. rewrite IH, Hinner, !bind_cons, bind_app, <-app_assoc.
    do 2 f_equal.
    induction (licensePool.LicensePoolFeatures pool) as [|f fs IHf];
      [done|].
    by rewrite fmap_cons, !bind_cons, IHf. }
  by rewrite Houter.
Qed.

(** The pool rows of a task, against the pools listed. *)
Lemma poolTaskRows_rows (activeByServer : gmap string float64)
    (server : licenseServer) (pools : list licensePool) :
  Forall2 (poolRowOf server) (poolEntries pools)
    (poolTaskRows activeByServer server pools).1.1.
Proof.
  unfold poolTaskRows. cbn [fst snd].
  set (featureByID :=
         foldl (λ m feature, <[licenseServerFeature.ID feature:=feature]> m)
           ∅ (licenseServer.LicenseServerFeatures server)).
  rewrite rollupPools_rows. unfold poolEntries.
  induction (pools ≫= _) as [|[pool feature] entries IH];
    [constructor|].
  rewrite bind_cons. cbn [poolFeatureBody poolUsage app fst snd].
  constructor; [|done]. unfold poolRowOf. cbn.
  unfold featureByID. rewrite foldl_insert_last, lookup_empty.
  by destruct (last _).
Qed.

(** The pool rows a pool task builds are one per pool and feature, in the
    order of the pools and of their features; the names of a row are those of
    the last feature the server declares under the row's feature id, and are
    empty when the server declares none; the allocations of the rows add up
    to the allocation of the usage row of the server. *)
Theorem pool_rows_of_server (activeByServer : gmap string float64)
    (server : licenseServer) (pools : list licensePool) :
  let rows := poolTaskRows activeByServer server pools in
  Forall2 (poolRowOf server) (poolEntries pools) rows.1.1 ∧
  sumQc (PoolUsageSnapshot.Allocated <$> rows.1.1)
  = ServerUsageSnapshot.Allocated rows.1.2.
Proof.
  split; [apply poolTaskRows_rows|].
  unfold poolTaskRows. cbn [fst snd].
  set (featureByID :=
         foldl (λ m feature, <[licenseServerFeature.ID feature:=feature]> m)
           ∅ (licenseServer.LicenseServerFeatures server)).
  rewrite rollupPools_rows.
  destruct (rollupPools_spec server featureByID pools) as (Ha & _ & _).
  cbv zeta in Ha. cbn [serverUsageRow ServerUsageSnapshot.Allocated].
  rewrite Ha. clear Ha. unfold poolFeatures, poolEntries.
  induction pools as [|pool pools IH]; [done|].
  rewrite !bind_cons, bind_app, !fmap_app, !sumQc_app, IH. f_equal.
  induction (licensePool.LicensePoolFeatures pool) as [|f fs IHf];
    [done|].
  rewrite !fmap_cons, bind_cons, fmap_app, sumQc_app, !sumQc_cons, IHf.
  cbn. ring.
Qed.

Lemma poolTask_Ok_capacity (api : Upstream)
    (activeByServer : gmap string float64)
    (job : virtualGroup * licenseServer) (s0 s : Snapshot) :
  poolTask api activeByServer job s0 = Ok s →
  EntitlementFeatures s = EntitlementFeatures s0 ∧
  ServerFeatureCapacity s
  = ServerFeatureCapacity s0 ++
    (serverFeatureCapacityRow job.2
       <$> licenseServer.LicenseServerFeatures job.2).
Proof.
  destruct job as [vg server]. unfold poolTask. cbn [fst snd].
  destruct (listLicensePools _ _ _) as [pools|e]; [|done].
  cbn [wrapErr mbind result_bind mret result_ret]. cbv beta.
  unfold poolTaskRows. by intros [= <-].
Qed.

Lemma errgroupRun_poolTask_capacity (api : Upstream)
    (activeByServer : gmap string float64)
    (jobs : list (virtualGroup * licenseServer)) (s0 s : Snapshot) :
  errgroupRun (poolTask api activeByServer) jobs s0 = Ok s →
  EntitlementFeatures s = EntitlementFeatures s0 ∧
  ServerFeatureCapacity s
  = ServerFeatureCapacity s0 ++
    (jobs ≫= λ job,
       serverFeatureCapacityRow job.2
         <$> licenseServer.LicenseServerFeatures job.2).
Proof.
  revert s0. induction jobs as [|job jobs IH]; intros s0; cbn [errgroupRun].
  - intros [= <-]. by rewrite app_nil_r.
  - destruct (poolTask api activeByServer job s0) as [s1|e] eqn:Htask; [|done].
    apply poolTask_Ok_capacity in Htask as [H1 H2].
    intros [-> ->]%IH. rewrite H1, H2, bind_cons. by rewrite <-app_assoc.
Qed.

(** What a snapshot holds: the time it was asked for; the entitlement rows of
    the groups; a capacity row for every feature a server declares, with the
    declared quantity; a usage row for every server of every group; and a pool
    row for every feature of every pool listed for a server. *)
Theorem snapshot_contents (api : Upstream) (now : Time) (snap : Snapshot) :
  FetchSnapshot api now = Ok snap →
  ∃ virtualGroups serversByVG,
    listVirtualGroups api = Ok virtualGroups ∧
    errgroupRun (serverTask api) virtualGroups ∅ = Ok serversByVG ∧
    CollectedAt snap = now ∧
    EntitlementFeatures snap
    = extractEntitlementFeatureMetrics virtualGroups ∧
    ServerFeatureCapacity snap
    = (poolJobs virtualGroups serversByVG ≫= λ job,
         serverFeatureCapacityRow job.2
           <$> licenseServer.LicenseServerFeatures job.2) ∧
    length (ServerUsage snap) = length (poolJobs virtualGroups serversByVG) ∧
    Forall2 (λ entry row, poolRowOf entry.1 entry.2 row)
      (poolJobs virtualGroups serversByVG ≫= λ job,
         pair job.2 <$> poolEntries (poolsOf api job))
      (PoolUsage snap).
Proof.
  intros (vgs & m & a & sr & fr & tot & Hvgs & Hm & _ & Hpools)
    %FetchSnapshot_Ok_inv.
  exists vgs, m. split; [done|]. split; [done|].
  destruct (errgroupRun_poolTask_capacity _ _ _ _ _ Hpools) as [-> ->].
  apply errgroupRun_poolTask in Hpools as (-> & _ & _ & _ & -> & ->).
  cbn [CollectedAt EntitlementFeatures ServerFeatureCapacity ServerUsage
         PoolUsage app].
  split_and!; try done.
  - by rewrite length_fmap.
  - apply Forall2_bind, Forall_Forall2_diag, Forall_forall. intros job _.
    apply Forall2_fmap_l.
    apply (poolTaskRows_rows a job.2 (poolsOf api job)).
Qed.

End fetch_details.

(** * Properties of strings *)

Section strings.

Lemma app_String (a : ascii) (s1 s2 : string) :
  String a s1 +:+ s2 = String a (s1 +:+ s2).
Proof. reflexivity. Qed.

Lemma app_empty_r (s : string) : s +:+ "" = s.
Proof. induction s as [|a s IH]; [done|]. by rewrite app_String, IH. Qed.

Lemma app_assoc_string (s1 s2 s3 : string) :
  (s1 +:+ s2) +:+ s3 = s1 +:+ (s2 +:+ s3).
Proof.
  induction s1 as [|a s1 IH]; [done|]. by rewrite !app_String, IH.
Qed.

Lemma rev_app_spec (s acc : string) :
  String.rev_app s acc = String.rev s +:+ acc.
Proof.
  unfold String.rev. revert acc.
  induction s as [|a s IH]; intros acc; simpl; [done|].
  rewrite IH, (IH (String a "")), app_assoc_string. done.
Qed.

Lemma rev_String (a : ascii) (s : string) :
  String.rev (String a s) = String.rev s +:+ String a "".
Proof. unfold String.rev at 1. simpl. apply rev_app_spec. Qed.

Lemma rev_app_distr (s1 s2 : string) :
  String.rev (s1 +:+ s2) = String.rev s2 +:+ String.rev s1.
Proof.
  induction s1 as [|a s1 IH].
  - by rewrite app_empty_r.
  - by rewrite app_String, !rev_String, IH, app_assoc_string.
Qed.

Lemma rev_involutive (s : string) : String.rev (String.rev s) = s.
Proof.
  induction s as [|a s IH]; [done|].
  by rewrite rev_String, rev_app_distr, IH.
Qed.

Lemma length_app_string (s1 s2 : string) :
  String.length (s1 +:+ s2) = (String.length s1 + String.length s2)%nat.
Proof. induction s1 as [|a s1 IH]; [done|]. rewrite app_String. simpl. by rewrite IH. Qed.

Lemma substring_app (s1 s2 : string) :
  String.substring 0 (String.length s1) (s1 +:+ s2) = s1.
Proof.
  induction s1 as [|a s1 IH]; [by destruct s2|].
  rewrite app_String. simpl. by rewrite IH.
Qed.

Lemma TrimSuffix_app (s suffix : string) :
  TrimSuffix (s +:+ suffix) suffix = s.
Proof.
  unfold TrimSuffix, HasSuffix. rewrite rev_app_distr.
  assert (String.prefix (String.rev suffix)
            (String.rev suffix +:+ String.rev s) = true) as ->.
  { apply String.prefix_correct. apply substring_app. }
  rewrite length_app_string.
  replace (String.length s + String.length suffix - String.length suffix)%nat
    with (String.length s) by lia.
  apply substring_app.
Qed.

(** [trimLeading] gives a suffix of its argument. *)
Lemma trimLeading_suffix (back : bool) (s : string) :
  ∃ p, s = p +:+ trimLeading back s.
Proof.
  remember (String.length s) as n eqn:Hn.
  revert s Hn. induction (lt_wf n) as [n _ IH]. intros s ->.
  destruct s as [|c1 rest1]; simpl; [by exists ""|].
  destruct (asciiSpace c1).
  { destruct (IH (String.length rest1) ltac:(simpl; lia) rest1 eq_refl)
      as [p Hp].
    exists (String c1 p). rewrite app_String. by rewrite <- Hp. }
  destruct rest1 as [|c2 rest2]; [by exists ""|].
  destruct (if back then space2 c2 c1 else space2 c1 c2).
  { destruct (IH (String.length rest2) ltac:(simpl; lia) rest2 eq_refl)
      as [p Hp].
    exists (String c1 (String c2 p)). rewrite !app_String. by rewrite <- Hp. }
  destruct rest2 as [|c3 rest3]; [by exists ""|].
  destruct (if back then space3 c3 c2 c1 else space3 c1 c2 c3).
  { destruct (IH (String.length rest3) ltac:(simpl; lia) rest3 eq_refl)
      as [p Hp].
    exists (String c1 (String c2 (String c3 p))).
    rewrite !app_String. by rewrite <- Hp. }
  by exists "".
Qed.

Lemma trimLeading_length (back : bool) (s : string) :
  (String.length (trimLeading back s) ≤ String.length s)%nat.
Proof.
  destruct (trimLeading_suffix back s) as [p Hp].
  rewrite Hp at 2. rewrite length_app_string. lia.
Qed.

Lemma trimLeading_idemp (back : bool) (s : string) :
  trimLeading back (trimLeading back s) = trimLeading back s.
Proof.
  remember (String.length s) as n eqn:Hn.
  revert s Hn. induction (lt_wf n) as [n _ IH]. intros s ->.
  destruct s as [|c1 rest1]; [done|]. simpl.
  destruct (asciiSpace c1) eqn:H1.
  { by apply (IH (String.length rest1)); [simpl; lia|]. }
  destruct rest1 as [|c2 rest2]; [by simpl; rewrite H1|].
  destruct (if back then space2 c2 c1 else space2 c1 c2) eqn:H2.
  { by apply (IH (String.length rest2)); [simpl; lia|]. }
  destruct rest2 as [|c3 rest3]; [by simpl; rewrite H1, H2|].
  destruct (if back then space3 c3 c2 c1 else space3 c1 c2 c3) eqn:H3.
  { by apply (IH (String.length rest3)); [simpl; lia|]. }
  by simpl; rewrite H1, H2, H3.
Qed.

Lemma trimLeading_shorter (back : bool) (s t : string) :
  (String.length s < String.length t)%nat → trimLeading back s ≠ t.
Proof.
  intros Hlt Heq. pose proof (trimLeading_length back s) as Hle.
  rewrite Heq in Hle. lia.
Qed.

(** A string that does not start with white space has no prefix that
    does. *)
Lemma trimLeading_fixed_prefix (back : bool) (a b : string) :
  trimLeading back (a +:+ b) = a +:+ b → trimLeading back a = a.
Proof.
  destruct a as [|c1 a1]; [done|]. rewrite app_String. simpl.
  destruct (asciiSpace c1) eqn:H1.
  { intros H. by apply trimLeading_shorter in H; [|simpl; lia]. }
  destruct a1 as [|c2 a2]; [done|]. rewrite app_String.
  destruct (if back then space2 c2 c1 else space2 c1 c2) eqn:H2.
  { intros H. by apply trimLeading_shorter in H; [|simpl; lia]. }
  destruct a2 as [|c3 a3]; [done|]. rewrite app_String.
  destruct (if back then space3 c3 c2 c1 else space3 c1 c2 c3) eqn:H3.
  { intros H. by apply trimLeading_shorter in H; [|simpl; lia]. }
  done.
Qed.

Lemma TrimSpace_idemp (s : string) : TrimSpace (TrimSpace s) = TrimSpace s.
Proof.
  unfold TrimSpace.
  set (u := trimLeading false s).
  destruct (trimLeading_suffix true (String.rev u)) as [p Hp].
  set (v := trimLeading true (String.rev u)) in *.
  assert (trimLeading false (String.rev v) = String.rev v) as ->.
  { apply (trimLeading_fixed_prefix false _ (String.rev p)).
    rewrite <- rev_app_distr, <- Hp, rev_involutive.
    apply trimLeading_idemp. }
  rewrite rev_involutive. unfold v. by rewrite trimLeading_idemp.
Qed.

End strings.

(** * Properties of the client *)

Section client_requests.

(** [NewClient] refuses a configuration whose API key or organisation name
    is blank, the key first.  The client it builds otherwise has the trimmed
    key, name and service instance, none of which trimming changes further; a
    positive number of parallel fetches, the configured one if that is
    positive; the default base URL when the configured one is blank; and a
    base URL without the slash the configured one ends in. *)
Theorem NewClient_validates (cfg : Config) :
  match NewClient cfg with
  | inl message =>
      (TrimSpace (Config.APIKey cfg) = "" ∧ message = "api key is required") ∨
      (TrimSpace (Config.APIKey cfg) ≠ "" ∧
       TrimSpace (Config.OrgName cfg) = "" ∧ message = "org name is required")
  | inr c =>
      Client.apiKey c = TrimSpace (Config.APIKey cfg) ∧
      Client.orgName c = TrimSpace (Config.OrgName cfg) ∧
      Client.serviceInstanceID c = TrimSpace (Config.ServiceInstanceID cfg) ∧
      Client.apiKey c ≠ "" ∧ Client.orgName c ≠ "" ∧
      TrimSpace (Client.apiKey c) = Client.apiKey c ∧
      TrimSpace (Client.orgName c) = Client.orgName c ∧
      TrimSpace (Client.serviceInstanceID c) = Client.serviceInstanceID c ∧
      (0 < Client.parallelFetches c)%Z ∧
      ((0 < Config.ParallelFetches cfg)%Z →
       Client.parallelFetches c = Config.ParallelFetches cfg) ∧
      (TrimSpace (Config.BaseURL cfg) = "" →
       Client.baseURL c = defaultBaseURL) ∧
      (∀ b, TrimSpace (Config.BaseURL cfg) = b +:+ "/" → Client.baseURL c = b)
  end.
Proof.
  unfold NewClient.
  destruct (decide (TrimSpace (Config.APIKey cfg) = "")) as [Hkey|Hkey];
    [by left|].
  destruct (decide (TrimSpace (Config.OrgName cfg) = "")) as [Horg|Horg];
    [by right|].
  cbn [Client.apiKey Client.orgName Client.serviceInstanceID
       Client.parallelFetches Client.baseURL].
  rewrite !TrimSpace_idemp. split_and!; try done.
  - case_decide; [done|lia].
  - intros Hpos. by rewrite decide_False by lia.
  - intros ->. by rewrite decide_True by done.
  - intros b Hb. rewrite Hb. case_decide as Hempty; [by destruct b|].
    apply TrimSuffix_app.
Qed.

(** When [doJSON] gives a value, the request was accepted and sent with the
    given method and URL, the answer had a status from 200 to 299, and the
    value is what its body decodes to.  The request carries the API key of
    the client, the two fixed headers, and as service instance the trimmed
    one of the call if that is not blank, else the one of the client if it
    has one, else none. *)
Theorem doJSON_success {B A : Type} (c : Client) (http : HTTP B)
    (decode : B → result A) (method endpoint serviceInstanceID : string)
    (a : A) :
  doJSON c http decode method endpoint serviceInstanceID = Ok a →
  ∃ (req : request) (resp : response B),
    NewRequestWithContext http method endpoint = None ∧
    Do http req = Ok resp ∧
    (200 ≤ response.StatusCode resp ≤ 299)%Z ∧
    decode (response.Body resp) = Ok a ∧
    request.Method req = method ∧
    request.URL req = endpoint ∧
    request.Header req !! "x-api-key" = Some (Client.apiKey c) ∧
    request.Header req !! "accept" = Some "application/json" ∧
    request.Header req !! "user-agent" = Some defaultUserAgent ∧
    request.Header req !! "x-nv-service-instance-id"
    = (if decide (TrimSpace serviceInstanceID ≠ "")
       then Some (TrimSpace serviceInstanceID)
       else if decide (Client.serviceInstanceID c ≠ "")
            then Some (Client.serviceInstanceID c)
            else None).
Proof.
  unfold doJSON.
  destruct (NewRequestWithContext http method endpoint); [done|].
  match goal with |- context [Do http ?r] => set (req := r) end.
  destruct (Do http req) as [resp|e] eqn:Hdo; [|done].
  case_decide as Hstatus; [done|]. intros Hdecode.
  exists req, resp. split_and!; try done; try lia.
  - subst req. cbn [request.Header].
    case_decide; rewrite ?lookup_insert_ne by done; by rewrite lookup_insert_eq.
  - subst req. cbn [request.Header].
    case_decide; rewrite ?lookup_insert_ne by done; by rewrite lookup_insert_eq.
  - subst req. cbn [request.Header].
    case_decide; rewrite ?lookup_insert_ne by done; by rewrite lookup_insert_eq.
  - subst req. cbn [request.Header].
    destruct (decide (TrimSpace serviceInstanceID = "")) as [Hsid|Hsid].
    + rewrite (decide_False (P := TrimSpace serviceInstanceID ≠ ""))
        by (intros Hne; by apply Hne).
      case_decide.
      * by rewrite lookup_insert_eq.
      * by rewrite !lookup_insert_ne, lookup_empty by done.
    + rewrite !(decide_True (P := TrimSpace serviceInstanceID ≠ "")) by done.
      by rewrite lookup_insert_eq.
Qed.

End client_requests.

(** * Properties of the two protocols *)

Section pull_and_push.
Import snapshot exporter otel.
Context `{Fetcher F}.

Lemma pretty_N_go_nonempty (x : N) (s : string) :
  s ≠ "" → pretty_N_go x s ≠ "".
Proof.
  revert s. induction (N.lt_wf_0 x) as [x _ IH]; intros s Hs.
  destruct (decide (x = 0)%N) as [->|Hx]; [by rewrite pretty_N_go_0|].
  rewrite pretty_N_go_step by lia. apply IH; [|done].
  apply N.div_lt; lia.
Qed.

Lemma Itoa_nonempty (n : Z) : Itoa n ≠ "".
Proof.
  unfold Itoa, pretty, pretty_Z. destruct n as [|p|p]; [done|..].
  - unfold pretty, pretty_positive, pretty, pretty_N.
    rewrite decide_False by done. rewrite pretty_N_go_step by lia.
    by apply pretty_N_go_nonempty.
  - by rewrite app_String.
Qed.

Lemma safeLabel_nonempty (value : string) : exporter.safeLabel value ≠ "".
Proof. unfold exporter.safeLabel. by case_decide. Qed.

Ltac solve_described :=
  unfold described; split_and!;
  [ unfold Describe, NewCollector; cbn [descs Metric.desc];
    repeat first [apply list_elem_of_here | apply list_elem_of_further]
  | reflexivity
  | cbn [Metric.labelValues];
    repeat constructor; auto using Itoa_nonempty, safeLabel_nonempty ].

Lemma entitlementMetric_row (orgName : string) (scrapeTimeout : Duration)
    (item : EntitlementFeatureSnapshot) :
  ∃ m, entitlementMetric (NewCollector orgName scrapeTimeout) item = Some m ∧
       metricSample m = observationSample (entitlementObservation orgName item) ∧
       described (NewCollector orgName scrapeTimeout) m.
Proof. eexists. split; [reflexivity|]. split; [reflexivity|]. solve_described. Qed.

Lemma capacityMetric_row (orgName : string) (scrapeTimeout : Duration)
    (item : ServerFeatureCapacitySnapshot) :
  ∃ m, capacityMetric (NewCollector orgName scrapeTimeout) item = Some m ∧
       metricSample m = observationSample (capacityObservation orgName item) ∧
       described (NewCollector orgName scrapeTimeout) m.
Proof. eexists. split; [reflexivity|]. split; [reflexivity|]. solve_described. Qed.

Lemma activeMetric_row (orgName : string) (scrapeTimeout : Duration)
    (item : ServerFeatureActiveLeaseSnapshot) :
  ∃ m, activeMetric (NewCollector orgName scrapeTimeout) item = Some m ∧
       metricSample m = observationSample (activeObservation orgName item) ∧
       described (NewCollector orgName scrapeTimeout) m.
Proof. eexists. split; [reflexivity|]. split; [reflexivity|]. solve_described. Qed.

Lemma infoMetric_row (orgName : string) (scrapeTimeout : Duration)
    (item : ServerUsageSnapshot) :
  ∃ m, infoMetric (NewCollector orgName scrapeTimeout) item = Some m ∧
       metricSample m = observationSample (infoObservation orgName item) ∧
       described (NewCollector orgName scrapeTimeout) m.
Proof. eexists. split; [reflexivity|]. split; [reflexivity|]. solve_described. Qed.

Lemma mapM_rows {A : Type} (P : Metric → Prop) (f : A → option Metric)
    (g : A → observation) (l : list A) :
  (∀ x, ∃ m, f x = Some m ∧ metricSample m = observationSample (g x) ∧ P m) →
  ∃ ms, mapM f l = Some ms ∧
        metricSample <$> ms = observationSample <$> (g <$> l) ∧
        Forall P ms.
Proof.
  intros Hf. induction l as [|x l (ms & Hms & Hs & HP)]; [by exists []|].
  destruct (Hf x) as (m & Hm & Hsm & HPm). exists (m :: ms).
  cbn. rewrite Hm, Hms. cbn. split_and!; [done| |by constructor].
  by rewrite Hsm, Hs.
Qed.

(** [Collect] when [Get] gives a snapshot. *)
Lemma Collect_snapshot (orgName : string) (scrapeTimeout : Duration)
    (s s' : Service) (w w' : World F) (snap : Snapshot) (m : Meta) :
  Get s w = Some ((Some snap, m, None), s', w') →
  ∃ ms, Collect (NewCollector orgName scrapeTimeout) s w = Some (ms, s', w') ∧
        metricSample <$> ms
        = observationSample <$> buildObservations orgName snap m ∧
        Forall (described (NewCollector orgName scrapeTimeout)) ms.
Proof.
  intros Hget. unfold Collect. rewrite Hget.
  set (c := NewCollector orgName scrapeTimeout).
  destruct (mapM_rows (described c) (entitlementMetric c)
              (entitlementObservation orgName) (EntitlementFeatures snap)
              (entitlementMetric_row orgName scrapeTimeout))
    as (es & Hes & Hes' & HesP).
  destruct (mapM_rows (described c) (capacityMetric c)
              (capacityObservation orgName) (ServerFeatureCapacity snap)
              (capacityMetric_row orgName scrapeTimeout))
    as (cs & Hcs & Hcs' & HcsP).
  destruct (mapM_rows (described c) (activeMetric c)
              (activeObservation orgName) (ServerFeatureActiveLeases snap)
              (activeMetric_row orgName scrapeTimeout))
    as (acs & Hacs & Hacs' & HacsP).
  destruct (mapM_rows (described c) (infoMetric c)
              (infoObservation orgName) (ServerUsage snap)
              (infoMetric_row orgName scrapeTimeout))
    as (infos & His & His' & HisP).
  cbn [mbind option_bind]. rewrite Hes, Hcs, Hacs, His.
  eexists. split; [reflexivity|]. split.
  - unfold buildObservations. rewrite !fmap_app, Hes', Hcs', Hacs', His'.
    reflexivity.
  - rewrite !Forall_app. split_and!; try done.
    repeat constructor; solve_described.
Qed.

(** [Collect] when [Get] gives an error. *)
Lemma Collect_error (orgName : string) (scrapeTimeout : Duration)
    (s s' : Service) (w w' : World F) (m : Meta) (e : error) :
  Get s w = Some ((None, m, Some e), s', w') →
  ∃ ms, Collect (NewCollector orgName scrapeTimeout) s w = Some (ms, s', w') ∧
        metricSample <$> ms
        = [(metricUp, 0, [("org_name", orgName)]);
           (metricScrapeDuration, DurationSeconds (meta s'),
            [("org_name", orgName)])]
          ++ (if decide (Timestamp (meta s') = 0%Z) then []
              else [(metricScrapeTimestamp,
                     Qc_of_Z (Unix (Timestamp (meta s'))),
                     [("org_name", orgName)])]) ∧
        Forall (described (NewCollector orgName scrapeTimeout)) ms.
Proof.
  intros Hget. unfold Collect. rewrite Hget. cbn [mbind option_bind].
  unfold MetaOf.
  destruct (decide (Timestamp (meta s') ≠ 0%Z)) as [Hzero|Hzero].
  - rewrite (decide_False (P := Timestamp (meta s') = 0%Z)) by done.
    eexists. split; [reflexivity|]. split; [reflexivity|].
    repeat constructor; solve_described.
  - rewrite (decide_True (P := Timestamp (meta s') = 0%Z))
      by (by apply dec_stable).
    eexists. split; [reflexivity|]. split; [reflexivity|].
    repeat constructor; solve_described.
Qed.

(** With the collector that [NewCollector] makes, [Collect] fails only where
    [Get] does: [MustNewConstMetric] is always given as many label values as
    the description has variable labels, and the snapshot is there whenever
    its rows are read. *)
Theorem Collect_fails_only_in_Get (orgName : string)
    (scrapeTimeout : Duration) (s : Service) (w : World F) :
  Collect (NewCollector orgName scrapeTimeout) s w = None ↔ Get s w = None.
Proof.
  split.
  - destruct (Get s w) as [[[[[snap m] err] s'] w']|] eqn:Hget; [|done].
    pose proof (Get_reply _ _ _ _ _ Hget) as Hreply.
    unfold answered in Hreply.
    destruct snap as [snap|], err as [e|]; try done.
    + destruct (Collect_snapshot orgName scrapeTimeout _ _ _ _ _ _ Hget)
        as (ms & -> & _). done.
    + destruct (Collect_error orgName scrapeTimeout _ _ _ _ _ _ Hget)
        as (ms & -> & _). done.
  - intros Hget. unfold Collect. by rewrite Hget.
Qed.

(** Every metric that [Collect] sends has a description that [Describe]
    announces and one value for each of its variable labels, none of them
    empty; the first metric is the gauge [nvidia_cls_up], and it is 0 when
    [Get] gave an error. *)
Theorem Collect_metrics_described (orgName : string)
    (scrapeTimeout : Duration) (s s' : Service) (w w' : World F)
    (ms : list Metric) :
  Collect (NewCollector orgName scrapeTimeout) s w = Some (ms, s', w') →
  Forall (described (NewCollector orgName scrapeTimeout)) ms ∧
  ∃ (r : reply) (up : sample),
    Get s w = Some (r, s', w') ∧
    head (metricSample <$> ms) = Some up ∧
    up.1.1 = "nvidia_cls_up" ∧
    up.1.2 = (if r.2 is Some _ then 0 else Up r.1.2).
Proof.
  intros Hcollect.
  destruct (Get s w) as [[[[[snap m] err] s1] w1]|] eqn:Hget;
    [|by unfold Collect in Hcollect; rewrite Hget in Hcollect].
  pose proof (Get_reply _ _ _ _ _ Hget) as Hreply.
  unfold answered in Hreply.
  destruct snap as [snap|], err as [e|]; try done.
  - destruct (Collect_snapshot orgName scrapeTimeout _ _ _ _ _ _ Hget)
      as (ms' & Hms & Hsamples & Hdescribed).
    rewrite Hms in Hcollect. injection Hcollect as <- <- <-.
    split; [done|]. rewrite Hsamples. by eexists _, _.
  - destruct (Collect_error orgName scrapeTimeout _ _ _ _ _ _ Hget)
      as (ms' & Hms & Hsamples & Hdescribed).
    rewrite Hms in Hcollect. injection Hcollect as <- <- <-.
    split; [done|]. rewrite Hsamples. by eexists _, _.
Qed.

(** A first scrape whose fetch fails: [Collect] reports [nvidia_cls_up] as
    0, the time the failed fetch took, and, as the timestamp, the time at
    which it failed; nothing else, and nothing is cached. *)
Theorem Collect_after_failed_first_fetch (orgName : string)
    (scrapeTimeout : Duration) (s : Service) (w : World F)
    (fetched : option Snapshot) (fetchErr : error) (fetcher' : F)
    (elapsed : Duration) :
  snapshot s = None →
  FetchSnapshot (fetcher w) (clock w)
    = (fetched, Some fetchErr, fetcher', elapsed) →
  (clock w + elapsed ≠ 0)%Z →
  ∃ (ms : list Metric) (s' : Service) (w' : World F),
    Collect (NewCollector orgName scrapeTimeout) s w = Some (ms, s', w') ∧
    metricSample <$> ms
    = [("nvidia_cls_up", 0, [("org_name", orgName)]);
       ("nvidia_cls_scrape_duration_seconds", Seconds elapsed,
        [("org_name", orgName)]);
       ("nvidia_cls_scrape_timestamp_seconds",
        Qc_of_Z (Unix (clock w + elapsed)), [("org_name", orgName)])] ∧
    snapshot s' = None ∧
    fetchLog w' = fetchLog w ++ [false].
Proof.
  intros Hs Hfetch Hnow.
  assert (∃ s' w',
            Get s w = Some ((None, zeroMeta, Some fetchErr), s', w') ∧
            DurationSeconds (meta s') = Seconds elapsed ∧
            Timestamp (meta s') = (clock w + elapsed)%Z ∧
            snapshot s' = None ∧
            fetchLog w' = fetchLog w ++ [false]) as (s' & w' & Hget & Hd & Ht & Hs' & Hlog).
  { unfold Get, Refresh. rewrite Hs, Hfetch. do 2 eexists.
    split; [reflexivity|]. cbn [meta DurationSeconds Timestamp clock snapshot fetchLog].
    by rewrite Seconds_since. }
  destruct (Collect_error orgName scrapeTimeout _ _ _ _ _ _ Hget)
    as (ms & Hms & Hsamples & _).
  exists ms, s', w'. split; [done|]. split; [|done].
  rewrite Hsamples, Hd, Ht. by rewrite decide_False by done.
Qed.

(** The two protocols show the same: for the snapshot and the [Meta] that
    [Get] gives it, [Collect] sends, in the same order, the samples that
    [buildObservations] builds from them, with the same names, values,
    labels and label values. *)
Theorem Collect_samples (orgName : string) (scrapeTimeout : Duration)
    (s s' : Service) (w w' : World F) (snap : Snapshot) (m : Meta) :
  Get s w = Some ((Some snap, m, None), s', w') →
  ∃ ms, Collect (NewCollector orgName scrapeTimeout) s w = Some (ms, s', w') ∧
        metricSample <$> ms
        = observationSample <$> buildObservations orgName snap m.
Proof.
  intros Hget.
  destruct (Collect_snapshot orgName scrapeTimeout _ _ _ _ _ _ Hget)
    as (ms & Hms & Hsamples & _).
  by exists ms.
Qed.

(** Every observation that [buildObservations] builds is under one of the
    seven names for which an instrument is registered. *)
Lemma buildObservations_known (orgName : string) (snap : Snapshot)
    (m : Meta) :
  Forall (λ item,
            name item ∈
              [metricUp; metricScrapeDuration; metricScrapeTimestamp;
               metricEntitlementTotal; metricServerInfo;
               metricServerFeatureTotal; metricServerFeatureActive])
    (buildObservations orgName snap m).
Proof.
  unfold buildObservations. rewrite !Forall_app, !Forall_fmap.
  split_and!.
  - repeat constructor; cbn; rewrite !elem_of_cons; by eauto 10.
  - apply Forall_forall. intros item _. cbn. rewrite !elem_of_cons. by eauto 10.
  - apply Forall_forall. intros item _. cbn. rewrite !elem_of_cons. by eauto 10.
  - apply Forall_forall. intros item _. cbn. rewrite !elem_of_cons. by eauto 10.
  - apply Forall_forall. intros item _. cbn. rewrite !elem_of_cons. by eauto 10.
Qed.

(** The callback observes what [buildObservations] builds from the cached
    snapshot and the committed [Meta], and nothing while nothing is
    cached. *)
Lemma observeCallback_cached (orgName : string) (s : Service) :
  observeCallback orgName s
  = Some (match snapshot s with
          | Some snap => buildObservations orgName snap (meta s)
          | None => []
          end, []).
Proof.
  unfold observeCallback, Latest. destruct (snapshot s) as [snap|]; [|done].
  f_equal.
  pose proof (buildObservations_known orgName snap (meta s)) as Hknown.
  generalize dependent (buildObservations orgName snap (meta s)).
  intros l Hknown.
  enough (∀ done logged,
            foldl
              (λ acc item,
                 if decide (name item ∈
                              [metricUp; metricScrapeDuration;
                               metricScrapeTimestamp; metricEntitlementTotal;
                               metricServerInfo; metricServerFeatureTotal;
                               metricServerFeatureActive])
                 then (acc.1 ++ [item], acc.2)
                 else (acc.1, acc.2 ++ [name item]))
              (done, logged) l
            = (done ++ l, logged)) as Hfold by apply (Hfold [] []).
  induction Hknown as [|item l Hitem _ IH]; intros done logged; simpl.
  - by rewrite app_nil_r.
  - rewrite decide_True by done. cbn [fst snd]. rewrite IH.
    by rewrite <- app_assoc.
Qed.

(** A scrape and a push: after [Collect] has sent the rows of a snapshot,
    the callback of the push protocol observes the same samples in the same
    order, except that under [nvidia_cls_scrape_duration_seconds] it shows
    the duration of the last fetch, where a scrape served from the cache
    shows 0. *)
Theorem push_matches_pull (orgName : string) (scrapeTimeout : Duration)
    (s s' : Service) (w w' : World F) (ms : list Metric) :
  Collect (NewCollector orgName scrapeTimeout) s w = Some (ms, s', w') →
  is_Some (snapshot s') →
  ∃ obs,
    observeCallback orgName s' = Some (obs, []) ∧
    observationSample <$> obs
    = <[1%nat := ("nvidia_cls_scrape_duration_seconds",
                  DurationSeconds (meta s'), [("org_name", orgName)])]>
        (metricSample <$> ms).
Proof.
  intros Hcollect [cached Hcached].
  destruct (Get s w) as [[[[[snap m] err] s1] w1]|] eqn:Hget;
    [|by unfold Collect in Hcollect; rewrite Hget in Hcollect].
  pose proof (Get_reply _ _ _ _ _ Hget) as Hreply.
  unfold answered in Hreply.
  destruct snap as [snap|], err as [e|]; try done.
  - destruct (Collect_snapshot orgName scrapeTimeout _ _ _ _ _ _ Hget)
      as (ms' & Hms & Hsamples & _).
    rewrite Hms in Hcollect. injection Hcollect as <- <- <-.
    destruct Hreply as (Hsnap & Hup & Hts).
    rewrite observeCallback_cached, Hsnap. eexists. split; [reflexivity|].
    rewrite Hsamples. unfold buildObservations.
    cbn. by rewrite Hup, Hts.
  - destruct (Collect_error orgName scrapeTimeout _ _ _ _ _ _ Hget)
      as (ms' & Hms & _).
    rewrite Hms in Hcollect. injection Hcollect as <- <- <-.
    destruct Hreply as (_ & Hnone & _). congruence.
Qed.

(** After [refreshOnce] the callback logs no unknown name, and what it
    observes starts with [nvidia_cls_up], which is 1 if the fetch of that
    refresh succeeded and 0 if it failed; it observes nothing only if the
    fetch failed with nothing cached. *)
Theorem push_after_refreshOnce (orgName : string) (s s' : Service)
    (w w' : World F) :
  refreshOnce s w = Some (s', w') →
  ∃ (ok : bool) (obs : list observation),
    fetchLog w' = fetchLog w ++ [ok] ∧
    observeCallback orgName s' = Some (obs, []) ∧
    match obs with
    | [] => ok = false ∧ snapshot s = None
    | up :: _ =>
        name up = "nvidia_cls_up" ∧ value up = (if ok then 1 else 0) ∧
        attrs up = [("org_name", orgName)]
    end.
Proof.
  unfold refreshOnce, Refresh. rewrite observeCallback_cached.
  destruct (FetchSnapshot (fetcher w) (clock w))
    as [[[fetched fetchErr] f'] d].
  destruct fetchErr as [e|];
    [destruct (snapshot s) as [stale|] eqn:Hs|destruct fetched as [snap|]];
    cbn [mbind option_bind]; intros [= <- <-]; cbn [snapshot meta fetchLog].
  - exists false. eexists. split; [reflexivity|]. split; [reflexivity|]. done.
  - exists false. eexists. split; [reflexivity|]. split; [reflexivity|]. done.
  - exists true. eexists. split; [reflexivity|]. split; [reflexivity|]. done.
Qed.

(** [normalizeConfig] makes the push interval and the refresh timeout
    positive: one that is positive is kept, one that is not becomes the
    default; nothing else changes, and normalising again changes nothing. *)
Theorem normalizeConfig_positive (cfg : otel.Config) :
  let cfg' := normalizeConfig cfg in
  (0 < otel.Config.PushInterval cfg')%Z ∧
  (0 < otel.Config.RefreshTimeout cfg')%Z ∧
  otel.Config.PushInterval cfg'
  = (if decide (0 < otel.Config.PushInterval cfg)%Z
     then otel.Config.PushInterval cfg else defaultPushInterval) ∧
  otel.Config.RefreshTimeout cfg'
  = (if decide (0 < otel.Config.RefreshTimeout cfg)%Z
     then otel.Config.RefreshTimeout cfg else defaultRefreshTimeout) ∧
  otel.Config.Enabled cfg' = otel.Config.Enabled cfg ∧
  otel.Config.Endpoint cfg' = otel.Config.Endpoint cfg ∧
  otel.Config.ServiceName cfg' = otel.Config.ServiceName cfg ∧
  otel.Config.ServiceInstanceID cfg' = otel.Config.ServiceInstanceID cfg ∧
  otel.Config.Insecure cfg' = otel.Config.Insecure cfg ∧
  normalizeConfig cfg' = cfg'.
Proof.
  destruct cfg as [enabled endpoint serviceName instance insecure push refresh].
  unfold normalizeConfig. cbn.
  destruct (decide (push ≤ 0)%Z), (decide (refresh ≤ 0)%Z); cbn;
    repeat case_decide; try lia; split_and!; try done;
    unfold defaultPushInterval, defaultRefreshTimeout, second in *; lia.
Qed.

End pull_and_push.

(** * Properties of the command *)

Section command.
Import main.

Lemma getenv_no_fallback (env : gmap string string) (key : string) :
  getenv env key "" = TrimSpace (Getenv env key).
Proof. unfold getenv. by case_decide. Qed.

Lemma firstNonEmpty_pair (a b : string) :
  firstNonEmpty [TrimSpace a; TrimSpace b]
  = (if decide (TrimSpace a ≠ "") then TrimSpace a else TrimSpace b).
Proof.
  simpl. rewrite !TrimSpace_idemp.
  destruct (decide (TrimSpace a ≠ "")); [done|].
  by destruct (decide (TrimSpace b ≠ "")) as [|Hb%dec_stable].
Qed.

(** The defaults of the flags for the organisation and for the API key are
    read from the environment: the trimmed value of the variable named
    [NVIDIA_...] if that is not blank, else the trimmed value of the one
    named [NLS_...], which is empty when that is blank or not set. *)
Theorem credentials_from_environment (env : gmap string string) :
  defaultOrgName env
  = (if decide (TrimSpace (Getenv env "NVIDIA_ORG_NAME") ≠ "")
     then TrimSpace (Getenv env "NVIDIA_ORG_NAME")
     else TrimSpace (Getenv env "NLS_ORG_NAME")) ∧
  defaultAPIKey env
  = (if decide (TrimSpace (Getenv env "NVIDIA_API_KEY") ≠ "")
     then TrimSpace (Getenv env "NVIDIA_API_KEY")
     else TrimSpace (Getenv env "NLS_API_KEY")).
Proof.
  unfold defaultOrgName, defaultAPIKey. rewrite !getenv_no_fallback.
  by rewrite !firstNonEmpty_pair.
Qed.

Lemma prefix_empty (s : string) : String.prefix "" s = true.
Proof. by destruct s. Qed.

(** The default listen address is never empty: it is the trimmed
    [LISTEN_ADDRESS] if that is not blank.  Else it begins with a colon: it
    is the trimmed [PORT], behind a colon unless it has one, if that is not
    blank, and [:9844] if it is. *)
Theorem defaultListenAddress_binds (env : gmap string string) :
  let listen := TrimSpace (Getenv env "LISTEN_ADDRESS") in
  let port := TrimSpace (Getenv env "PORT") in
  defaultListenAddress env ≠ "" ∧
  (listen ≠ "" → defaultListenAddress env = listen) ∧
  (listen = "" →
   HasPrefix (defaultListenAddress env) ":" = true ∧
   (port = "" → defaultListenAddress env = ":9844") ∧
   (port ≠ "" →
    if HasPrefix port ":" then defaultListenAddress env = port
    else defaultListenAddress env = ":" +:+ port)).
Proof.
  intros listen port. unfold defaultListenAddress. fold listen port.
  destruct (decide (listen ≠ "")) as [Hlisten|Hlisten%dec_stable];
    [by split_and!|].
  destruct (decide (port ≠ "")) as [Hport|Hport%dec_stable].
  - destruct (HasPrefix port ":") eqn:Hcolon.
    + by split_and!.
    + split_and!; try done. intros _. split_and!; try done.
      unfold HasPrefix. rewrite app_String. cbn [String.prefix].
      destruct (Ascii.ascii_dec ":" ":"); [|done]. apply prefix_empty.
  - by split_and!.
Qed.

(** [main] never ends with the message for a client that could not be
    created: it has checked the organisation and the API key before, the
    organisation first.  When it starts, the client has the trimmed key and
    organisation, the cache is empty with a positive TTL, and the collector
    labels its metrics with the organisation as it was given, not
    trimmed. *)
Theorem start_checks_credentials (f : flags) :
  match start f with
  | Fatal message =>
      (TrimSpace (flags.orgName f) = "" ∧
       message = "missing required org name: set NVIDIA_ORG_NAME or pass -nvidia-org-name") ∨
      (TrimSpace (flags.orgName f) ≠ "" ∧
       TrimSpace (flags.apiKey f) = "" ∧
       message = "missing required API key: set NVIDIA_API_KEY or pass -nvidia-api-key")
  | Started client snapshotSvc collector =>
      TrimSpace (flags.orgName f) ≠ "" ∧
      TrimSpace (flags.apiKey f) ≠ "" ∧
      Client.orgName client = TrimSpace (flags.orgName f) ∧
      Client.apiKey client = TrimSpace (flags.apiKey f) ∧
      (0 < Client.parallelFetches client)%Z ∧
      snapshot.snapshot snapshotSvc = None ∧
      (0 < snapshot.cacheTTL snapshotSvc)%Z ∧
      Forall (λ desc,
                exporter.Desc.constLabels desc
                = [("org_name", flags.orgName f)])
        (exporter.Describe collector)
  end.
Proof.
  unfold start.
  destruct (decide (TrimSpace (flags.orgName f) = "")) as [Horg|Horg];
    [by left|].
  destruct (decide (TrimSpace (flags.apiKey f) = "")) as [Hkey|Hkey];
    [by right|].
  unfold NewClient. cbn [Config.APIKey Config.OrgName].
  rewrite !decide_False by done.
  cbn [Client.orgName Client.apiKey Client.parallelFetches
       Config.ParallelFetches].
  split_and!; try done.
  - case_decide; [done|lia].
  - unfold snapshot.NewService. cbn [snapshot.cacheTTL].
    case_decide; [done|lia].
  - repeat constructor.
Qed.

End command.

(** * The further properties on the scenarios *)

Section cache_scenarios.
Import snapshot scenario.

(** [Get_hits_after_successful_Refresh] on the first fetch of
    [TestServiceRefreshStaleFallback], with a [Get] 59 seconds later. *)
Lemma Get_hits_59s_after_first_fetch :
  ∃ (m1 m : Meta) (s1 : Service) (w1 : World fakeFetcher),
    Refresh (NewService minute) flakyWorld
      = Some ((Some (emptySnapshot 1000), m1, None), s1, w1) ∧
    Up m1 = 1 ∧ CacheHit m1 = false ∧
    Timestamp m1 = 1000%Z ∧
    DurationSeconds m1 = Seconds 0 ∧
    fetchLog w1 = [true] ∧
    Get s1 (elapse (59 * second) w1)
      = Some ((Some (emptySnapshot 1000), m, None), s1,
              elapse (59 * second) w1) ∧
    CacheHit m = true ∧ Up m = 1 ∧ DurationSeconds m = 0 ∧
    Timestamp m = 1000%Z.
Proof.
  apply (Get_hits_after_successful_Refresh (NewService minute) flakyWorld
           (emptySnapshot 1000)
           {| calls := 1; results := results (fetcher flakyWorld) |}
           0%Z (59 * second)%Z eq_refl).
  by vm_compute.
Defined.

(** [Get_fetches_at_most_once] on the first call of a new service. *)
Lemma Get_fetches_once_when_empty :
  ∃ (r : reply) (s' : Service) (w' : World fakeFetcher),
    Get (NewService minute) flakyWorld = Some (r, s', w') ∧
    ∃ ok, fetchLog w' = fetchLog flakyWorld ++ [ok].
Proof.
  do 3 eexists. split; [vm_compute; reflexivity|].
  exact (Get_fetches_at_most_once (NewService minute) _ flakyWorld _ _
           eq_refl).
Defined.

(** [failed_Refresh_keeps_cache_age] on the second fetch of
    [TestServiceRefreshStaleFallback], with a [Get] 30 seconds after the
    first. *)
Lemma failed_Refresh_then_Get_at_30s :
  ∃ (r : reply) (s' : Service) (w' : World fakeFetcher) (m : Meta),
    Refresh cachedService cachedWorld = Some (r, s', w') ∧
    cachedAt s' = 1000%Z ∧ cacheTTL s' = minute ∧
    Get s' (elapse (30 * second) cachedWorld)
      = Some ((Some (emptySnapshot 1000), m, None), s',
              elapse (30 * second) cachedWorld) ∧
    CacheHit m = true ∧ Up m = 0 ∧ Timestamp m = 1000%Z.
Proof.
  apply (failed_Refresh_keeps_cache_age cachedService cachedWorld
           (elapse (30 * second) cachedWorld) (emptySnapshot 1000) None boom
           {| calls := 2; results := results (fetcher flakyWorld) |}
           50000000%Z eq_refl eq_refl eq_refl).
Defined.

(** [reply_has_snapshot_or_error] on the call of
    [TestServiceRefreshErrorWithoutCache]. *)
Lemma reply_is_error_without_cache :
  ∃ (s' : Service) (w' : World fakeFetcher),
    serve1 GetRequest (NewService minute) failingWorld
      = Some ((None, zeroMeta, Some boom), s', w') ∧
    snapshot s' = None ∧ Up (meta s') = 0.
Proof.
  do 2 eexists. split; [vm_compute; reflexivity|].
  destruct (reply_has_snapshot_or_error (H := fakeFetcher_Fetcher)
              GetRequest (NewService minute) _
              failingWorld _ (None, zeroMeta, Some boom)
              ltac:(vm_compute; reflexivity)) as (_ & Hnone & _ & Hup).
  by split.
Defined.

(** [service_stays_consistent] on the run of
    [TestServiceRefreshStaleFallback]. *)
Lemma service_consistent_after_stale_fallback :
  ∃ (s : Service) (w : World fakeFetcher),
    serve [(0%Z, GetRequest); (minute, RefreshRequest)]
      (NewService minute) flakyWorld = Some (s, w) ∧
    serviceConsistent s ∧ cacheTTL s = minute.
Proof.
  do 2 eexists. split; [vm_compute; reflexivity|].
  exact (service_stays_consistent minute
           [(0%Z, GetRequest); (minute, RefreshRequest)] flakyWorld _ _
           eq_refl).
Defined.

(** [serve_fetches_and_keeps_cache] on a [Get], a [Get] served from the
    cache, and a [Refresh]: two fetches for three calls. *)
Lemma serve_three_calls_two_fetches :
  ∃ (s : Service) (w : World fakeFetcher),
    serve [(0%Z, GetRequest); (second, GetRequest); (minute, RefreshRequest)]
      (NewService minute) flakyWorld = Some (s, w) ∧
    fetchLog w = [true; false] ∧
    (length (fetchLog flakyWorld) ≤ length (fetchLog w) ≤
       length (fetchLog flakyWorld) + 3)%nat ∧
    (is_Some (snapshot (NewService minute)) → is_Some (snapshot s)).
Proof.
  do 2 eexists. split; [vm_compute; reflexivity|]. split; [reflexivity|].
  exact (serve_fetches_and_keeps_cache
           [(0%Z, GetRequest); (second, GetRequest); (minute, RefreshRequest)]
           (NewService minute) _ flakyWorld _ eq_refl).
Defined.

End cache_scenarios.

Section fetch_detail_scenarios.
Import scenario.

(** [servers_by_group] where the one group has two servers. *)
Lemma servers_by_group_two_servers :
  ∃ serversByVG : gmap Z (list licenseServer),
    errgroupRun (serverTask twoInstanceAPI) [groupG] ∅ = Ok serversByVG ∧
    (∀ gid, is_Some (serversByVG !! gid)
            ↔ gid ∈ virtualGroup.ID <$> [groupG]) ∧
    (∀ gid servers,
       serversByVG !! gid = Some servers →
       ∃ vg raw,
         last (filter (λ vg, virtualGroup.ID vg = gid) [groupG]) = Some vg ∧
         listLicenseServers twoInstanceAPI gid = Ok raw ∧
         servers = backfillGroup vg <$> raw).
Proof.
  eexists. split; [vm_compute; reflexivity|].
  apply (servers_by_group twoInstanceAPI [groupG]).
  vm_compute. reflexivity.
Defined.

(** [FetchSnapshot_error_names_call] when the pools of the server cannot be
    listed. *)
Lemma FetchSnapshot_error_names_pools :
  FetchSnapshot poolsDownAPI 0
    = Err (ListLicensePoolsError "srv-1" 1 (UpstreamError "503")) ∧
  (listVirtualGroups poolsDownAPI
     = Err (ListLicensePoolsError "srv-1" 1 (UpstreamError "503")) ∨
   (∃ gid cause,
      ListLicensePoolsError "srv-1" 1 (UpstreamError "503")
        = ListLicenseServersError gid cause ∧
      listLicenseServers poolsDownAPI gid = Err cause) ∨
   (∃ gid serviceInstanceID cause,
      ListLicensePoolsError "srv-1" 1 (UpstreamError "503")
        = ListActiveLeasesError gid serviceInstanceID cause ∧
      listActiveLeases poolsDownAPI gid serviceInstanceID = Err cause) ∨
   (∃ serverID gid cause,
      ListLicensePoolsError "srv-1" 1 (UpstreamError "503")
        = ListLicensePoolsError serverID gid cause ∧
      listLicensePools poolsDownAPI gid serverID = Err cause)).
Proof.
  split; [vm_compute; reflexivity|].
  apply (FetchSnapshot_error_names_call poolsDownAPI 0%Z).
  vm_compute. reflexivity.
Defined.

(** [feature_rows_labelled] where two service instances report leases, two
    of them without a feature. *)
Lemma feature_rows_labelled_two_instances :
  ∃ snap,
    FetchSnapshot twoInstanceAPI 0 = Ok snap ∧
    length (ServerFeatureActiveLeases snap) = 2%nat ∧
    Forall featureRowLabelled (ServerFeatureActiveLeases snap).
Proof.
  eexists. split; [vm_compute; reflexivity|]. split; [reflexivity|].
  apply (feature_rows_labelled twoInstanceAPI 0%Z).
  vm_compute. reflexivity.
Defined.

(** [server_rows_agree] on the server with the one lease of count 3. *)
Lemma server_rows_agree_one_server :
  ∃ snap leases,
    FetchSnapshot oneServerAPI 0 = Ok snap ∧
    leases ∈ ServerActiveLeases snap ∧
    ServerActiveLeaseSnapshot.ActiveLeases leases = units 3 ∧
    0 < ServerActiveLeaseSnapshot.ActiveLeases leases ∧
    ∀ usage,
      usage ∈ ServerUsage snap →
      ServerUsageSnapshot.ServerID usage
      = ServerActiveLeaseSnapshot.ServerID leases →
      ServerUsageSnapshot.InUse usage
      = ServerActiveLeaseSnapshot.ActiveLeases leases.
Proof.
  do 2 eexists. split; [vm_compute; reflexivity|].
  split; [apply list_elem_of_here|].
  split; [apply Qc_is_canon; reflexivity|].
  eapply (server_rows_agree oneServerAPI 0%Z).
  - vm_compute. reflexivity.
  - apply list_elem_of_here.
Defined.


(** [snapshot_contents] on the scenario of one server with one pool. *)
Lemma snapshot_contents_one_server :
  ∃ snap virtualGroups serversByVG,
    FetchSnapshot oneServerAPI 7 = Ok snap ∧
    listVirtualGroups oneServerAPI = Ok virtualGroups ∧
    errgroupRun (serverTask oneServerAPI) virtualGroups ∅ = Ok serversByVG ∧
    CollectedAt snap = 7%Z ∧
    EntitlementFeatures snap
    = extractEntitlementFeatureMetrics virtualGroups ∧
    ServerFeatureCapacity snap
    = (poolJobs virtualGroups serversByVG ≫= λ job,
         serverFeatureCapacityRow job.2
           <$> licenseServer.LicenseServerFeatures job.2) ∧
    length (ServerUsage snap) = length (poolJobs virtualGroups serversByVG) ∧
    Forall2 (λ entry row, poolRowOf entry.1 entry.2 row)
      (poolJobs virtualGroups serversByVG ≫= λ job,
         pair job.2 <$> poolEntries (poolsOf oneServerAPI job))
      (PoolUsage snap).
Proof.
  eexists.
  destruct (snapshot_contents oneServerAPI 7%Z _
              ltac:(vm_compute; reflexivity))
    as (vgs & m & H1 & H2 & H3 & H4 & H5 & H6 & H7).
  exists vgs, m. split; [vm_compute; reflexivity|].
  by split_and!.
Defined.

End fetch_detail_scenarios.

Section protocol_scenarios.
Import snapshot exporter otel scenario.

(** [doJSON_success] on a request for the leases of the service instance
    "si-1": the id of the call is sent, not the one of the client. *)
Lemma doJSON_success_leases :
  ∃ (req : cls.request) (resp : response string),
    NewRequestWithContext okHTTP "GET" "https://api/leases" = None ∧
    Do okHTTP req = Ok resp ∧
    (200 ≤ response.StatusCode resp ≤ 299)%Z ∧
    Ok (response.Body resp) = Ok "{}" ∧
    request.Method req = "GET" ∧
    request.URL req = "https://api/leases" ∧
    request.Header req !! "x-api-key" = Some "key" ∧
    request.Header req !! "accept" = Some "application/json" ∧
    request.Header req !! "user-agent" = Some defaultUserAgent ∧
    request.Header req !! "x-nv-service-instance-id" = Some "si-1".
Proof.
  apply (doJSON_success exampleClient okHTTP Ok "GET" "https://api/leases"
           " si-1 " "{}").
  reflexivity.
Defined.

(** [Collect_metrics_described] on a scrape served from the cache. *)
Lemma Collect_described_on_cache_hit :
  ∃ (ms : list Metric) (s' : Service) (w' : World fakeFetcher),
    Collect (NewCollector "lic-1" (20 * second)) cachedService
      (elapse (59 * second) cachedWorld) = Some (ms, s', w') ∧
    length ms = 3%nat ∧
    Forall (described (NewCollector "lic-1" (20 * second))) ms ∧
    ∃ (r : reply) (up : sample),
      Get cachedService (elapse (59 * second) cachedWorld)
        = Some (r, s', w') ∧
      head (metricSample <$> ms) = Some up ∧
      up.1.1 = "nvidia_cls_up" ∧
      up.1.2 = (if r.2 is Some _ then 0 else Up r.1.2).
Proof.
  do 3 eexists. split; [vm_compute; reflexivity|]. split; [reflexivity|].
  apply (Collect_metrics_described (H := fakeFetcher_Fetcher) "lic-1"
           (20 * second) cachedService _ (elapse (59 * second) cachedWorld)).
  vm_compute. reflexivity.
Defined.

(** [Collect_after_failed_first_fetch] on the scrape of
    [TestServiceRefreshErrorWithoutCache]: the fetch fails after 50ms. *)
Lemma Collect_after_failed_first_fetch_50ms :
  ∃ (ms : list Metric) (s' : Service) (w' : World fakeFetcher),
    Collect (NewCollector "lic-1" (20 * second)) (NewService minute)
      failingWorld = Some (ms, s', w') ∧
    metricSample <$> ms
    = [("nvidia_cls_up", 0, [("org_name", "lic-1")]);
       ("nvidia_cls_scrape_duration_seconds", Seconds 50000000,
        [("org_name", "lic-1")]);
       ("nvidia_cls_scrape_timestamp_seconds",
        Qc_of_Z (Unix (1000 + 50000000)), [("org_name", "lic-1")])] ∧
    snapshot s' = None ∧
    fetchLog w' = [false].
Proof.
  apply (Collect_after_failed_first_fetch (H := fakeFetcher_Fetcher) "lic-1"
           (20 * second) (NewService minute) failingWorld None boom
           {| calls := 1; results := results (fetcher failingWorld) |}
           50000000%Z eq_refl eq_refl).
  done.
Defined.

(** [Collect_samples] on a scrape served from the cache. *)
Lemma Collect_samples_on_cache_hit :
  ∃ (m : Meta) (ms : list Metric),
    Get cachedService (elapse (59 * second) cachedWorld)
      = Some ((Some (emptySnapshot 1000), m, None), cachedService,
              elapse (59 * second) cachedWorld) ∧
    Collect (NewCollector "lic-1" (20 * second)) cachedService
      (elapse (59 * second) cachedWorld)
      = Some (ms, cachedService, elapse (59 * second) cachedWorld) ∧
    metricSample <$> ms
    = observationSample
        <$> buildObservations "lic-1" (emptySnapshot 1000) m.
Proof.
  eexists.
  destruct (Collect_samples (H := fakeFetcher_Fetcher) "lic-1" (20 * second)
              cachedService cachedService
              (elapse (59 * second) cachedWorld)
              (elapse (59 * second) cachedWorld) (emptySnapshot 1000) _
              ltac:(vm_compute; reflexivity)) as (ms & Hms & Hsamples).
  exists ms. split; [vm_compute; reflexivity|]. by split.
Defined.

(** [push_matches_pull] on a scrape served from the cache. *)
Lemma push_matches_pull_on_cache_hit :
  ∃ (ms : list Metric) (s' : Service) (w' : World fakeFetcher)
      (obs : list observation),
    Collect (NewCollector "lic-1" (20 * second)) cachedService
      (elapse (59 * second) cachedWorld) = Some (ms, s', w') ∧
    observeCallback "lic-1" s' = Some (obs, []) ∧
    observationSample <$> obs
    = <[1%nat := ("nvidia_cls_scrape_duration_seconds",
                  DurationSeconds (meta s'), [("org_name", "lic-1")])]>
        (metricSample <$> ms).
Proof.
  do 3 eexists.
  destruct (push_matches_pull (H := fakeFetcher_Fetcher) "lic-1"
              (20 * second) cachedService _
              (elapse (59 * second) cachedWorld) _ _
              ltac:(vm_compute; reflexivity)
              ltac:(vm_compute; by eexists)) as (obs & Hobs & Hsamples).
  exists obs. split; [vm_compute; reflexivity|]. by split.
Defined.

(** [push_after_refreshOnce] on the second fetch of
    [TestServiceRefreshStaleFallback]: the stale snapshot is pushed under
    [nvidia_cls_up = 0]. *)
Lemma push_after_failed_refreshOnce :
  ∃ (s' : Service) (w' : World fakeFetcher) (up : observation)
      (rest : list observation),
    refreshOnce cachedService cachedWorld = Some (s', w') ∧
    fetchLog w' = [true; false] ∧
    observeCallback "lic-1" s' = Some (up :: rest, []) ∧
    name up = "nvidia_cls_up" ∧ value up = 0 ∧
    attrs up = [("org_name", "lic-1")].
Proof.
  do 2 eexists.
  destruct (push_after_refreshOnce (H := fakeFetcher_Fetcher) "lic-1"
              cachedService _ cachedWorld _ ltac:(vm_compute; reflexivity))
    as (ok & obs & Hlog & Hobs & Hup).
  assert (ok = false) as ->.
  { cbn in Hlog. by injection Hlog. }
  destruct obs as [|up rest].
  - destruct Hup as [_ Hcached]. discriminate Hcached.
  - destruct Hup as (Hname & Hvalue & Hattrs).
    exists up, rest. split; [vm_compute; reflexivity|]. by split_and!.
Defined.

End protocol_scenarios.
